(** * Image Fetcher (lib.py): a shallow embedding and its verified properties

    The program is a single Python 3 module: [create_directory],
    [extract_filename], [is_valid_image_url], [download_image] and [main].

    - Python strings are lists of Unicode code points; [split], [strip],
      [startswith] and the functions of [os.path] are written out as
      CPython has them.
    - What the program takes from libraries it does not contain (the
      Unicode tables, [urlparse], [unquote], [mimetypes]) is a parameter,
      [Lib]; what the outside does (the web, refusals of the operating
      system) is a parameter, [Env].
    - Console, filesystem, clock and the log of requests are threaded
      through an explicit [World]; an exception is a result of a small
      state-and-exception monad, and a [try] with its [except] clauses
      dispatches on the class of the exception, clause by clause in the
      order of the source.
    - The two loops ([while os.path.exists(...)], [while True]) take fuel;
      the first is proved to end within one test more than there are
      existing paths.

    The properties follow the definitions; the theorems named C1 to C10
    settle the claims of the specification. *)

From Stdlib Require Import Ascii String.
From Stdlib Require Import List NArith ZArith Lia Bool.
From Stdlib Require Import DecimalN.
From Stdlib Require FinFun.
Import ListNotations.

Set Implicit Arguments.

(** ** Python strings *)

(** A character is a Unicode code point, a [str] a list of them. *)
Definition char := N.
Definition str := list char.

(** The text of an ASCII literal of the source. *)
Definition lit (s : string) : str := map N_of_ascii (list_ascii_of_string s).

Definition quote_char : char := 34%N.
Definition apostrophe : char := 39%N.

Fixpoint str_eqb (a b : str) : bool :=
  match a, b with
  | [], [] => true
  | x :: a', y :: b' => (x =? y)%N && str_eqb a' b'
  | _, _ => false
  end.

(** [c in (x, y, ...)] on characters. *)
Definition char_in (c : char) (cs : str) : bool := existsb (N.eqb c) cs.

(** [s.startswith(p)]. *)
Fixpoint startswith (s p : str) : bool :=
  match p, s with
  | [], _ => true
  | c :: p', d :: s' => (c =? d)%N && startswith s' p'
  | _ :: _, [] => false
  end.

(** [s.endswith(p)]. *)
Definition endswith (s p : str) : bool := startswith (rev s) (rev p).

(** [sub in s]: [sub] occurs in [s] as a substring. *)
Fixpoint contains (sub s : str) : bool :=
  startswith s sub ||
  match s with
  | [] => false
  | _ :: s' => contains sub s'
  end.

(** [s.split(sep)] for a non-empty [sep]: the scan goes left to right, an
    occurrence of [sep] closes the current piece and its characters are
    skipped ([skip] counts those still to pass). *)
Fixpoint split_from (sep : str) (skip : nat) (cur : str) (s : str) : list str :=
  match s with
  | [] => [cur]
  | c :: s' =>
      match skip with
      | S k => split_from sep k cur s'
      | O =>
          if startswith s sep
          then cur :: split_from sep (length sep - 1) [] s'
          else split_from sep 0 (cur ++ [c]) s'
      end
  end.

Definition split (s sep : str) : list str := split_from sep 0 [] s.

(** [xs[i]]: a negative index counts from the end, an index out of range
    raises IndexError ([None]). *)
Definition py_index {A : Type} (xs : list A) (i : Z) : option A :=
  let n := Z.of_nat (length xs) in
  let j := if (i <? 0)%Z then (i + n)%Z else i in
  if ((0 <=? j) && (j <? n))%Z then nth_error xs (Z.to_nat j) else None.

(** [s.lstrip], [s.rstrip] and [s.strip] with the characters to remove
    given by a predicate. *)
Fixpoint lstrip_by (p : char -> bool) (s : str) : str :=
  match s with
  | [] => []
  | c :: s' => if p c then lstrip_by p s' else s
  end.

Definition rstrip_by (p : char -> bool) (s : str) : str :=
  rev (lstrip_by p (rev s)).

Definition strip_by (p : char -> bool) (s : str) : str :=
  rstrip_by p (lstrip_by p s).

(** [s.strip(chars)]. *)
Definition strip_chars (s chars : str) : str :=
  strip_by (fun c => char_in c chars) s.

(** [str(n)] for a non-negative integer: its decimal digits. *)
Fixpoint uint_chars (d : Decimal.uint) : str :=
  match d with
  | Decimal.Nil => []
  | Decimal.D0 d => 48%N :: uint_chars d
  | Decimal.D1 d => 49%N :: uint_chars d
  | Decimal.D2 d => 50%N :: uint_chars d
  | Decimal.D3 d => 51%N :: uint_chars d
  | Decimal.D4 d => 52%N :: uint_chars d
  | Decimal.D5 d => 53%N :: uint_chars d
  | Decimal.D6 d => 54%N :: uint_chars d
  | Decimal.D7 d => 55%N :: uint_chars d
  | Decimal.D8 d => 56%N :: uint_chars d
  | Decimal.D9 d => 57%N :: uint_chars d
  end.

Definition str_of_int (n : N) : str := uint_chars (N.to_uint n).

(** ** os.path (posixpath) *)

(** [os.path.join(a, b)]. *)
Definition path_join (a b : str) : str :=
  if startswith b (lit "/") then b
  else if match a with [] => true | _ => false end || endswith a (lit "/")
       then a ++ b
       else a ++ lit "/" ++ b.

(** [p.rfind(c)] for a one-character [c]: the last index of [c], or -1. *)
Fixpoint rfind_from (i : Z) (acc : Z) (p : str) (c : char) : Z :=
  match p with
  | [] => acc
  | d :: p' => rfind_from (i + 1) (if (d =? c)%N then i else acc) p' c
  end.

Definition rfind (p : str) (c : char) : Z := rfind_from 0 (-1) p c.

(** [p[i:j]] for indices within range. *)
Definition slice (p : str) (i j : nat) : str := firstn (j - i) (skipn i p).

(** The loop of [genericpath._splitext] that skips the leading dots of the
    last component: [n] positions, from [filenameIndex], are left before
    [dotIndex]. *)
Fixpoint splitext_scan (p : str) (filenameIndex n dotIndex : nat) : str * str :=
  match n with
  | O => (p, [])
  | S n' =>
      if negb (str_eqb (slice p filenameIndex (S filenameIndex)) (lit "."))
      then (firstn dotIndex p, skipn dotIndex p)
      else splitext_scan p (S filenameIndex) n' dotIndex
  end.

(** [os.path.splitext(p)]. *)
Definition splitext (p : str) : str * str :=
  let sepIndex := rfind p 47%N in
  let dotIndex := rfind p 46%N in
  if (dotIndex >? sepIndex)%Z
  then
    let filenameIndex := Z.to_nat (sepIndex + 1) in
    splitext_scan p filenameIndex (Z.to_nat dotIndex - filenameIndex)
      (Z.to_nat dotIndex)
  else (p, []).

(** ** The Python library the program calls

    The Unicode tables behind [str.isalnum], [str.isspace] and [str.lower],
    [urllib.parse], and [mimetypes] are not part of the program: they are
    taken as parameters.  [urlparse] raises ValueError on some strings (an
    unbalanced bracket in the host, for one); [unquote] and
    [guess_extension] are total, the latter returning [None] for a type it
    does not know. *)

Record ParseResult := {
  scheme : str;
  netloc : str;
  path : str;
  params : str;
  query : str;
  fragment : str
}.

Record Lib := {
  isalnum : char -> bool;
  isspace : char -> bool;
  lower : str -> str;
  urlparse : str -> str + ParseResult;
  unquote : str -> str;
  guess_extension : str -> option str
}.

(** What CPython's tables say on Latin-1: the code points below 256 for
    which [isalnum] and [isspace] hold, and [lower] on ASCII text. *)
Definition in_range (lo hi c : N) : bool := ((lo <=? c) && (c <=? hi))%N.

Definition ascii_alnum (c : char) : bool :=
  in_range 48 57 c || in_range 65 90 c || in_range 97 122 c.

Definition latin1_isalnum (c : char) : bool :=
  ascii_alnum c
  || char_in c [170; 178; 179; 181; 185; 186; 188; 189; 190]%N
  || in_range 192 214 c || in_range 216 246 c || in_range 248 255 c.

Definition latin1_isspace (c : char) : bool :=
  in_range 9 13 c || in_range 28 32 c || char_in c [133; 160]%N.

Definition ascii_lower (c : char) : char :=
  if in_range 65 90 c then (c + 32)%N else c.

Definition is_ascii (c : char) : bool := (c <? 128)%N.

Record cpython_tables (L : Lib) : Prop := {
  isalnum_latin1 : forall c, (c < 256)%N -> isalnum L c = latin1_isalnum c;
  isspace_latin1 : forall c, (c < 256)%N -> isspace L c = latin1_isspace c;
  lower_ascii :
    forall s, forallb is_ascii s = true -> lower L s = map ascii_lower s
}.

(** ** Exceptions

    The classes the program names or can meet, with their method resolution
    order: in [requests], [RequestException] derives from [IOError] (which
    is [OSError] in Python 3) and [HTTPError], [ConnectionError], [Timeout]
    and [TooManyRedirects] derive from [RequestException];
    [KeyboardInterrupt] is not an [Exception]. *)

Inductive exn_class :=
| BaseException | KeyboardInterrupt | Exception
| EOFError | ValueError | LookupError | IndexError
| OSError
| RequestException | HTTPError | ConnectionError | Timeout | TooManyRedirects.

Scheme Equality for exn_class.

Definition IOError : exn_class := OSError.

Definition mro (c : exn_class) : list exn_class :=
  match c with
  | BaseException => [BaseException]
  | KeyboardInterrupt => [KeyboardInterrupt; BaseException]
  | Exception => [Exception; BaseException]
  | EOFError => [EOFError; Exception; BaseException]
  | ValueError => [ValueError; Exception; BaseException]
  | LookupError => [LookupError; Exception; BaseException]
  | IndexError => [IndexError; LookupError; Exception; BaseException]
  | OSError => [OSError; Exception; BaseException]
  | RequestException => [RequestException; OSError; Exception; BaseException]
  | HTTPError =>
      [HTTPError; RequestException; OSError; Exception; BaseException]
  | ConnectionError =>
      [ConnectionError; RequestException; OSError; Exception; BaseException]
  | Timeout =>
      [Timeout; RequestException; OSError; Exception; BaseException]
  | TooManyRedirects =>
      [TooManyRedirects; RequestException; OSError; Exception; BaseException]
  end.

(** An exception value: its class and [str(e)]. *)
Record exn := { cls : exn_class; msg : str }.

Definition isinstance (e : exn) (c : exn_class) : bool :=
  existsb (exn_class_beq c) (mro (cls e)).

(** ** The world the program runs in *)

Record datetime := {
  year : N; month : N; day : N; hour : N; minute : N; second : N
}.

(** What the operator does at a prompt: types a line, or interrupts.  When
    the list is used up, standard input is at its end. *)
Inductive input_event :=
| Line (s : str)
| Interrupt.

(** A chunk delivered by [response.iter_content], or the failure that
    breaks the stream.  The body of a response is a finite list of these: a
    stream that never ends is not expressed. *)
Inductive chunk_event :=
| Chunk (data : list N)
| Broken (e : exn).

Record Response := {
  status_code : N;
  reason : str;
  final_url : str;
  headers : list (str * str);
  body : list chunk_event
}.

(** How the outside answers: what [requests.get] followed by the reading of
    the body meets for a URL (an exception, or a response), and the failure
    with which the operating system refuses to make a directory or to open
    a file for writing, if it does. *)
Record Env := {
  http_get : str -> exn + Response;
  makedirs_error : str -> option exn;
  open_error : str -> option exn
}.

(** [stdin]: what is still to be typed.  [stdout]: what was printed, one
    entry for each [print] and each prompt, oldest first.  [files] and
    [dirs]: the regular files, with their contents, and the directories
    that exist.  [requested]: the URLs passed to [requests.get] so far.
    [invoked]: the URLs [download_image] was called with so far (a log kept
    for the statements; the program does not read it).  [clock]: what the
    [n]-th reading of the local time gives; [clock_reads]: how many
    readings were made. *)
Record World := {
  stdin : list input_event;
  stdout : list str;
  files : list (str * list N);
  dirs : list str;
  requested : list str;
  invoked : list str;
  clock : nat -> datetime;
  clock_reads : nat
}.

Definition set_stdin (v : list input_event) (w : World) : World :=
  {| stdin := v; stdout := stdout w; files := files w; dirs := dirs w;
     requested := requested w; invoked := invoked w; clock := clock w;
     clock_reads := clock_reads w |}.

Definition set_stdout (v : list str) (w : World) : World :=
  {| stdin := stdin w; stdout := v; files := files w; dirs := dirs w;
     requested := requested w; invoked := invoked w; clock := clock w;
     clock_reads := clock_reads w |}.

Definition set_files (v : list (str * list N)) (w : World) : World :=
  {| stdin := stdin w; stdout := stdout w; files := v; dirs := dirs w;
     requested := requested w; invoked := invoked w; clock := clock w;
     clock_reads := clock_reads w |}.

Definition set_dirs (v : list str) (w : World) : World :=
  {| stdin := stdin w; stdout := stdout w; files := files w; dirs := v;
     requested := requested w; invoked := invoked w; clock := clock w;
     clock_reads := clock_reads w |}.

Definition set_requested (v : list str) (w : World) : World :=
  {| stdin := stdin w; stdout := stdout w; files := files w; dirs := dirs w;
     requested := v; invoked := invoked w; clock := clock w;
     clock_reads := clock_reads w |}.

Definition set_invoked (v : list str) (w : World) : World :=
  {| stdin := stdin w; stdout := stdout w; files := files w; dirs := dirs w;
     requested := requested w; invoked := v; clock := clock w;
     clock_reads := clock_reads w |}.

Definition set_clock_reads (v : nat) (w : World) : World :=
  {| stdin := stdin w; stdout := stdout w; files := files w; dirs := dirs w;
     requested := requested w; invoked := invoked w; clock := clock w;
     clock_reads := v |}.

(** ** The monad: state, exceptions, and a loop that does not end *)

Inductive result (A : Type) :=
| Ok (a : A)
| Raise (e : exn)
| Diverge.

Arguments Raise {A} e.
Arguments Diverge {A}.

Definition M (A : Type) := World -> result A * World.

Definition ret {A : Type} (a : A) : M A := fun w => (Ok a, w).

Definition raise {A : Type} (e : exn) : M A := fun w => (Raise e, w).

Definition bind {A B : Type} (m : M A) (k : A -> M B) : M B :=
  fun w =>
    match m w with
    | (Ok a, w') => k a w'
    | (Raise e, w') => (Raise e, w')
    | (Diverge, w') => (Diverge, w')
    end.

Notation "x <- c1 ;; c2" := (bind c1 (fun x => c2))
  (at level 61, c1 at next level, right associativity).
Notation "c1 ;; c2" := (bind c1 (fun _ => c2))
  (at level 61, right associativity).

(** The first clause of an [except] chain whose class the exception is an
    instance of handles it; with none, the exception goes on. *)
Fixpoint dispatch {A : Type} (clauses : list (exn_class * (exn -> M A)))
    (e : exn) : M A :=
  match clauses with
  | [] => raise e
  | (c, handler) :: rest =>
      if isinstance e c then handler e else dispatch rest e
  end.

Definition try_except {A : Type} (block : M A)
    (clauses : list (exn_class * (exn -> M A))) : M A :=
  fun w =>
    match block w with
    | (Raise e, w') => dispatch clauses e w'
    | r => r
    end.

(** [xs[i]] as a step of the program. *)
Definition index {A : Type} (xs : list A) (i : Z) : M A :=
  match py_index xs i with
  | Some a => ret a
  | None => raise {| cls := IndexError; msg := lit "list index out of range" |}
  end.

(** ** Console, clock and filesystem *)

Definition print (s : str) : M unit :=
  fun w => (Ok tt, set_stdout (stdout w ++ [s]) w).

(** [input(prompt)]: the prompt is written, then a line is read. *)
Definition input (prompt : str) : M str :=
  fun w =>
    let w1 := set_stdout (stdout w ++ [prompt]) w in
    match stdin w with
    | Line s :: rest => (Ok s, set_stdin rest w1)
    | Interrupt :: rest =>
        (Raise {| cls := KeyboardInterrupt; msg := [] |}, set_stdin rest w1)
    | [] =>
        (Raise {| cls := EOFError; msg := lit "EOF when reading a line" |}, w1)
    end.

(** [datetime.now()]. *)
Definition datetime_now : M datetime :=
  fun w =>
    (Ok (clock w (clock_reads w)), set_clock_reads (S (clock_reads w)) w).

(** A number printed with at least [width] digits, as [%02d] and the like. *)
Definition zero_padded (width : nat) (n : N) : str :=
  let s := str_of_int n in
  repeat 48%N (width - length s) ++ s.

(** [t.strftime("%Y%m%d_%H%M%S")]. *)
Definition strftime (t : datetime) : str :=
  zero_padded 4 (year t) ++ zero_padded 2 (month t) ++ zero_padded 2 (day t)
  ++ lit "_"
  ++ zero_padded 2 (hour t) ++ zero_padded 2 (minute t)
  ++ zero_padded 2 (second t).

(** The paths [os.path.exists] answers True for.  Paths are compared by
    their spelling: [.], [..] and symbolic links, which the operating
    system resolves, are not expressed. *)
Definition existing (w : World) : list str := map fst (files w) ++ dirs w.

Definition path_exists (w : World) (p : str) : bool :=
  existsb (str_eqb p) (existing w).

Fixpoint file_put (p : str) (data : list N) (fs : list (str * list N))
    : list (str * list N) :=
  match fs with
  | [] => [(p, data)]
  | (q, old) :: fs' =>
      if str_eqb p q then (q, data) :: fs' else (q, old) :: file_put p data fs'
  end.

Fixpoint file_get (p : str) (fs : list (str * list N)) : option (list N) :=
  match fs with
  | [] => None
  | (q, data) :: fs' => if str_eqb p q then Some data else file_get p fs'
  end.

(** ** The program *)

(** Symbols of the messages, by code point. *)
Definition check_mark : str := [0x2713]%N.
Definition ballot_x : str := [0x2717]%N.
Definition globe : str := [0x1F310]%N.
Definition warning_sign : str := [0x26A0; 0xFE0F]%N.
Definition inbox_tray : str := [0x1F4E5]%N.
Definition white_check_mark : str := [0x2705]%N.
Definition file_folder : str := [0x1F4C1]%N.
Definition cross_mark : str := [0x274C]%N.
Definition framed_picture : str := [0x1F5BC; 0xFE0F]%N.
Definition waving_hand : str := [0x1F44B]%N.
Definition newline : str := [10]%N.

Definition is_empty (s : str) : bool :=
  match s with [] => true | _ => false end.

Section Program.

Variable L : Lib.
Variable E : Env.

(** [os.makedirs(directory_name, exist_ok=True)]. *)
Definition makedirs (directory_name : str) : M unit :=
  fun w =>
    match makedirs_error E directory_name with
    | Some e => (Raise e, w)
    | None =>
        if existsb (str_eqb directory_name) (dirs w) then (Ok tt, w)
        else (Ok tt, set_dirs (dirs w ++ [directory_name]) w)
    end.

(** [open(p, 'wb')]: the file is created, or emptied if it was there.  A
    refusal comes from [Env] alone; that [open] follows a symbolic link, or
    needs the directory of [p], is not expressed. *)
Definition open_wb (p : str) : M unit :=
  fun w =>
    match open_error E p with
    | Some e => (Raise e, w)
    | None => (Ok tt, set_files (file_put p [] (files w)) w)
    end.

(** [file.write(chunk)] on the file opened at [p]. *)
Definition file_write (p : str) (chunk : list N) : M unit :=
  fun w =>
    match file_get p (files w) with
    | Some old => (Ok tt, set_files (file_put p (old ++ chunk) (files w)) w)
    | None => (Ok tt, set_files (file_put p chunk (files w)) w)
    end.

(** [os.path.getsize(p)]. *)
Definition getsize (p : str) : M N :=
  fun w =>
    match file_get p (files w) with
    | Some data => (Ok (N.of_nat (length data)), w)
    | None =>
        (Raise {| cls := OSError; msg := lit "No such file or directory" |}, w)
    end.

(** [requests.get(url, headers=..., timeout=30, stream=True)]. *)
Definition requests_get (url : str) : M Response :=
  fun w =>
    let w1 := set_requested (requested w ++ [url]) w in
    match http_get E url with
    | inl e => (Raise e, w1)
    | inr response => (Ok response, w1)
    end.

(** [response.raise_for_status()]: HTTPError for a 4xx or 5xx status. *)
Definition raise_for_status (response : Response) : M unit :=
  let http_error (kind : str) :=
    {| cls := HTTPError;
       msg := str_of_int (status_code response) ++ lit " " ++ kind
              ++ lit " Error: " ++ reason response ++ lit " for url: "
              ++ final_url response |} in
  if in_range 400 499 (status_code response)
  then raise (http_error (lit "Client"))
  else if in_range 500 599 (status_code response)
  then raise (http_error (lit "Server"))
  else ret tt.

(** [response.headers.get(name, default)]; the keys are held in lower case. *)
Fixpoint headers_get (hs : list (str * str)) (name default : str) : str :=
  match hs with
  | [] => default
  | (k, v) :: hs' => if str_eqb k name then v else headers_get hs' name default
  end.

(** [urlparse(url)] as a step of the program. *)
Definition urlparse_step (url : str) : M ParseResult :=
  match urlparse L url with
  | inl m => raise {| cls := ValueError; msg := m |}
  | inr parsed => ret parsed
  end.

(** lib.py, lines 14-22. *)
Definition create_directory (directory_name : str) : M bool :=
  try_except
    (makedirs directory_name ;;
     print (check_mark ++ lit " Directory '" ++ directory_name
            ++ lit "' is ready") ;;
     ret true)
    [(OSError, fun e =>
        print (ballot_x ++ lit " Error creating directory: " ++ msg e) ;;
        ret false)].

(** The name generated from the clock, lines 37-38. *)
Definition generated_name (t : datetime) : str :=
  lit "image_" ++ strftime t ++ lit ".jpg".

(** lib.py, lines 24-38. *)
Definition extract_filename (url : str) : M str :=
  parsed_url <- urlparse_step url ;;
  let path := unquote L (path parsed_url) in
  found <-
    (if negb (is_empty path) && contains (lit "/") path
     then
       filename <- index (split path (lit "/")) (-1) ;;
       if negb (is_empty filename) && contains (lit ".") filename
       then ret (Some filename)
       else ret None
     else ret None) ;;
  match found with
  | Some filename => ret filename
  | None =>
      timestamp <- datetime_now ;;
      ret (generated_name timestamp)
  end.

(** The filename taken from the headers or the URL, lines 70-83. *)
Definition candidate_filename (url content_type content_disposition : str)
    : M str :=
  if contains (lit "filename=") content_disposition
  then
    last_part <- index (split content_disposition (lit "filename=")) (-1) ;;
    ret (strip_chars last_part [quote_char; apostrophe])
  else
    filename <- extract_filename url ;;
    mime <- index (split content_type (lit ";")) 0 ;;
    match guess_extension L mime with
    | Some ext =>
        if negb (is_empty ext) && negb (endswith filename ext)
        then
          if contains (lit ".") filename
          then
            stem <- index (split filename (lit ".")) 0 ;;
            ret (stem ++ ext)
          else ret (filename ++ ext)
        else ret filename
    | None => ret filename
    end.

(** Line 86: the characters kept, then [rstrip()]. *)
Definition sanitize (filename : str) : str :=
  rstrip_by (isspace L)
    (filter (fun c => isalnum L c || char_in c [32; 45; 95; 46]%N) filename).

(** Lines 69-88: the filename the download is saved under. *)
Definition resolve_filename (url content_type content_disposition : str)
    : M str :=
  filename <- candidate_filename url content_type content_disposition ;;
  let filename := sanitize filename in
  if is_empty filename
  then
    t <- datetime_now ;;
    ret (lit "image_" ++ strftime t)
  else ret filename.

(** Lines 96-98: the loop that looks for an unused path.  [fuel] bounds the
    number of tests of the condition; [None] when it is used up. *)
Fixpoint free_path (fuel : nat) (taken : str -> bool)
    (base_name extension save_path : str) (counter : N) : option str :=
  match fuel with
  | O => None
  | S fuel' =>
      if taken save_path
      then free_path fuel' taken base_name extension
             (base_name ++ lit "_" ++ str_of_int counter ++ extension)
             (counter + 1)%N
      else Some save_path
  end.

(** Lines 93-98 on a set of existing paths. *)
Definition unique_path (fuel : nat) (present : list str) (save_path : str)
    : option str :=
  let counter := 1%N in
  let '(base_name, extension) := splitext save_path in
  free_path fuel (fun p => existsb (str_eqb p) present)
    base_name extension save_path counter.

(** The same in the world: one test more than there are paths always
    suffices (lemma [unique_path_first_free]), so [Diverge] never shows. *)
Definition unique_save_path (save_path : str) : M str :=
  fun w =>
    match unique_path (S (length (existing w))) (existing w) save_path with
    | Some p => (Ok p, w)
    | None => (Diverge, w)
    end.

(** Lines 102-105: the chunks are written as they come, empty ones skipped. *)
Fixpoint write_chunks (p : str) (chunks : list chunk_event) : M unit :=
  match chunks with
  | [] => ret tt
  | Chunk data :: rest =>
      (if negb (match data with [] => true | _ => false end)
       then file_write p data else ret tt) ;;
      write_chunks p rest
  | Broken e :: _ => raise e
  end.

(** lib.py, lines 40-43 (the program never calls it). *)
Definition is_valid_image_url (url : str) : bool :=
  let image_extensions :=
    [lit ".jpg"; lit ".jpeg"; lit ".png"; lit ".gif"; lit ".bmp";
     lit ".webp"; lit ".tiff"] in
  existsb (fun ext => endswith (lower L url) ext) image_extensions.

(** Lines 59-67: [true] when the download goes on. *)
Definition confirm_content_type (content_type : str) : M bool :=
  if negb (startswith content_type (lit "image/"))
  then
    print
      (warning_sign
       ++ lit "  Warning: The URL doesn't seem to point to an image file") ;;
    answer <- input (lit "Do you want to continue anyway? (y/N): ") ;;
    let confirm := lower L answer in
    if negb (str_eqb confirm (lit "y"))
    then print (lit "Download cancelled.") ;; ret false
    else ret true
  else ret true.

(** Lines 69-110: the name is resolved, a free path found, the body
    written and the result reported. *)
Definition save_response (url save_directory content_type : str)
    (response : Response) : M bool :=
  let content_disposition :=
    headers_get (headers response) (lit "content-disposition") [] in
  filename <- resolve_filename url content_type content_disposition ;;
  let save_path := path_join save_directory filename in
  save_path <- unique_save_path save_path ;;
  print (inbox_tray ++ lit " Downloading: " ++ filename) ;;
  open_wb save_path ;;
  write_chunks save_path (body response) ;;
  file_size <- getsize save_path ;;
  print (white_check_mark ++ lit " Successfully saved: " ++ filename
         ++ lit " (" ++ str_of_int file_size ++ lit " bytes)") ;;
  print (file_folder ++ lit " Location: " ++ save_path) ;;
  ret true.

(** Lines 47-110: the body of the [try]. *)
Definition download_image_try (url save_directory : str) : M bool :=
  parsed <- urlparse_step url ;;
  print (globe ++ lit " Connecting to " ++ netloc parsed ++ lit "...") ;;
  response <- requests_get url ;;
  raise_for_status response ;;
  let content_type := headers_get (headers response) (lit "content-type") [] in
  go_on <- confirm_content_type content_type ;;
  if negb go_on then ret false
  else save_response url save_directory content_type response.

(** Lines 112-123: the [except] clauses, in the order of the source. *)
Definition download_image_handlers : list (exn_class * (exn -> M bool)) :=
  [ (RequestException, fun e =>
       print (cross_mark ++ lit " Network error: " ++ msg e) ;; ret false);
    (HTTPError, fun e =>
       print (cross_mark ++ lit " HTTP error: " ++ msg e) ;; ret false);
    (Timeout, fun _ =>
       print (cross_mark ++ lit " Request timed out") ;; ret false);
    (TooManyRedirects, fun _ =>
       print (cross_mark ++ lit " Too many redirects") ;; ret false);
    (IOError, fun e =>
       print (cross_mark ++ lit " File system error: " ++ msg e) ;; ret false);
    (Exception, fun e =>
       print (cross_mark ++ lit " Unexpected error: " ++ msg e) ;; ret false) ].

(** lib.py, lines 45-125.  The call is recorded in [invoked]. *)
Definition download_image (url save_directory : str) : M bool :=
  fun w =>
    try_except (download_image_try url save_directory)
      download_image_handlers (set_invoked (invoked w ++ [url]) w).

(** ** The interactive loop, lines 127-169 *)

Definition banner : list str :=
  [ repeat 61%N 50;
    framed_picture ++ lit "  Image Fetcher - Ubuntu Principles Edition";
    repeat 61%N 50;
    lit "Community: Connecting to the wider web";
    lit "Respect:   Graceful error handling";
    lit "Sharing:   Organized image collection";
    lit "Practicality: Real-world utility";
    repeat 61%N 50 ].

Fixpoint print_all (lines : list str) : M unit :=
  match lines with
  | [] => ret tt
  | l :: rest => print l ;; print_all rest
  end.

Definition directory_name : str := lit "Fetched_Images".

Definition separator : str := newline ++ repeat 45%N 30.
Definition url_prompt : str := lit "Enter image URL (or 'quit' to exit): ".
Definition goodbye : str :=
  waving_hand ++ lit " Thank you for using Image Fetcher!".
Definition warn_empty : str :=
  warning_sign ++ lit "  Please enter a valid URL".
Definition warn_scheme : str :=
  warning_sign ++ lit "  URL must start with http:// or https://".
Definition interrupted : str :=
  newline ++ newline ++ waving_hand
  ++ lit " Operation cancelled by user. Goodbye!".

(** How one pass through the body of [while True] ends. *)
Inductive control := Break | Continue.

(** [url.startswith(('http://', 'https://'))]. *)
Definition has_http_scheme (url : str) : bool :=
  startswith url (lit "http://") || startswith url (lit "https://").

(** [url.lower() in ['quit', 'exit', 'q']]. *)
Definition is_quit (url : str) : bool :=
  existsb (str_eqb (lower L url)) [lit "quit"; lit "exit"; lit "q"].

(** Lines 144-169: one pass through the body of the loop. *)
Definition main_iteration : M control :=
  print separator ;;
  try_except
    (line <- input url_prompt ;;
     let url := strip_by (isspace L) line in
     if is_quit url then print goodbye ;; ret Break
     else if is_empty url then print warn_empty ;; ret Continue
     else if negb (has_http_scheme url) then print warn_scheme ;; ret Continue
     else download_image url directory_name ;; ret Continue)
    [ (KeyboardInterrupt, fun _ => print interrupted ;; ret Break);
      (Exception, fun e =>
         print (cross_mark ++ lit " Unexpected error in main loop: "
                ++ msg e) ;;
         ret Continue) ].

(** [while True]: at most [fuel] passes. *)
Fixpoint main_loop (fuel : nat) : M unit :=
  match fuel with
  | O => fun w => (Diverge, w)
  | S fuel' =>
      c <- main_iteration ;;
      match c with
      | Break => ret tt
      | Continue => main_loop fuel'
      end
  end.

(** lib.py, lines 127-169. *)
Definition main (fuel : nat) : M unit :=
  print_all banner ;;
  ready <- create_directory directory_name ;;
  if negb ready then ret tt else main_loop fuel.

End Program.

(** ** Vocabulary of the statements *)

(** [s] up to its first [c], and [s] from its first [c] on. *)
Fixpoint take_until (c : char) (s : str) : str :=
  match s with
  | [] => []
  | d :: s' => if (d =? c)%N then [] else d :: take_until c s'
  end.

Fixpoint drop_until (c : char) (s : str) : str :=
  match s with
  | [] => []
  | d :: s' => if (d =? c)%N then s else drop_until c s'
  end.

(** [sep] has a border: a proper, non-empty prefix that is also a suffix. *)
Definition has_border (sep : str) : bool :=
  existsb (fun k => str_eqb (firstn k sep) (skipn (length sep - k) sep))
    (seq 1 (length sep - 1)).

(** The paths the collision loop tries for [save_path], in order: the path
    itself, then the path with [_1], [_2], ... before its extension. *)
Definition attempt (save_path : str) (n : N) : str :=
  if (n =? 0)%N then save_path
  else fst (splitext save_path) ++ lit "_" ++ str_of_int n
       ++ snd (splitext save_path).

(** The character set the specification names: [A-Za-z0-9 ._-]. *)
Definition spec_char (c : char) : bool :=
  ascii_alnum c || char_in c [32; 46; 95; 45]%N.

(** The characters line 86 keeps. *)
Definition kept (L : Lib) (c : char) : bool :=
  isalnum L c || char_in c [32; 45; 95; 46]%N.

(** A text of Latin-1 letters, digits and the four marks that does not end
    in white space: decided without the library. *)
Definition latin1_clean (s : str) : bool :=
  forallb (fun c => (c <? 256)%N
                    && (latin1_isalnum c || char_in c [32; 45; 95; 46]%N)) s
  && match rev s with
     | [] => true
     | c :: _ => (c <? 256)%N && negb (latin1_isspace c)
     end.

(** What lines 78-83 make of the name taken from the URL. *)
Definition adjust_extension (L : Lib) (content_type filename : str) : str :=
  match guess_extension L (hd [] (split content_type (lit ";"))) with
  | Some ext =>
      if negb (is_empty ext) && negb (endswith filename ext)
      then
        if contains (lit ".") filename
        then take_until 46%N filename ++ ext
        else filename ++ ext
      else filename
  | None => filename
  end.

(** The fields of a [datetime] are within their ranges, the year being one
    of four digits (for an earlier year the C library decides whether [%Y]
    pads it). *)
Definition valid_datetime (t : datetime) : bool :=
  (in_range 1000 9999 (year t) && in_range 1 12 (month t)
   && in_range 1 31 (day t) && in_range 0 23 (hour t)
   && in_range 0 59 (minute t) && in_range 0 59 (second t))%bool.

Definition is_digit (c : char) : bool := in_range 48 57 c.

(** [image_<8 digits>_<6 digits>.jpg]: the fourteen digits of a timestamp,
    the date and the time of day set apart by an underscore. *)
Definition is_generated_name (s : str) : bool :=
  str_eqb (firstn 6 s) (lit "image_")
  && forallb is_digit (slice s 6 14) && (length (slice s 6 14) =? 8)%nat
  && str_eqb (slice s 14 15) (lit "_")
  && forallb is_digit (slice s 15 21) && (length (slice s 15 21) =? 6)%nat
  && str_eqb (skipn 21 s) (lit ".jpg").

(** The [width] decimal digits of [n], the most significant first: the
    number as it stands in a field of a timestamp, with its leading
    zeros. *)
Fixpoint decimal_field (width : nat) (n : N) : str :=
  match width with
  | O => []
  | S k => decimal_field k (n / 10) ++ [(48 + n mod 10)%N]
  end.

(** The timestamp of the specification, YYYYMMDD_HHMMSS, read off a
    reading of the clock field by field: four digits of the year, two each
    of the month and the day, an underscore, two each of the hour, the
    minute and the second. *)
Definition timestamp_of (t : datetime) : str :=
  decimal_field 4 (year t) ++ decimal_field 2 (month t)
  ++ decimal_field 2 (day t) ++ lit "_"
  ++ decimal_field 2 (hour t) ++ decimal_field 2 (minute t)
  ++ decimal_field 2 (second t).

(** A world that differs from [w] by readings of the clock at most. *)
Definition same_but_clock (w w' : World) : Prop :=
  exists n, w' = set_clock_reads n w.

(** The line [download_image] prints for an exception its [except] clauses
    handle. *)
Definition failure_message (e : exn) : str :=
  cross_mark
  ++ (if isinstance e RequestException then lit " Network error: " ++ msg e
      else if isinstance e IOError then lit " File system error: " ++ msg e
      else lit " Unexpected error: " ++ msg e).

Definition content_warning : str :=
  warning_sign
  ++ lit "  Warning: The URL doesn't seem to point to an image file".

Definition confirm_prompt : str :=
  lit "Do you want to continue anyway? (y/N): ".

(** The world once the download got its response: the call is recorded,
    the connection announced, the request made. *)
Definition connected (url : str) (parsed : ParseResult) (w : World) : World :=
  set_requested (requested w ++ [url])
    (set_stdout
       (stdout w ++ [globe ++ lit " Connecting to " ++ netloc parsed
                     ++ lit "..."])
       (set_invoked (invoked w ++ [url]) w)).

(** The world once the operator was warned and asked, and has answered. *)
Definition asked (rest : list input_event) (w : World) : World :=
  set_stdin rest (set_stdout (stdout w ++ [content_warning; confirm_prompt]) w).

(** The world once the operator has declined. *)
Definition cancelled (w : World) : World :=
  set_stdout (stdout w ++ [lit "Download cancelled."]) w.

(** The world after one pass of the loop that read a line and answered it
    with one message: separator, prompt and message are printed, the line
    is consumed, nothing else has changed. *)
Definition answered (rest : list input_event) (message : str) (w : World)
    : World :=
  set_stdin rest
    (set_stdout (stdout w ++ [separator; url_prompt; message]) w).

(** The world when the loop is entered: the banner and the line of
    [create_directory] are printed, the directory is there. *)
Definition started (w : World) : World :=
  set_dirs
    (if existsb (str_eqb directory_name) (dirs w) then dirs w
     else dirs w ++ [directory_name])
    (set_stdout
       (stdout w ++ banner
        ++ [check_mark ++ lit " Directory '" ++ directory_name
            ++ lit "' is ready"])
       w).

(** Every run of [m] takes a world to one related to it by [R], however the
    run ends. *)
Definition preserves {A : Type} (R : World -> World -> Prop) (m : M A)
    : Prop :=
  forall w r w', m w = (r, w') -> R w w'.

(** Files and directories are as they were. *)
Definition disk_kept (w w' : World) : Prop :=
  files w' = files w /\ dirs w' = dirs w.

(** No file but [p] has changed, and no directory. *)
Definition only_touches (p : str) (w w' : World) : Prop :=
  (forall q, q <> p -> file_get q (files w') = file_get q (files w)) /\
  dirs w' = dirs w.

(** What a download may do to the disk: nothing, or touch one path that did
    not exist. *)
Definition writes_fresh (w w' : World) : Prop :=
  disk_kept w w' \/
  exists p, path_exists w p = false /\ only_touches p w w'.

(** A URL the loop passes on: not empty, and with an http or https scheme. *)
Definition valid_url (url : str) : bool :=
  negb (is_empty url) && has_http_scheme url.

(** The log [proj] has grown by valid URLs only. *)
Definition extends_by (proj : World -> list str) (w w' : World) : Prop :=
  exists new, proj w' = proj w ++ new /\ forallb valid_url new = true.

(** Calls of [download_image] and requests made since [w]: for valid URLs
    only. *)
Definition fetches_valid (w w' : World) : Prop :=
  extends_by invoked w w' /\ extends_by requested w w'.

(** The extensions [is_valid_image_url] looks for, line 42. *)
Definition image_extensions : list str :=
  [lit ".jpg"; lit ".jpeg"; lit ".png"; lit ".gif"; lit ".bmp"; lit ".webp";
   lit ".tiff"].

(** What [write_chunks] has written when it stops: the data of the chunks
    that came before the stream broke, if it did. *)
Fixpoint received (chunks : list chunk_event) : list N :=
  match chunks with
  | Chunk data :: rest => data ++ received rest
  | _ => []
  end.

(** The failure that breaks the stream, if one does. *)
Fixpoint first_broken (chunks : list chunk_event) : option exn :=
  match chunks with
  | [] => None
  | Chunk _ :: rest => first_broken rest
  | Broken e :: _ => Some e
  end.

(** The world once the name is resolved and announced. *)
Definition announced (filename : str) (w : World) : World :=
  set_stdout (stdout w ++ [inbox_tray ++ lit " Downloading: " ++ filename]) w.

(** The two lines of a download that succeeded. *)
Definition success_report (filename save_path : str) (size : nat)
    : list str :=
  [white_check_mark ++ lit " Successfully saved: " ++ filename
   ++ lit " (" ++ str_of_int (N.of_nat size) ++ lit " bytes)";
   file_folder ++ lit " Location: " ++ save_path].

(** The check of lines 59-67 lets the download go on from [w], leaving
    [w0]: the content-type starts with image/ and nothing is done; or it
    does not, the operator is warned and asked, and the answer, lowercased,
    is y. *)
Definition goes_on (L : Lib) (content_type : str) (w w0 : World) : Prop :=
  (startswith content_type (lit "image/") = true /\ w0 = w) \/
  (startswith content_type (lit "image/") = false /\
   exists answer rest,
     stdin w = Line answer :: rest /\ lower L answer = lit "y" /\
     w0 = asked rest w).

(** [str(e)] of the HTTPError that [raise_for_status] raises. *)
Definition status_message (response : Response) : str :=
  str_of_int (status_code response) ++ lit " "
  ++ (if in_range 400 499 (status_code response)
      then lit "Client" else lit "Server")
  ++ lit " Error: " ++ reason response ++ lit " for url: "
  ++ final_url response.

(** No run of [m] in the model is cut short by the fuel of a loop.  (The
    body of a response is a finite list of chunks here: a stream that never
    ends is not expressed, so this says nothing of how long lines 103-105
    take.) *)
Definition returns {A : Type} (m : M A) : Prop :=
  forall w, fst (m w) <> Diverge.

(** The [except] clauses of the loop, lines 165-169. *)
Definition main_handlers : list (exn_class * (exn -> M control)) :=
  [ (KeyboardInterrupt, fun _ => print interrupted ;; ret Break);
    (Exception, fun e =>
       print (cross_mark ++ lit " Unexpected error in main loop: "
              ++ msg e) ;;
       ret Continue) ].

(** Input is only ever consumed: what is left to type in [w'] is what was
    left in [w], less the events read in between. *)
Definition consumes (w w' : World) : Prop :=
  exists used, stdin w = used ++ stdin w'.

(** The two logs are as they were. *)
Definition logs_kept (w w' : World) : Prop :=
  requested w' = requested w /\ invoked w' = invoked w.

(** [os.path.join(d, '')]: the directory, with the slash that a name is
    appended to. *)
Definition dir_prefix (d : str) : str :=
  if is_empty d || endswith d (lit "/") then d else d ++ lit "/".

(** What a run of the program may do to the disk: a file that was there
    keeps its contents, every directory stays, and no directory but
    [Fetched_Images] is added. *)
Definition disk_safe (w w' : World) : Prop :=
  (forall q data,
      file_get q (files w) = Some data -> file_get q (files w') = Some data) /\
  (forall q, In q (dirs w) -> In q (dirs w')) /\
  (forall q, In q (dirs w') -> In q (dirs w) \/ q = directory_name).

(** ** A reference instance of the library, and data for the examples

    [ref_lib] follows CPython on the inputs of the examples below: the
    Unicode tables on Latin-1 (nothing beyond is alphanumeric or white space
    in it, and [lower] touches ASCII letters only), [urlparse] on URLs of
    the plain shape [http://host/path] and on relative paths, with the
    ValueError for an unbalanced bracket in the host, [unquote] on text
    without a percent sign, and [guess_extension] on four common types. *)

Definition plain_urlparse (url : str) : str + ParseResult :=
  let with_scheme (sch rest : str) :=
    let host := take_until 47%N rest in
    if xorb (char_in 91%N host) (char_in 93%N host)
    then inl (lit "Invalid IPv6 URL")
    else inr {| scheme := sch; netloc := host; path := drop_until 47%N rest;
                params := []; query := []; fragment := [] |} in
  if startswith url (lit "http://") then with_scheme (lit "http") (skipn 7 url)
  else if startswith url (lit "https://")
  then with_scheme (lit "https") (skipn 8 url)
  else inr {| scheme := []; netloc := []; path := url;
              params := []; query := []; fragment := [] |}.

Definition common_types (mime : str) : option str :=
  if str_eqb mime (lit "image/png") then Some (lit ".png")
  else if str_eqb mime (lit "image/jpeg") then Some (lit ".jpg")
  else if str_eqb mime (lit "image/gif") then Some (lit ".gif")
  else if str_eqb mime (lit "text/html") then Some (lit ".html")
  else None.

Definition ref_lib : Lib :=
  {| isalnum := latin1_isalnum;
     isspace := latin1_isspace;
     lower := map ascii_lower;
     urlparse := plain_urlparse;
     unquote := fun s => s;
     guess_extension := common_types |}.

(** A world in which nothing was typed, printed, stored or requested yet,
    with a clock that reads 15 January 2024, 10:30:00. *)
Definition quiet_world : World :=
  {| stdin := []; stdout := []; files := []; dirs := [];
     requested := []; invoked := [];
     clock := fun _ => {| year := 2024; month := 1; day := 15;
                          hour := 10; minute := 30; second := 0 |};
     clock_reads := 0 |}.

Definition with_input (events : list input_event) : World :=
  set_stdin events quiet_world.

(** The same world with another clock: its first reading gives
    31 December 1999, 23:59:59, the later ones 9 February 2031, 04:05:06. *)
Definition late_world : World :=
  {| stdin := []; stdout := []; files := []; dirs := [];
     requested := []; invoked := [];
     clock := fun n =>
       match n with
       | O => {| year := 1999; month := 12; day := 31;
                 hour := 23; minute := 59; second := 59 |}
       | S _ => {| year := 2031; month := 2; day := 9;
                   hour := 4; minute := 5; second := 6 |}
       end;
     clock_reads := 0 |}.

(** Environments in which every request ends the same way and the
    operating system refuses nothing. *)
Definition env_of (answer : exn + Response) : Env :=
  {| http_get := fun _ => answer;
     makedirs_error := fun _ => None;
     open_error := fun _ => None |}.

Definition timed_out : exn :=
  {| cls := Timeout; msg := lit "Read timed out. (read timeout=30)" |}.

Definition not_found : Response :=
  {| status_code := 404; reason := lit "Not Found";
     final_url := lit "http://example.com/cat.png";
     headers := [(lit "content-type", lit "text/html")];
     body := [] |}.

Definition html_page : Response :=
  {| status_code := 200; reason := lit "OK";
     final_url := lit "http://example.com/page";
     headers := [(lit "content-type", lit "text/html")];
     body := [Chunk [60; 112; 62]%N] |}.

Definition cat_png : Response :=
  {| status_code := 200; reason := lit "OK";
     final_url := lit "http://example.com/pics/cat.png";
     headers := [(lit "content-type", lit "image/png")];
     body := [Chunk [137; 80; 78; 71]%N; Chunk []; Chunk [13; 10]%N] |}.

Definition page_url : str := lit "http://example.com/page".

Definition page_parsed : ParseResult :=
  {| scheme := lit "http"; netloc := lit "example.com"; path := lit "/page";
     params := []; query := []; fragment := [] |}.

(** A disk on which no directory can be made. *)
Definition permission_denied : exn :=
  {| cls := OSError;
     msg := lit "[Errno 13] Permission denied: 'Fetched_Images'" |}.

Definition read_only_disk : Env :=
  {| http_get := fun _ => inr cat_png;
     makedirs_error := fun _ => Some permission_denied;
     open_error := fun _ => Some permission_denied |}.

Definition read_timed_out : exn :=
  {| cls := ConnectionError; msg := lit "Read timed out." |}.

(** A page, no image, whose stream breaks after the first chunk. *)
Definition torn_page : Response :=
  {| status_code := 200; reason := lit "OK";
     final_url := lit "http://example.com/page";
     headers := [(lit "content-type", lit "text/html")];
     body := [Chunk [60; 112; 62]%N; Broken read_timed_out;
              Chunk [60; 47; 112; 62]%N] |}.

(** A disk with the directory in place on which no file can be opened for
    writing. *)
Definition no_space_left : exn :=
  {| cls := OSError; msg := lit "[Errno 28] No space left on device" |}.

Definition full_disk : Env :=
  {| http_get := fun _ => inr cat_png;
     makedirs_error := fun _ => None;
     open_error := fun _ => Some no_space_left |}.

(** A response that says nothing of its type. *)
Definition untyped_page : Response :=
  {| status_code := 200; reason := lit "OK";
     final_url := lit "http://example.com/page";
     headers := [(lit "content-length", lit "3")];
     body := [Chunk [60; 112; 62]%N] |}.

(** * Properties *)

(** ** Strings *)

Lemma str_eqb_eq (a b : str) : str_eqb a b = true <-> a = b.
Proof.
  revert b; induction a as [|x a IH]; destruct b as [|y b]; simpl;
    try (split; (reflexivity || discriminate)).
  rewrite andb_true_iff, N.eqb_eq, IH.
  split; [intros [-> ->]; reflexivity | intros H; inversion H; auto].
Qed.

Lemma str_eqb_refl (a : str) : str_eqb a a = true.
Proof. apply str_eqb_eq; reflexivity. Qed.

Lemma str_eqb_neq (a b : str) : str_eqb a b = false <-> a <> b.
Proof.
  rewrite <- str_eqb_eq. destruct (str_eqb a b); split; congruence.
Qed.

Lemma mem_In (p : str) (l : list str) :
  existsb (str_eqb p) l = true <-> In p l.
Proof.
  rewrite existsb_exists; split.
  - intros [x [Hx He]]. apply str_eqb_eq in He; subst; exact Hx.
  - intros H; exists p; split; [exact H | apply str_eqb_refl].
Qed.

Lemma startswith_iff (s p : str) :
  startswith s p = true <-> exists t, s = p ++ t.
Proof.
  revert s; induction p as [|c p IH]; intros [|d s]; simpl.
  - split; [intros _; exists []; reflexivity | reflexivity].
  - split; [intros _; exists (d :: s); reflexivity | reflexivity].
  - split; [discriminate | intros [t Ht]; discriminate].
  - rewrite andb_true_iff, N.eqb_eq, IH. split.
    + intros [-> [t ->]]; exists t; reflexivity.
    + intros [t Ht]; inversion Ht; subst; split;
        [reflexivity | exists t; reflexivity].
Qed.

Lemma startswith_app (p t : str) : startswith (p ++ t) p = true.
Proof. apply startswith_iff; exists t; reflexivity. Qed.

Lemma endswith_iff (s p : str) :
  endswith s p = true <-> exists t, s = t ++ p.
Proof.
  unfold endswith. rewrite startswith_iff. split.
  - intros [t Ht]. exists (rev t).
    rewrite <- (rev_involutive s), Ht, rev_app_distr, rev_involutive.
    reflexivity.
  - intros [t ->]. exists (rev t). apply rev_app_distr.
Qed.

Lemma endswith_app (t p : str) : endswith (t ++ p) p = true.
Proof. apply endswith_iff; exists t; reflexivity. Qed.

Lemma contains_iff (sub s : str) :
  contains sub s = true <-> exists a b, s = a ++ sub ++ b.
Proof.
  induction s as [|c s IH].
  - cbn [contains]. rewrite orb_false_r, startswith_iff. split.
    + intros [t Ht]. exists [], t. exact Ht.
    + intros [a [b Hab]]. destruct a; [exists b; exact Hab | discriminate].
  - cbn [contains]. rewrite orb_true_iff, startswith_iff, IH. split.
    + intros [[t Ht] | [a [b Hab]]].
      * exists [], t; exact Ht.
      * exists (c :: a), b; rewrite Hab; reflexivity.
    + intros [a [b Hab]]. destruct a as [|x a].
      * left; exists b; exact Hab.
      * right; exists a, b. inversion Hab; reflexivity.
Qed.

(** Decimal numerals determine the number. *)
Lemma uint_chars_inj (d d' : Decimal.uint) :
  uint_chars d = uint_chars d' -> d = d'.
Proof.
  revert d'; induction d; destruct d'; simpl; intros H;
    try reflexivity; try discriminate;
    injection H as H; f_equal; apply IHd; exact H.
Qed.

Lemma str_of_int_inj (n m : N) : str_of_int n = str_of_int m -> n = m.
Proof.
  unfold str_of_int; intros H.
  apply DecimalN.Unsigned.to_uint_inj, uint_chars_inj, H.
Qed.

(** ** os.path.splitext *)

Lemma splitext_scan_app (p : str) (n i d : nat) :
  fst (splitext_scan p i n d) ++ snd (splitext_scan p i n d) = p.
Proof.
  revert i; induction n as [|n IH]; intros i; simpl.
  - apply app_nil_r.
  - destruct (negb _); [apply firstn_skipn | apply IH].
Qed.

Lemma splitext_app (p : str) : fst (splitext p) ++ snd (splitext p) = p.
Proof.
  unfold splitext. destruct (_ >? _)%Z.
  - apply splitext_scan_app.
  - apply app_nil_r.
Qed.

(** ** The collision loop *)

Section Collision.

Variable taken : str -> bool.
Variables base_name extension save_path : str.
Hypothesis split_ok : base_name ++ extension = save_path.

(** What the loop tests at its [n]-th turn. *)
Let tried (n : N) : str :=
  if (n =? 0)%N then save_path
  else base_name ++ lit "_" ++ str_of_int n ++ extension.

Lemma tried_succ (j : N) :
  base_name ++ lit "_" ++ str_of_int (j + 1) ++ extension = tried (j + 1).
Proof.
  unfold tried. destruct (N.eqb_spec (j + 1) 0); [lia | reflexivity].
Qed.

Lemma tried_inj (j k : N) : tried j = tried k -> j = k.
Proof.
  unfold tried.
  destruct (N.eqb_spec j 0) as [-> | Hj], (N.eqb_spec k 0) as [-> | Hk];
    intros H; try reflexivity.
  - exfalso. rewrite <- split_ok in H. apply app_inv_head in H.
    apply (f_equal (@length char)) in H. rewrite !length_app in H.
    simpl in H; lia.
  - exfalso. rewrite <- split_ok in H. apply app_inv_head in H.
    apply (f_equal (@length char)) in H. rewrite !length_app in H.
    simpl in H; lia.
  - apply app_inv_head in H. apply app_inv_head in H.
    apply app_inv_tail in H. apply str_of_int_inj in H. exact H.
Qed.

Lemma free_path_sound (fuel : nat) : forall (j : N) (p : str),
  free_path fuel taken base_name extension (tried j) (j + 1) = Some p ->
  exists n : N,
    (j <= n)%N /\ (N.to_nat n < N.to_nat j + fuel)%nat /\ p = tried n /\
    taken (tried n) = false /\
    (forall k, (j <= k < n)%N -> taken (tried k) = true).
Proof.
  induction fuel as [|fuel IH]; intros j p; cbn [free_path]; [discriminate |].
  destruct (taken (tried j)) eqn:Hj.
  - rewrite tried_succ. intros H. apply IH in H.
    destruct H as [n [Hle [Hlt [Hp [Hfree Hbelow]]]]].
    exists n. repeat split; try assumption; try lia.
    intros k Hk. destruct (N.eq_dec k j) as [-> | Hne]; [exact Hj |].
    apply Hbelow; lia.
  - intros H; injection H as <-. exists j.
    repeat split; try assumption; try lia.
Qed.

Lemma free_path_complete (fuel : nat) : forall (j n : N),
  (j <= n)%N -> (N.to_nat n < N.to_nat j + fuel)%nat ->
  taken (tried n) = false ->
  exists p, free_path fuel taken base_name extension (tried j) (j + 1) = Some p.
Proof.
  induction fuel as [|fuel IH]; intros j n Hle Hlt Hfree; cbn [free_path];
    [lia |].
  destruct (taken (tried j)) eqn:Hj.
  - rewrite tried_succ. apply (IH (j + 1)%N n); try assumption; try lia.
    destruct (N.eq_dec j n) as [-> | Hne]; [congruence | lia].
  - eexists; reflexivity.
Qed.

(** The first free path is what the loop returns, with any fuel above its
    index. *)
Lemma free_path_least (n : N) :
  taken (tried n) = false ->
  (forall k, (k < n)%N -> taken (tried k) = true) ->
  forall fuel, (N.to_nat n < fuel)%nat ->
  free_path fuel taken base_name extension save_path 1 = Some (tried n).
Proof.
  intros Hfree Hbelow fuel Hfuel.
  destruct (free_path_complete fuel (j := 0) (n := n)) as [p Hp];
    try assumption; try lia.
  change (tried 0) with save_path in Hp. change (0 + 1)%N with 1%N in Hp.
  rewrite Hp. f_equal.
  pose proof Hp as Hs.
  change save_path with (tried 0) in Hs. change 1%N with (0 + 1)%N in Hs.
  apply free_path_sound in Hs.
  destruct Hs as [m [_ [_ [-> [Hm Hmb]]]]].
  f_equal.
  destruct (N.lt_trichotomy m n) as [Hlt | [Heq | Hgt]]; [| exact Heq |].
  - rewrite (Hbelow m Hlt) in Hm; discriminate.
  - rewrite (Hmb n) in Hfree; [discriminate | lia].
Qed.

End Collision.

(** Among the first paths of an injective enumeration, one more than the
    directory holds, some path is absent; the first such has every earlier
    one present. *)
Lemma first_absent (present : list str) (f : N -> str) (bound : nat) :
  (forall k, (N.to_nat k < bound)%nat -> In (f k) present) \/
  exists n, (N.to_nat n < bound)%nat /\ ~ In (f n) present /\
            forall k, (k < n)%N -> In (f k) present.
Proof.
  induction bound as [|bound [IH | IH]].
  - left; intros k Hk; lia.
  - destruct (in_dec (list_eq_dec N.eq_dec) (f (N.of_nat bound)) present)
      as [Hin | Hout].
    + left. intros k Hk.
      destruct (Nat.eq_dec (N.to_nat k) bound) as [Heq | Hne].
      * rewrite <- Heq, N2Nat.id in Hin. exact Hin.
      * apply IH; lia.
    + right. exists (N.of_nat bound). repeat split; [lia | exact Hout |].
      intros k Hk. apply IH; lia.
  - right. destruct IH as [n [Hn H]]. exists n; split; [lia | exact H].
Qed.

Lemma pigeonhole (present : list str) (f : N -> str) :
  (forall j k, f j = f k -> j = k) ->
  exists n, (N.to_nat n <= length present)%nat /\ ~ In (f n) present /\
            forall k, (k < n)%N -> In (f k) present.
Proof.
  intros Hinj.
  destruct (first_absent present f (S (length present))) as [Hall | Hsome].
  - exfalso.
    assert (Hnd : NoDup (map (fun i => f (N.of_nat i))
                           (seq 0 (S (length present))))).
    { apply Finite.Injective_map_NoDup; [| apply seq_NoDup].
      intros x y Hxy. apply Hinj in Hxy. lia. }
    apply NoDup_incl_length with (l' := present) in Hnd.
    + rewrite length_map, length_seq in Hnd. lia.
    + intros p Hp. apply in_map_iff in Hp. destruct Hp as [i [<- Hi]].
      apply in_seq in Hi. apply Hall. lia.
  - destruct Hsome as [n [Hn H]]. exists n; split; [lia | exact H].
Qed.

(** The loop on any path: it returns the first of the attempts that is not
    present, within one test more than there are paths present. *)
Lemma unique_path_first_free (save_path : str) (present : list str) :
  exists n : N,
    (N.to_nat n <= length present)%nat /\
    (forall fuel, (N.to_nat n < fuel)%nat ->
       unique_path fuel present save_path = Some (attempt save_path n)) /\
    ~ In (attempt save_path n) present /\
    (forall k, (k < n)%N -> In (attempt save_path k) present).
Proof.
  pose proof (splitext_app save_path) as Happ.
  destruct (pigeonhole present (attempt save_path)) as [n [Hn [Hout Hbelow]]].
  { intros j k. apply tried_inj. exact Happ. }
  exists n. repeat split; try assumption.
  intros fuel Hfuel. unfold unique_path, attempt in *.
  destruct (splitext save_path) as [base_name extension].
  cbn [fst snd] in *.
  apply (@free_path_least (fun p => existsb (str_eqb p) present)
           base_name extension save_path n); try assumption.
  - destruct (existsb _ _) eqn:Hex; [| reflexivity].
    apply mem_In in Hex. contradiction.
  - intros k Hk. apply mem_In, Hbelow, Hk.
Qed.

(** [rfind] finds the last occurrence. *)
Lemma rfind_from_spec (c : char) (p : str) :
  forall i acc,
    (~ In c p /\ rfind_from i acc p c = acc) \/
    (exists a b, p = a ++ c :: b /\ ~ In c b /\
                 rfind_from i acc p c = (i + Z.of_nat (length a))%Z).
Proof.
  induction p as [|d p IH]; intros i acc; cbn [rfind_from].
  - left. split; [intros [] | reflexivity].
  - destruct (N.eqb_spec d c) as [-> | Hne].
    + destruct (IH (i + 1)%Z i) as [[Hnot Hr] | [a [b [Hp [Hb Hr]]]]].
      * right. exists [], p. repeat split; [exact Hnot |].
        rewrite Hr. cbn [length]. lia.
      * right. exists (c :: a), b.
        split; [rewrite Hp; reflexivity |]. split; [exact Hb |].
        rewrite Hr. cbn [length]. lia.
    + destruct (IH (i + 1)%Z acc) as [[Hnot Hr] | [a [b [Hp [Hb Hr]]]]].
      * left. split; [| exact Hr].
        intros [H | H]; [contradiction | exact (Hnot H)].
      * right. exists (d :: a), b.
        split; [rewrite Hp; reflexivity |]. split; [exact Hb |].
        rewrite Hr. cbn [length]. lia.
Qed.

Lemma rfind_spec (c : char) (p : str) :
  (~ In c p /\ rfind p c = (-1)%Z) \/
  (exists a b, p = a ++ c :: b /\ ~ In c b /\
               rfind p c = Z.of_nat (length a)).
Proof. exact (rfind_from_spec c p 0 (-1)). Qed.

(** An occurrence after the last one is none. *)
Lemma occurrence_before_last (c : char) (a b x y : str) :
  a ++ c :: b = x ++ c :: y -> ~ In c b -> (length x <= length a)%nat.
Proof.
  revert x; induction a as [|d a IH]; intros x H Hb.
  - destruct x as [|e x]; [cbn; lia |].
    exfalso. apply Hb. cbn [app] in H. injection H as _ ->.
    apply in_or_app. right. left. reflexivity.
  - destruct x as [|e x]; [cbn; lia |].
    cbn [app] in H. injection H as _ H. cbn [length].
    apply le_n_S, IH; assumption.
Qed.

(** The extension [os.path.splitext] finds is empty, or a period followed
    by text with neither period nor slash. *)
Lemma splitext_extension_shape (p : str) :
  snd (splitext p) = [] \/
  exists r, snd (splitext p) = 46%N :: r /\ ~ In 46%N r /\ ~ In 47%N r.
Proof.
  unfold splitext.
  destruct (rfind p 46%N >? rfind p 47%N)%Z eqn:Hgt; [| left; reflexivity].
  apply Z.gtb_lt in Hgt.
  assert (Hscan : forall n i d,
             snd (splitext_scan p i n d) = [] \/
             snd (splitext_scan p i n d) = skipn d p).
  { induction n as [|n IH]; intros i d; cbn [splitext_scan].
    - left; reflexivity.
    - destruct (negb _); [right; reflexivity | apply IH]. }
  destruct (Hscan (Z.to_nat (rfind p 46%N) - Z.to_nat (rfind p 47%N + 1))%nat
              (Z.to_nat (rfind p 47%N + 1)) (Z.to_nat (rfind p 46%N)))
    as [H | H]; [left; exact H | right].
  rewrite H. clear H Hscan.
  destruct (rfind_spec 46%N p) as [[_ Hd] | [a [b [Hp [Hb Hd]]]]].
  { destruct (rfind_spec 47%N p) as [[_ Hs] | [a' [b' [_ [_ Hs]]]]]; lia. }
  rewrite Hd, Nat2Z.id.
  exists b. split; [| split; [exact Hb |]].
  - rewrite Hp at 1. rewrite skipn_app, skipn_all, Nat.sub_diag. reflexivity.
  - intros Hin. apply in_split in Hin. destruct Hin as [b1 [b2 Hb12]].
    destruct (rfind_spec 47%N p) as [[Hnot _] | [a' [b' [Hp' [Hb' Hs]]]]].
    + apply Hnot. rewrite Hp, Hb12. apply in_or_app. right. right.
      apply in_or_app. right. left. reflexivity.
    + assert (Hle : (length (a ++ 46%N :: b1) <= length a')%nat).
      { apply (@occurrence_before_last 47%N a' b' (a ++ 46%N :: b1) b2);
          [| exact Hb'].
        rewrite <- Hp', Hp, Hb12, <- app_assoc. reflexivity. }
      rewrite length_app in Hle. cbn [length] in Hle. lia.
Qed.

(** In the world: the search returns, with a path that does not exist. *)
Lemma unique_save_path_free (save_path : str) (w : World) :
  exists n : N,
    unique_save_path save_path w = (Ok (attempt save_path n), w) /\
    path_exists w (attempt save_path n) = false.
Proof.
  destruct (unique_path_first_free save_path (existing w))
    as [n [Hn [Hrun [Hout _]]]].
  exists n. unfold unique_save_path. rewrite Hrun by lia.
  split; [reflexivity |].
  unfold path_exists. destruct (existsb _ _) eqn:Hex; [| reflexivity].
  apply mem_In in Hex. contradiction.
Qed.

(** C1.  Whatever the destination directory, the filename and the (finite)
    set of existing paths: the loop of lines 93-98 returns the first path
    among X, X_1, X_2, ... that does not exist, the number being set before
    the extension that [os.path.splitext] finds (empty, or the last period
    of the name and what follows it); it does so within one test more than
    there are existing paths, so the search terminates, and the path
    returned names no existing file.  In the world of the program the
    search therefore always returns, with a path [os.path.exists] denies. *)
Theorem C1_collision_suffix :
  forall (save_directory filename : str) (present : list str),
    let save_path := path_join save_directory filename in
    let base_name := fst (splitext save_path) in
    let extension := snd (splitext save_path) in
    base_name ++ extension = save_path /\
    (extension = [] \/
     exists r, extension = 46%N :: r /\ ~ In 46%N r /\ ~ In 47%N r) /\
    (forall n, (0 < n)%N ->
       attempt save_path n
       = base_name ++ lit "_" ++ str_of_int n ++ extension) /\
    attempt save_path 0 = save_path /\
    exists n : N,
      (N.to_nat n <= length present)%nat /\
      (forall fuel, (N.to_nat n < fuel)%nat ->
         unique_path fuel present save_path = Some (attempt save_path n)) /\
      ~ In (attempt save_path n) present /\
      (forall k, (k < n)%N -> In (attempt save_path k) present) /\
      (forall w, existing w = present ->
         unique_save_path save_path w = (Ok (attempt save_path n), w) /\
         path_exists w (attempt save_path n) = false).
Proof.
  intros save_directory filename present save_path base_name extension.
  split; [apply splitext_app |].
  split; [apply splitext_extension_shape |].
  split.
  { intros n Hn. unfold attempt.
    destruct (N.eqb_spec n 0); [lia | reflexivity]. }
  split; [reflexivity |].
  destruct (unique_path_first_free save_path present)
    as [n [Hn [Hrun [Hout Hbelow]]]].
  exists n. repeat split; try assumption.
  - subst present. unfold unique_save_path. rewrite Hrun by lia.
    reflexivity.
  - subst present. unfold path_exists.
    destruct (existsb _ _) eqn:Hex; [| reflexivity].
    apply mem_In in Hex. contradiction.
Qed.

Example unique_path_twice_taken :
  unique_path 3
    [lit "Fetched_Images/cat.png"; lit "Fetched_Images/cat_1.png"]
    (path_join (lit "Fetched_Images") (lit "cat.png"))
  = Some (lit "Fetched_Images/cat_2.png").
Proof. vm_compute. reflexivity. Qed.

Example splitext_hidden_file :
  splitext (lit "Fetched_Images/.png") = (lit "Fetched_Images/.png", []).
Proof. vm_compute. reflexivity. Qed.

(** ** Checking a property of every small number by computation *)

Lemma forall_below (P : N -> bool) (bound : N) :
  forallb P (map N.of_nat (seq 0 (N.to_nat bound))) = true ->
  forall c, (c < bound)%N -> P c = true.
Proof.
  intros H c Hc. rewrite forallb_forall in H. apply H.
  apply in_map_iff. exists (N.to_nat c). split; [apply N2Nat.id |].
  apply in_seq. lia.
Qed.

Lemma latin1_isalnum_ascii (c : char) :
  is_ascii c = true -> latin1_isalnum c = ascii_alnum c.
Proof.
  intros Hc. unfold is_ascii in Hc. apply N.ltb_lt in Hc.
  pose proof (@forall_below
    (fun c => Bool.eqb (latin1_isalnum c) (ascii_alnum c)) 128%N) as H.
  apply Bool.eqb_prop, H; [vm_compute; reflexivity | exact Hc].
Qed.

Lemma ref_lib_tables : cpython_tables ref_lib.
Proof. split; intros; reflexivity. Qed.

(** ** Sanitizing, line 86 *)

Lemma lstrip_by_suffix (p : char -> bool) (s : str) :
  exists t, s = t ++ lstrip_by p s.
Proof.
  induction s as [|c s [t IH]]; simpl.
  - exists []; reflexivity.
  - destruct (p c).
    + exists (c :: t). simpl. f_equal. exact IH.
    + exists []; reflexivity.
Qed.

Lemma lstrip_by_head (p : char -> bool) (s : str) (c : char) (t : str) :
  lstrip_by p s = c :: t -> p c = false.
Proof.
  induction s as [|d s IH]; simpl; [discriminate |].
  destruct (p d) eqn:Hd; [exact IH |].
  intros H; injection H as -> _. exact Hd.
Qed.

Lemma rstrip_by_prefix (p : char -> bool) (s : str) :
  exists t, s = rstrip_by p s ++ t.
Proof.
  unfold rstrip_by. destruct (lstrip_by_suffix p (rev s)) as [t Ht].
  exists (rev t). rewrite <- rev_app_distr, <- Ht, rev_involutive.
  reflexivity.
Qed.

Lemma rstrip_by_last (p : char -> bool) (s t : str) (c : char) :
  rstrip_by p s = t ++ [c] -> p c = false.
Proof.
  unfold rstrip_by. intros H.
  apply (f_equal (@rev char)) in H.
  rewrite rev_involutive, rev_app_distr in H. simpl in H.
  apply lstrip_by_head in H. exact H.
Qed.

Lemma rstrip_by_fixed (p : char -> bool) (s : str) :
  match rev s with [] => True | c :: _ => p c = false end ->
  rstrip_by p s = s.
Proof.
  unfold rstrip_by. intros H.
  destruct (rev s) as [|c r] eqn:Hr.
  - simpl. apply (f_equal (@rev char)) in Hr.
    rewrite rev_involutive in Hr. symmetry; exact Hr.
  - simpl. rewrite H, <- Hr. apply rev_involutive.
Qed.

Lemma filter_fixed (f : char -> bool) (s : str) :
  forallb f s = true -> filter f s = s.
Proof.
  induction s as [|c s IH]; simpl; [reflexivity |].
  rewrite andb_true_iff. intros [-> Hs]. f_equal. apply IH, Hs.
Qed.

Lemma sanitize_kept (L : Lib) (filename : str) :
  Forall (fun c => kept L c = true) (sanitize L filename).
Proof.
  unfold sanitize.
  destruct (rstrip_by_prefix (isspace L) (filter (kept L) filename)) as [t Ht].
  assert (H : Forall (fun c => kept L c = true) (filter (kept L) filename)).
  { apply Forall_forall. intros c Hc. apply filter_In in Hc. apply Hc. }
  fold (kept L) in *. rewrite Ht in H. apply Forall_app in H. apply H.
Qed.

Lemma sanitize_incl (L : Lib) (filename : str) (c : char) :
  In c (sanitize L filename) -> In c filename.
Proof.
  unfold sanitize. fold (kept L). intros Hc.
  destruct (rstrip_by_prefix (isspace L) (filter (kept L) filename))
    as [t Ht].
  assert (Hin : In c (filter (kept L) filename)).
  { rewrite Ht. apply in_or_app. left; exact Hc. }
  apply filter_In in Hin. apply Hin.
Qed.

(** A clean Latin-1 text passes line 86 unchanged. *)
Lemma sanitize_clean (L : Lib) (s : str) :
  cpython_tables L -> latin1_clean s = true -> sanitize L s = s.
Proof.
  intros HL Hs. unfold latin1_clean in Hs. apply andb_true_iff in Hs.
  destruct Hs as [Hall Hlast]. unfold sanitize.
  rewrite filter_fixed.
  - apply rstrip_by_fixed. destruct (rev s) as [|c r]; [exact I |].
    apply andb_true_iff in Hlast. destruct Hlast as [Hc Hsp].
    apply N.ltb_lt in Hc. rewrite (isspace_latin1 HL Hc).
    apply negb_true_iff, Hsp.
  - apply forallb_forall. intros c Hc.
    rewrite forallb_forall in Hall. specialize (Hall c Hc).
    apply andb_true_iff in Hall. destruct Hall as [Hlt Hk].
    apply N.ltb_lt in Hlt. rewrite (isalnum_latin1 HL Hlt). exact Hk.
Qed.

Lemma char_in_In (c : char) (cs : str) : char_in c cs = true <-> In c cs.
Proof.
  unfold char_in. rewrite existsb_exists. split.
  - intros [x [Hx He]]. apply N.eqb_eq in He; subst; exact Hx.
  - intros H; exists c; split; [exact H | apply N.eqb_refl].
Qed.

(** C3, as the code has it.  The sanitized name holds only characters that
    [str.isalnum] accepts, or space, hyphen, underscore and period; its last
    character is not white space; and, with CPython's tables, each of its
    ASCII characters is in [A-Za-z0-9 ._-]. *)
Theorem C3_sanitized_characters :
  forall (L : Lib) (filename : str),
    Forall (fun c => isalnum L c = true \/ In c [32; 45; 95; 46]%N)
      (sanitize L filename) /\
    (forall t c, sanitize L filename = t ++ [c] -> isspace L c = false) /\
    (cpython_tables L ->
     forall c, In c (sanitize L filename) -> is_ascii c = true ->
               spec_char c = true).
Proof.
  intros L filename.
  pose proof (sanitize_kept L filename) as Hk.
  repeat split.
  - eapply Forall_impl; [| exact Hk].
    intros c Hc. unfold kept in Hc. apply orb_true_iff in Hc.
    destruct Hc as [Hc | Hc]; [left; exact Hc | right].
    apply char_in_In, Hc.
  - intros t c H. unfold sanitize in H. apply rstrip_by_last in H. exact H.
  - intros HL c Hc Hascii.
    rewrite Forall_forall in Hk. specialize (Hk c Hc).
    unfold kept in Hk. unfold spec_char.
    assert (Hlt : (c < 256)%N).
    { unfold is_ascii in Hascii. apply N.ltb_lt in Hascii. lia. }
    rewrite (isalnum_latin1 HL Hlt), (latin1_isalnum_ascii _ Hascii) in Hk.
    apply orb_true_iff in Hk. apply orb_true_iff.
    destruct Hk as [Hk | Hk]; [left; exact Hk | right].
    apply char_in_In. apply char_in_In in Hk.
    simpl in *. intuition.
Qed.

(** C3 as stated fails on a name with a letter outside ASCII: with CPython's
    tables, "café.png" passes line 86 unchanged, and its fourth
    character (code point 233) is not in [A-Za-z0-9 ._-]. *)
Lemma C3_counterexample_non_ascii_letter :
  let filename := (lit "caf" ++ [233] ++ lit ".png")%N in
  (forall L, cpython_tables L -> sanitize L filename = filename) /\
  sanitize ref_lib filename = filename /\
  forallb spec_char filename = false.
Proof.
  split; [| split].
  - intros L HL. apply sanitize_clean; [exact HL | vm_compute; reflexivity].
  - apply sanitize_clean; [exact ref_lib_tables | vm_compute; reflexivity].
  - vm_compute. reflexivity.
Qed.

(** ** str.split and indexing *)

Lemma split_from_nonempty (sep : str) (s : str) :
  forall skip cur, split_from sep skip cur s <> [].
Proof.
  induction s as [|c s IH]; intros skip cur; cbn [split_from];
    [discriminate |].
  destruct skip; [| apply IH].
  destruct (startswith (c :: s) sep); [discriminate | apply IH].
Qed.

Lemma py_index_first (A : Type) (x : A) (xs : list A) :
  py_index (x :: xs) 0 = Some x.
Proof.
  unfold py_index. change (0 <? 0)%Z with false. cbv iota.
  replace ((0 <=? 0)%Z && (0 <? Z.of_nat (length (x :: xs)))%Z) with true.
  - reflexivity.
  - symmetry. apply andb_true_iff. split; [reflexivity |].
    apply Z.ltb_lt. simpl length. lia.
Qed.

Lemma py_index_last (A : Type) (xs : list A) (d : A) :
  xs <> [] -> py_index xs (-1) = Some (last xs d).
Proof.
  intros Hne. destruct (exists_last Hne) as [l [a ->]].
  rewrite last_last. unfold py_index. rewrite length_app. simpl length.
  change (-1 <? 0)%Z with true. cbv iota.
  replace (-1 + Z.of_nat (length l + 1))%Z with (Z.of_nat (length l)) by lia.
  destruct ((0 <=? Z.of_nat (length l))%Z
            && (Z.of_nat (length l) <? Z.of_nat (length l + 1))%Z) eqn:H.
  - rewrite Nat2Z.id, nth_error_app2, Nat.sub_diag by lia. reflexivity.
  - apply andb_false_iff in H. destruct H as [H | H].
    + apply Z.leb_gt in H. lia.
    + apply Z.ltb_ge in H. lia.
Qed.

Lemma index_first (x : str) (xs : list str) : index (x :: xs) 0 = ret x.
Proof. unfold index. rewrite py_index_first. reflexivity. Qed.

Lemma index_last (xs : list str) :
  xs <> [] -> index xs (-1) = ret (last xs []).
Proof.
  intros H. unfold index. rewrite (py_index_last ([] : str) H). reflexivity.
Qed.

(** Splitting never fails to give a first and a last piece. *)
Lemma index_split_first (s sep : str) :
  index (split s sep) 0 = ret (hd [] (split s sep)).
Proof.
  unfold split. pose proof (split_from_nonempty sep s 0 []) as H.
  destruct (split_from sep 0 [] s); [contradiction | apply index_first].
Qed.

Lemma index_split_last (s sep : str) :
  index (split s sep) (-1) = ret (last (split s sep) []).
Proof. apply index_last, split_from_nonempty. Qed.

Lemma split_from_skip (sep : str) (x t : str) :
  forall cur, split_from sep (length x) cur (x ++ t) = split_from sep 0 cur t.
Proof.
  induction x as [|c x IH]; intros cur; simpl.
  - destruct t; reflexivity.
  - apply IH.
Qed.

Lemma split_from_no_match (sep : str) (s : str) :
  forall cur, contains sep s = false -> split_from sep 0 cur s = [cur ++ s].
Proof.
  induction s as [|c s IH]; intros cur H.
  - simpl. rewrite app_nil_r. reflexivity.
  - cbn [contains] in H. apply orb_false_iff in H. destruct H as [H1 H2].
    cbn [split_from]. rewrite H1, IH by exact H2.
    rewrite <- app_assoc. reflexivity.
Qed.

Lemma overlap_border (sep p t : str) :
  startswith (p ++ sep ++ t) sep = true ->
  (0 < length p < length sep)%nat ->
  has_border sep = true.
Proof.
  intros H [Hp Hlt]. apply startswith_iff in H. destruct H as [u Hu].
  unfold has_border. apply existsb_exists.
  exists (length sep - length p). split; [apply in_seq; lia |].
  apply str_eqb_eq.
  replace (length sep - (length sep - length p)) with (length p) by lia.
  apply (f_equal (skipn (length p))) in Hu.
  rewrite skipn_app, skipn_all, Nat.sub_diag in Hu. simpl in Hu.
  rewrite skipn_app in Hu.
  replace (length p - length sep) with 0 in Hu by lia. simpl in Hu.
  apply (f_equal (firstn (length sep - length p))) in Hu.
  rewrite firstn_app in Hu.
  replace (length sep - length p - length sep) with 0 in Hu by lia.
  rewrite firstn_O, app_nil_r in Hu. rewrite Hu.
  rewrite firstn_app, length_skipn, Nat.sub_diag, firstn_O, app_nil_r.
  apply firstn_all2. rewrite length_skipn. lia.
Qed.

(** With a separator that has no border, the last piece of a text that ends
    in [sep ++ tail], where [tail] is free of [sep], is [tail]. *)
Lemma split_from_last (sep tail : str) :
  sep <> [] -> has_border sep = false -> contains sep tail = false ->
  forall pre skip cur, (skip <= length pre)%nat ->
    last (split_from sep skip cur (pre ++ sep ++ tail)) [] = tail.
Proof.
  intros Hne Hub Hnc. induction pre as [|d pre IH]; intros skip cur Hskip.
  - simpl in Hskip. replace skip with 0 by lia.
    destruct sep as [|c sep']; [contradiction |].
    cbn [app split_from]. change (c :: sep' ++ tail) with ((c :: sep') ++ tail).
    rewrite startswith_app.
    replace (length (c :: sep') - 1) with (length sep') by (simpl; lia).
    rewrite split_from_skip, split_from_no_match by exact Hnc.
    reflexivity.
  - cbn [app split_from]. destruct skip as [|k].
    + change (d :: pre ++ sep ++ tail) with ((d :: pre) ++ sep ++ tail).
      destruct (startswith ((d :: pre) ++ sep ++ tail) sep) eqn:Hst.
      * assert (Hlen : (length sep <= length (d :: pre))%nat).
        { destruct (Nat.le_gt_cases (length sep) (length (d :: pre)))
            as [Hle | Hgt]; [exact Hle |].
          rewrite (overlap_border _ _ _ Hst) in Hub; [discriminate |].
          simpl; simpl in Hgt; lia. }
        pose proof (split_from_nonempty sep (pre ++ sep ++ tail)
                      (length sep - 1) []) as Hn.
        destruct (split_from sep (length sep - 1) [] (pre ++ sep ++ tail))
          as [|x xs] eqn:Hsp; [contradiction |].
        change (last (cur :: x :: xs) []) with (last (x :: xs) (@nil char)).
        rewrite <- Hsp. apply IH. simpl in Hlen. lia.
      * apply IH. lia.
    + apply IH. simpl in Hskip. lia.
Qed.

Lemma split_last (sep pre tail : str) :
  sep <> [] -> has_border sep = false -> contains sep tail = false ->
  last (split (pre ++ sep ++ tail) sep) [] = tail.
Proof.
  intros. unfold split. apply split_from_last; try assumption. lia.
Qed.

(** The first piece, for a separator of one character. *)
Lemma split_from_first (c : char) (s : str) :
  forall cur, hd [] (split_from [c] 0 cur s) = cur ++ take_until c s.
Proof.
  induction s as [|d s IH]; intros cur.
  - simpl. rewrite app_nil_r. reflexivity.
  - cbn [split_from startswith take_until]. rewrite N.eqb_sym.
    destruct (d =? c)%N.
    + destruct s; simpl; rewrite app_nil_r; reflexivity.
    + simpl andb. cbv iota. rewrite IH, <- app_assoc. reflexivity.
Qed.

(** ** Steps of the monad *)

Lemma bind_ok (A B : Type) (m : M A) (k : A -> M B) (w w' : World) (a : A) :
  m w = (Ok a, w') -> bind m k w = k a w'.
Proof. intros H. unfold bind. rewrite H. reflexivity. Qed.

Arguments bind_ok {A B m} k {w w' a} _.

Lemma bind_raise (A B : Type) (m : M A) (k : A -> M B) (w w' : World)
    (e : exn) :
  m w = (Raise e, w') -> bind m k w = (Raise e, w').
Proof. intros H. unfold bind. rewrite H. reflexivity. Qed.

Arguments bind_raise {A B m} k {w w' e} _.

Lemma bind_ret (A B : Type) (a : A) (k : A -> M B) : bind (ret a) k = k a.
Proof. reflexivity. Qed.

Lemma urlparse_step_ok (L : Lib) (url : str) (parsed : ParseResult)
    (w : World) :
  urlparse L url = inr parsed -> urlparse_step L url w = (Ok parsed, w).
Proof. intros H. unfold urlparse_step. rewrite H. reflexivity. Qed.

(** ** The name taken from the URL, lines 24-38 *)

(** A text that holds [c] splits at the last [c]. *)
Lemma last_occurrence (c : char) (s : str) :
  contains [c] s = true ->
  exists a b, s = a ++ [c] ++ b /\ contains [c] b = false.
Proof.
  induction s as [|d s IH]; intros H.
  - discriminate.
  - destruct (contains [c] s) eqn:Hs.
    + destruct (IH eq_refl) as [a [b [-> Hb]]].
      exists (d :: a), b. split; [reflexivity | exact Hb].
    + cbn [contains] in H. rewrite Hs, orb_false_r in H.
      apply startswith_iff in H. destruct H as [t Ht].
      injection Ht as -> ->. exists [], t. split; [reflexivity | exact Hs].
Qed.

Lemma nonempty_middle (a b : str) (c : char) :
  is_empty (a ++ [c] ++ b) = false.
Proof. destruct a; reflexivity. Qed.

Lemma contains_nonempty (sub s : str) :
  sub <> [] -> contains sub s = true -> is_empty s = false.
Proof.
  intros Hne H. destruct s; [| reflexivity].
  cbn [contains] in H. rewrite orb_false_r in H.
  destruct sub; [contradiction | discriminate].
Qed.

(** The last path segment, when the path holds a slash. *)
Lemma extract_filename_segment (L : Lib) (url : str) (parsed : ParseResult)
    (w : World) (dir segment : str) :
  urlparse L url = inr parsed ->
  unquote L (path parsed) = dir ++ lit "/" ++ segment ->
  contains (lit "/") segment = false ->
  extract_filename L url w =
    if contains (lit ".") segment then (Ok segment, w)
    else (Ok (generated_name (clock w (clock_reads w))),
          set_clock_reads (S (clock_reads w)) w).
Proof.
  intros Hparse Hpath Hseg. unfold extract_filename.
  rewrite (bind_ok _ (urlparse_step_ok L url w Hparse)).
  rewrite Hpath.
  assert (Hcond : negb (is_empty (dir ++ lit "/" ++ segment))
                  && contains (lit "/") (dir ++ lit "/" ++ segment) = true).
  { apply andb_true_iff. split.
    - change (lit "/") with [47%N]. rewrite nonempty_middle. reflexivity.
    - apply contains_iff. exists dir, segment. reflexivity. }
  rewrite Hcond, index_split_last, split_last;
    [| discriminate | reflexivity | exact Hseg].
  rewrite bind_ret. cbv beta.
  destruct (contains (lit ".") segment) eqn:Hdot.
  - rewrite (contains_nonempty (sub := lit ".") segment) by
      (discriminate || exact Hdot).
    reflexivity.
  - rewrite andb_false_r. reflexivity.
Qed.

(** No slash in the path (or an empty path): the generated name. *)
Lemma extract_filename_no_slash (L : Lib) (url : str) (parsed : ParseResult)
    (w : World) :
  urlparse L url = inr parsed ->
  contains (lit "/") (unquote L (path parsed)) = false ->
  extract_filename L url w =
    (Ok (generated_name (clock w (clock_reads w))),
     set_clock_reads (S (clock_reads w)) w).
Proof.
  intros Hparse Hpath. unfold extract_filename.
  rewrite (bind_ok _ (urlparse_step_ok L url w Hparse)).
  rewrite Hpath, andb_false_r. reflexivity.
Qed.

(** Zero-padded fields have their width and hold digits only. *)
Lemma zero_padded_4 (n : N) :
  (n < 10000)%N ->
  length (zero_padded 4 n) = 4 /\ forallb is_digit (zero_padded 4 n) = true.
Proof.
  intros Hn.
  pose proof (@forall_below
    (fun n => (length (zero_padded 4 n) =? 4)%nat
              && forallb is_digit (zero_padded 4 n)) 10000%N) as H.
  specialize (H ltac:(vm_compute; reflexivity) n Hn).
  apply andb_true_iff in H. destruct H as [Hl Hd].
  apply Nat.eqb_eq in Hl. split; assumption.
Qed.

Lemma zero_padded_2 (n : N) :
  (n < 100)%N ->
  length (zero_padded 2 n) = 2 /\ forallb is_digit (zero_padded 2 n) = true.
Proof.
  intros Hn.
  pose proof (@forall_below
    (fun n => (length (zero_padded 2 n) =? 2)%nat
              && forallb is_digit (zero_padded 2 n)) 100%N) as H.
  specialize (H ltac:(vm_compute; reflexivity) n Hn).
  apply andb_true_iff in H. destruct H as [Hl Hd].
  apply Nat.eqb_eq in Hl. split; assumption.
Qed.

Ltac two_digits t :=
  let Hl := fresh "Hl" in
  let Hd := fresh "Hd" in
  destruct (@zero_padded_2 t) as [Hl Hd]; [lia |];
  destruct (zero_padded 2 t) as [|? [|? [|? ?]]]; try discriminate Hl;
  cbn [forallb] in Hd; rewrite ?andb_true_iff in Hd;
  destruct Hd as [? [? _]]; clear Hl.

Lemma generated_name_shape (t : datetime) :
  valid_datetime t = true -> is_generated_name (generated_name t) = true.
Proof.
  unfold valid_datetime, in_range. rewrite !andb_true_iff, !N.leb_le.
  intros [[[[[[? ?] [? ?]] [? ?]] [? ?]] [? ?]] [? ?]].
  unfold generated_name, strftime.
  destruct (@zero_padded_4 (year t)) as [Hl Hd]; [lia |].
  destruct (zero_padded 4 (year t)) as [|? [|? [|? [|? [|? ?]]]]];
    try discriminate Hl.
  cbn [forallb] in Hd. rewrite ?andb_true_iff in Hd.
  destruct Hd as [? [? [? [? _]]]]. clear Hl.
  two_digits (month t). two_digits (day t). two_digits (hour t).
  two_digits (minute t). two_digits (second t).
  unfold is_generated_name, slice. cbn.
  repeat match goal with H : is_digit _ = true |- _ => rewrite H; clear H end.
  reflexivity.
Qed.

(** [strftime] writes each field of the clock reading in decimal, with its
    leading zeros. *)
Lemma zero_padded_field (width : nat) (bound n : N) :
  forallb (fun n => str_eqb (zero_padded width n) (decimal_field width n))
    (map N.of_nat (seq 0 (N.to_nat bound))) = true ->
  (n < bound)%N -> zero_padded width n = decimal_field width n.
Proof.
  intros Hall Hn. apply str_eqb_eq.
  exact (@forall_below
           (fun n => str_eqb (zero_padded width n) (decimal_field width n))
           bound Hall n Hn).
Qed.

Lemma strftime_fields (t : datetime) :
  valid_datetime t = true -> strftime t = timestamp_of t.
Proof.
  unfold valid_datetime, in_range. rewrite !andb_true_iff, !N.leb_le.
  intros [[[[[[? ?] [? ?]] [? ?]] [? ?]] [? ?]] [? ?]].
  unfold strftime, timestamp_of.
  rewrite (@zero_padded_field 4 10000 (year t))
    by first [lia | vm_compute; reflexivity].
  rewrite !(@zero_padded_field 2 100) by first [lia | vm_compute; reflexivity].
  reflexivity.
Qed.

(** C7.  When the URL-decoded path of the URL ends in a segment (the text
    after its last slash) that holds a period, [extract_filename] returns
    that segment; when it has no such segment, it returns the name
    generated from the local time: image_, the reading of the clock and
    .jpg.  For a reading within the ranges of a date, that is
    image_YYYYMMDD_HHMMSS.jpg with the fourteen digits of the reading, each
    field in decimal with its leading zeros: the year, the month, the day,
    an underscore, the hour, the minute and the second. *)
Theorem C7_url_filename :
  forall (L : Lib) (url : str) (parsed : ParseResult) (w : World),
    urlparse L url = inr parsed ->
    let path := unquote L (path parsed) in
    (forall dir segment,
        path = dir ++ lit "/" ++ segment ->
        contains (lit "/") segment = false ->
        contains (lit ".") segment = true ->
        extract_filename L url w = (Ok segment, w)) /\
    ((forall dir segment,
         path = dir ++ lit "/" ++ segment ->
         contains (lit "/") segment = false ->
         contains (lit ".") segment = false) ->
     let now := clock w (clock_reads w) in
     extract_filename L url w =
       (Ok (lit "image_" ++ strftime now ++ lit ".jpg"),
        set_clock_reads (S (clock_reads w)) w) /\
     (valid_datetime now = true ->
      is_generated_name (lit "image_" ++ strftime now ++ lit ".jpg") = true)
     /\
     (valid_datetime now = true ->
      extract_filename L url w =
        (Ok (lit "image_"
             ++ (decimal_field 4 (year now) ++ decimal_field 2 (month now)
                 ++ decimal_field 2 (day now) ++ lit "_"
                 ++ decimal_field 2 (hour now) ++ decimal_field 2 (minute now)
                 ++ decimal_field 2 (second now))
             ++ lit ".jpg"),
         set_clock_reads (S (clock_reads w)) w))).
Proof.
  intros L url parsed w Hparse path0. split.
  - intros dir segment Hpath Hslash Hdot.
    rewrite (@extract_filename_segment L url parsed w dir segment
               Hparse Hpath Hslash).
    rewrite Hdot. reflexivity.
  - intros Hnone now.
    assert (Hrun : extract_filename L url w =
                     (Ok (lit "image_" ++ strftime now ++ lit ".jpg"),
                      set_clock_reads (S (clock_reads w)) w)).
    { destruct (contains (lit "/") path0) eqn:Hc.
      - destruct (@last_occurrence 47%N path0 Hc)
          as [dir [segment [Hpath Hseg]]].
        rewrite (@extract_filename_segment L url parsed w dir segment
                   Hparse Hpath Hseg).
        rewrite (Hnone dir segment Hpath Hseg). reflexivity.
      - apply (@extract_filename_no_slash L url parsed w Hparse Hc). }
    split; [exact Hrun |]. split; [apply generated_name_shape |].
    intros Hvalid. rewrite Hrun, (strftime_fields now Hvalid).
    reflexivity.
Qed.

(** The clock of [quiet_world] reads 15 January 2024, 10:30:00; that of
    [late_world] reads 31 December 1999, 23:59:59 and then 9 February 2031,
    04:05:06. *)
Lemma C7_witness :
  extract_filename ref_lib (lit "http://example.com/images/photo.png")
    quiet_world = (Ok (lit "photo.png"), quiet_world) /\
  extract_filename ref_lib (lit "http://example.com") quiet_world =
    (Ok (lit "image_20240115_103000.jpg"), set_clock_reads 1 quiet_world) /\
  is_generated_name (lit "image_20240115_103000.jpg") = true /\
  extract_filename ref_lib (lit "http://example.com") late_world =
    (Ok (lit "image_19991231_235959.jpg"), set_clock_reads 1 late_world) /\
  extract_filename ref_lib (lit "http://example.com")
    (set_clock_reads 1 late_world) =
    (Ok (lit "image_20310209_040506.jpg"), set_clock_reads 2 late_world).
Proof.
  assert (Hnone : forall dir segment : str,
             @nil char = dir ++ lit "/" ++ segment ->
             contains (lit "/") segment = false ->
             contains (lit ".") segment = false).
  { intros dir segment H. destruct dir; discriminate H. }
  split; [| split; [| split; [| split]]].
  - apply (proj1 (@C7_url_filename ref_lib
                    (lit "http://example.com/images/photo.png")
                    {| scheme := lit "http"; netloc := lit "example.com";
                       path := lit "/images/photo.png";
                       params := []; query := []; fragment := [] |}
                    quiet_world eq_refl)
             (lit "/images") (lit "photo.png")); reflexivity.
  - exact (proj1 (proj2 (@C7_url_filename ref_lib (lit "http://example.com")
                           {| scheme := lit "http";
                              netloc := lit "example.com";
                              path := []; params := []; query := [];
                              fragment := [] |}
                           quiet_world eq_refl) Hnone)).
  - exact (proj1 (proj2 (proj2 (@C7_url_filename ref_lib
                                  (lit "http://example.com")
                                  {| scheme := lit "http";
                                     netloc := lit "example.com";
                                     path := []; params := []; query := [];
                                     fragment := [] |}
                                  quiet_world eq_refl) Hnone)) eq_refl).
  - exact (proj2 (proj2 (proj2 (@C7_url_filename ref_lib
                                  (lit "http://example.com")
                                  {| scheme := lit "http";
                                     netloc := lit "example.com";
                                     path := []; params := []; query := [];
                                     fragment := [] |}
                                  late_world eq_refl) Hnone)) eq_refl).
  - exact (proj2 (proj2 (proj2 (@C7_url_filename ref_lib
                                  (lit "http://example.com")
                                  {| scheme := lit "http";
                                     netloc := lit "example.com";
                                     path := []; params := []; query := [];
                                     fragment := [] |}
                                  (set_clock_reads 1 late_world) eq_refl)
                                Hnone)) eq_refl).
Defined.

(** ** The resolver, lines 69-88 *)

Lemma same_but_clock_refl (w : World) : same_but_clock w w.
Proof. exists (clock_reads w). destruct w; reflexivity. Qed.

Lemma same_but_clock_tick (w w' : World) :
  same_but_clock w w' ->
  same_but_clock w (set_clock_reads (S (clock_reads w')) w').
Proof. intros [n ->]. exists (S n). reflexivity. Qed.

Lemma generated_name_has_period (t : datetime) :
  contains (lit ".") (generated_name t) = true.
Proof.
  apply contains_iff. exists (lit "image_" ++ strftime t), (lit "jpg").
  unfold generated_name. rewrite <- app_assoc. reflexivity.
Qed.

(** Once [urlparse] has accepted the URL, [extract_filename] returns, and
    what it returns holds a period. *)
Lemma extract_filename_ok (L : Lib) (url : str) (parsed : ParseResult)
    (w : World) :
  urlparse L url = inr parsed ->
  exists filename w',
    extract_filename L url w = (Ok filename, w') /\
    contains (lit ".") filename = true /\ same_but_clock w w'.
Proof.
  intros Hparse.
  destruct (contains (lit "/") (unquote L (path parsed))) eqn:Hc.
  - destruct (@last_occurrence 47%N _ Hc) as [dir [segment [Hpath Hseg]]].
    rewrite (@extract_filename_segment L url parsed w dir segment
               Hparse Hpath Hseg).
    destruct (contains (lit ".") segment) eqn:Hdot.
    + exists segment, w. repeat split; [exact Hdot | apply same_but_clock_refl].
    + eexists; eexists. repeat split.
      * apply generated_name_has_period.
      * apply same_but_clock_tick, same_but_clock_refl.
  - rewrite (@extract_filename_no_slash L url parsed w Hparse Hc).
    eexists; eexists. repeat split.
    + apply generated_name_has_period.
    + apply same_but_clock_tick, same_but_clock_refl.
Qed.

(** With a filename in the content-disposition header, that name is the
    candidate: neither the URL nor the content-type is looked at. *)
Lemma candidate_from_disposition (L : Lib) (url content_type cd : str)
    (w : World) :
  contains (lit "filename=") cd = true ->
  candidate_filename L url content_type cd w =
    (Ok (strip_chars (last (split cd (lit "filename=")) [])
           [quote_char; apostrophe]), w).
Proof.
  intros H. unfold candidate_filename.
  rewrite H, index_split_last, bind_ret. reflexivity.
Qed.

Lemma candidate_from_url (L : Lib) (url content_type cd : str)
    (w w' : World) (filename : str) :
  contains (lit "filename=") cd = false ->
  extract_filename L url w = (Ok filename, w') ->
  candidate_filename L url content_type cd w =
    (Ok (adjust_extension L content_type filename), w').
Proof.
  intros Hcd Hx. unfold candidate_filename, adjust_extension.
  rewrite Hcd, (bind_ok _ Hx), index_split_first, bind_ret.
  destruct (guess_extension L _) as [ext |]; [| reflexivity].
  destruct (negb (is_empty ext) && negb (endswith filename ext));
    [| reflexivity].
  destruct (contains (lit ".") filename); [| reflexivity].
  rewrite index_split_first, bind_ret.
  unfold split. change (lit ".") with [46%N].
  rewrite split_from_first. reflexivity.
Qed.

Lemma candidate_filename_ok (L : Lib) (url content_type cd : str)
    (parsed : ParseResult) (w : World) :
  urlparse L url = inr parsed ->
  exists candidate w',
    candidate_filename L url content_type cd w = (Ok candidate, w') /\
    same_but_clock w w'.
Proof.
  intros Hparse. destruct (contains (lit "filename=") cd) eqn:Hcd.
  - rewrite candidate_from_disposition by exact Hcd.
    eexists; eexists; split; [reflexivity | apply same_but_clock_refl].
  - destruct (@extract_filename_ok L url parsed w Hparse)
      as [filename [w' [Hx [_ Hw]]]].
    rewrite (@candidate_from_url L url content_type cd w w' filename Hcd Hx).
    eexists; eexists; split; [reflexivity | exact Hw].
Qed.

(** What lines 86-88 make of a candidate. *)
Lemma resolve_filename_of_candidate (L : Lib) (url content_type cd : str)
    (w w' : World) (candidate : str) :
  candidate_filename L url content_type cd w = (Ok candidate, w') ->
  resolve_filename L url content_type cd w =
    if is_empty (sanitize L candidate)
    then (Ok (lit "image_" ++ strftime (clock w' (clock_reads w'))),
          set_clock_reads (S (clock_reads w')) w')
    else (Ok (sanitize L candidate), w').
Proof.
  intros H. unfold resolve_filename. rewrite (bind_ok _ H).
  destruct (is_empty (sanitize L candidate)); reflexivity.
Qed.

(** A URL that [urlparse] refuses ends the download at line 53: the
    failure is reported, no request is made, and lines 69-88 are not
    reached. *)
Lemma download_image_refused_url (L : Lib) (E : Env)
    (url save_directory message : str) (w : World) :
  urlparse L url = inl message ->
  download_image L E url save_directory w =
    (Ok false,
     set_stdout (stdout w ++ [cross_mark ++ lit " Unexpected error: "
                              ++ message])
       (set_invoked (invoked w ++ [url]) w)).
Proof.
  intros H. unfold download_image, try_except, download_image_try.
  unfold bind at 1. unfold urlparse_step. rewrite H. reflexivity.
Qed.

(** C8.  For every URL and every pair of headers: when [urlparse] accepts
    the URL, lines 69-88 return, with a name that is not empty and with
    nothing changed in the world but the readings of the clock; if
    sanitizing (line 86) left nothing of the candidate, the name is
    image_<timestamp>, without extension.  When [urlparse] refuses the URL,
    [download_image] has returned at line 53 and the resolver is not run.
    No other step of the resolver can fail. *)
Theorem C8_resolver_total :
  forall (L : Lib) (E : Env)
         (url save_directory content_type content_disposition : str)
         (w : World),
    (forall parsed,
       urlparse L url = inr parsed ->
       exists (candidate filename : str) (w1 w2 : World),
         candidate_filename L url content_type content_disposition w
           = (Ok candidate, w1) /\
         resolve_filename L url content_type content_disposition w
           = (Ok filename, w2) /\
         filename <> [] /\
         same_but_clock w w2 /\
         (sanitize L candidate = [] ->
          filename = lit "image_" ++ strftime (clock w1 (clock_reads w1))) /\
         (sanitize L candidate <> [] -> filename = sanitize L candidate)) /\
    (forall message,
       urlparse L url = inl message ->
       download_image L E url save_directory w =
         (Ok false,
          set_stdout (stdout w ++ [cross_mark ++ lit " Unexpected error: "
                                   ++ message])
            (set_invoked (invoked w ++ [url]) w))).
Proof.
  intros L E url dir content_type cd w. split.
  - intros parsed Hparse.
    destruct (@candidate_filename_ok L url content_type cd parsed w Hparse)
      as [candidate [w1 [Hc Hw]]].
    exists candidate.
    rewrite (resolve_filename_of_candidate _ _ _ _ _ Hc).
    destruct (sanitize L candidate) as [|c s] eqn:Hs; cbn [is_empty].
    + eexists; exists w1; eexists. repeat split.
      * exact Hc.
      * discriminate.
      * apply same_but_clock_tick, Hw.
      * intros H; contradiction.
    + exists (c :: s), w1, w1. repeat split.
      * exact Hc.
      * discriminate.
      * exact Hw.
      * discriminate.
  - intros message Hparse. apply download_image_refused_url, Hparse.
Qed.

(** A header with a name of symbols only, which line 86 empties. *)
Lemma C8_witness :
  exists w2,
    resolve_filename ref_lib (lit "http://example.com/")
      (lit "image/png") (lit "attachment; filename=@@@")
      quiet_world = (Ok (lit "image_20240115_103000"), w2).
Proof.
  destruct (proj1 (@C8_resolver_total ref_lib (env_of (inr html_page))
                     (lit "http://example.com/") directory_name
                     (lit "image/png") (lit "attachment; filename=@@@")
                     quiet_world)
              {| scheme := lit "http"; netloc := lit "example.com";
                 path := lit "/"; params := []; query := [];
                 fragment := [] |}
              eq_refl)
    as [candidate [filename [w1 [w2 [Hc [Hr [_ [_ [Hempty _]]]]]]]]].
  exists w2. rewrite Hr. f_equal. f_equal.
  injection Hc as <- <-. apply Hempty. reflexivity.
Defined.

(** C6, as the code has it.  When the content-disposition header holds
    [filename=], the candidate is the text after its last occurrence,
    stripped of quotes at its two ends, whatever the content-type and the
    URL: no extension is inferred.  For a header that ENDS in
    filename="cat.png" the candidate is cat.png, and so is, with CPython's
    tables, the resolved name; what follows the name in the header would be
    part of the candidate. *)
Theorem C6_disposition_name_wins :
  forall (L : Lib) (url content_type content_disposition : str) (w : World),
    contains (lit "filename=") content_disposition = true ->
    let name :=
      strip_chars (last (split content_disposition (lit "filename=")) [])
        [quote_char; apostrophe] in
    candidate_filename L url content_type content_disposition w
      = (Ok name, w) /\
    (sanitize L name <> [] ->
     resolve_filename L url content_type content_disposition w
       = (Ok (sanitize L name), w)) /\
    (forall before,
        content_disposition =
          before ++ lit "filename="
          ++ ([quote_char] ++ lit "cat.png" ++ [quote_char]) ->
        name = lit "cat.png" /\
        (cpython_tables L ->
         resolve_filename L url content_type content_disposition w
           = (Ok (lit "cat.png"), w))).
Proof.
  intros L url content_type cd w Hcd name.
  pose proof (@candidate_from_disposition L url content_type cd w Hcd) as Hc.
  fold name in Hc.
  assert (Hres : sanitize L name <> [] ->
                 resolve_filename L url content_type cd w
                 = (Ok (sanitize L name), w)).
  { intros Hne. rewrite (resolve_filename_of_candidate _ _ _ _ _ Hc).
    destruct (sanitize L name); [contradiction | reflexivity]. }
  split; [exact Hc |]. split; [exact Hres |].
  intros before Hshape.
  assert (Hname : name = lit "cat.png").
  { unfold name. rewrite Hshape, split_last;
      [reflexivity | discriminate | reflexivity | reflexivity]. }
  split; [exact Hname |].
  intros HL.
  assert (Hs : sanitize L name = lit "cat.png").
  { rewrite Hname. apply sanitize_clean; [exact HL | reflexivity]. }
  rewrite <- Hs. apply Hres. rewrite Hs. discriminate.
Qed.

Lemma C6_witness :
  resolve_filename ref_lib (lit "http://example.com/download?id=7")
    (lit "text/html")
    (lit "attachment; filename=" ++ [quote_char] ++ lit "cat.png"
     ++ [quote_char])
    quiet_world
  = (Ok (lit "cat.png"), quiet_world).
Proof.
  apply (proj2 (proj2
    (@C6_disposition_name_wins ref_lib (lit "http://example.com/download?id=7")
       (lit "text/html")
       (lit "attachment; filename=" ++ [quote_char] ++ lit "cat.png"
        ++ [quote_char])
       quiet_world eq_refl)) (lit "attachment; ") eq_refl).
  exact ref_lib_tables.
Defined.

Lemma lstrip_by_ext (p q : char -> bool) (s : str) :
  (forall c, In c s -> p c = q c) -> lstrip_by p s = lstrip_by q s.
Proof.
  induction s as [|c s IH]; intros H; cbn [lstrip_by]; [reflexivity |].
  rewrite <- (H c (or_introl eq_refl)).
  destruct (p c); [| reflexivity].
  apply IH. intros d Hd. apply H. right. exact Hd.
Qed.

(** On Latin-1 text, line 86 is decided by CPython's tables. *)
Lemma sanitize_latin1 (L : Lib) (s : str) :
  cpython_tables L ->
  forallb (fun c => (c <? 256)%N) s = true ->
  sanitize L s = sanitize ref_lib s.
Proof.
  intros HL Hs. rewrite forallb_forall in Hs. unfold sanitize.
  assert (Hf : filter (fun c => isalnum L c || char_in c [32; 45; 95; 46]%N) s
               = filter (fun c => isalnum ref_lib c
                                  || char_in c [32; 45; 95; 46]%N) s).
  { apply filter_ext_in. intros c Hc. specialize (Hs c Hc).
    apply N.ltb_lt in Hs. rewrite (isalnum_latin1 HL Hs). reflexivity. }
  rewrite Hf. unfold rstrip_by. f_equal. apply lstrip_by_ext.
  intros c Hc. apply in_rev in Hc. apply filter_In in Hc.
  destruct Hc as [Hc _]. specialize (Hs c Hc). apply N.ltb_lt in Hs.
  apply (isspace_latin1 HL Hs).
Qed.

(** C6 as stated fails on a header that carries filename="cat.png" and a
    parameter after it: of attachment; filename="cat.png"; size=5 the text
    after filename= is "cat.png"; size=5, the quote at its start is
    stripped, and line 86 removes the other quote, the semicolon and the
    equals sign: the resolved name is "cat.png size5", not cat.png. *)
Lemma C6_counterexample_trailing_parameter :
  let content_disposition :=
    lit "attachment; filename=" ++ [quote_char] ++ lit "cat.png"
    ++ [quote_char] ++ lit "; size=5" in
  contains (lit "filename=" ++ [quote_char] ++ lit "cat.png" ++ [quote_char])
    content_disposition = true /\
  (forall (L : Lib) (url content_type : str) (w : World),
      cpython_tables L ->
      resolve_filename L url content_type content_disposition w
      = (Ok (lit "cat.png size5"), w)) /\
  resolve_filename ref_lib (lit "http://example.com/download?id=7")
    (lit "image/png") content_disposition quiet_world
  = (Ok (lit "cat.png size5"), quiet_world) /\
  str_eqb (lit "cat.png size5") (lit "cat.png") = false.
Proof.
  cbv zeta.
  assert (Hall : forall (L : Lib) (url content_type : str) (w : World),
             cpython_tables L ->
             resolve_filename L url content_type
               (lit "attachment; filename=" ++ [quote_char] ++ lit "cat.png"
                ++ [quote_char] ++ lit "; size=5") w
             = (Ok (lit "cat.png size5"), w)).
  { intros L url content_type w HL.
    pose proof (@candidate_from_disposition L url content_type
                  (lit "attachment; filename=" ++ [quote_char]
                   ++ lit "cat.png" ++ [quote_char] ++ lit "; size=5")
                  w eq_refl) as Hc.
    rewrite (resolve_filename_of_candidate _ _ _ _ _ Hc).
    rewrite (sanitize_latin1 _ HL) by (vm_compute; reflexivity).
    reflexivity. }
  split; [reflexivity |]. split; [exact Hall |].
  split; [apply Hall, ref_lib_tables | reflexivity].
Qed.

(** C5, what lines 76-83 do.  With no filename in the content-disposition
    header, a last path segment that holds a period, and a content-type
    whose extension the segment does not end in, the candidate is the
    segment up to its FIRST period followed by the inferred extension: a
    segment with one period has its extension replaced, one with several
    loses everything after the first. *)
Theorem C5_extension_from_first_period :
  forall (L : Lib) (url content_type content_disposition : str)
         (parsed : ParseResult) (w : World) (dir segment ext : str),
    contains (lit "filename=") content_disposition = false ->
    urlparse L url = inr parsed ->
    unquote L (path parsed) = dir ++ lit "/" ++ segment ->
    contains (lit "/") segment = false ->
    contains (lit ".") segment = true ->
    guess_extension L (hd [] (split content_type (lit ";"))) = Some ext ->
    ext <> [] ->
    endswith segment ext = false ->
    candidate_filename L url content_type content_disposition w
      = (Ok (take_until 46%N segment ++ ext), w).
Proof.
  intros L url content_type cd parsed w dir segment ext
    Hcd Hparse Hpath Hslash Hdot Hguess Hext Hends.
  pose proof (@extract_filename_segment L url parsed w dir segment
                Hparse Hpath Hslash) as Hx.
  rewrite Hdot in Hx.
  rewrite (@candidate_from_url L url content_type cd w w segment Hcd Hx).
  unfold adjust_extension. rewrite Hguess, Hends, Hdot.
  destruct ext; [contradiction | reflexivity].
Qed.

(** The failing input: photo.v2.txt served as image/png becomes photo.png,
    not photo.v2.png; photo.txt becomes photo.png. *)
Lemma C5_witness :
  candidate_filename ref_lib (lit "http://example.com/photo.v2.txt")
    (lit "image/png") [] quiet_world = (Ok (lit "photo.png"), quiet_world) /\
  candidate_filename ref_lib (lit "http://example.com/photo.txt")
    (lit "image/png") [] quiet_world = (Ok (lit "photo.png"), quiet_world).
Proof.
  split.
  - apply (@C5_extension_from_first_period ref_lib
             (lit "http://example.com/photo.v2.txt") (lit "image/png") []
             {| scheme := lit "http"; netloc := lit "example.com";
                path := lit "/photo.v2.txt"; params := []; query := [];
                fragment := [] |}
             quiet_world [] (lit "photo.v2.txt") (lit ".png"));
      (reflexivity || discriminate).
  - apply (@C5_extension_from_first_period ref_lib
             (lit "http://example.com/photo.txt") (lit "image/png") []
             {| scheme := lit "http"; netloc := lit "example.com";
                path := lit "/photo.txt"; params := []; query := [];
                fragment := [] |}
             quiet_world [] (lit "photo.txt") (lit ".png"));
      (reflexivity || discriminate).
Defined.

(** ** The except clauses of download_image, lines 112-125 *)

(** C2, what the clauses do.  Every exception that is an [Exception] is
    handled with one printed line and the function returns False; but the
    line is chosen by the FIRST matching clause, and [RequestException]
    stands first: an HTTP status failure, a timeout and too many redirects
    are all reported as "Network error", the clauses written for them are
    never reached. *)
Theorem C2_failures_reported :
  forall (e : exn) (w : World),
    dispatch download_image_handlers e w =
      (if isinstance e Exception
       then (Ok false, set_stdout (stdout w ++ [failure_message e]) w)
       else (Raise e, w)) /\
    Forall (fun c =>
              failure_message {| cls := c; msg := msg e |}
              = cross_mark ++ lit " Network error: " ++ msg e)
      [ConnectionError; HTTPError; Timeout; TooManyRedirects].
Proof.
  intros [c m] w. split.
  - destruct c; reflexivity.
  - repeat constructor.
Qed.

(** A request that times out, and one answered with status 404: both are
    reported as a network error; "Request timed out" and "HTTP error" are
    never printed. *)
Example timeout_reported_as_network_error :
  let url := lit "http://example.com/cat.png" in
  let run :=
    download_image ref_lib (env_of (inl timed_out)) url directory_name
      quiet_world in
  fst run = Ok false /\
  stdout (snd run) =
    [globe ++ lit " Connecting to example.com...";
     cross_mark ++ lit " Network error: Read timed out. (read timeout=30)"].
Proof. split; vm_compute; reflexivity. Qed.

Example not_found_reported_as_network_error :
  let url := lit "http://example.com/cat.png" in
  let run :=
    download_image ref_lib (env_of (inr not_found)) url directory_name
      quiet_world in
  fst run = Ok false /\
  stdout (snd run) =
    [globe ++ lit " Connecting to example.com...";
     cross_mark ++ lit " Network error: 404 Client Error: Not Found for url: "
     ++ lit "http://example.com/cat.png"].
Proof. split; vm_compute; reflexivity. Qed.

(** ** The check of the content-type, lines 59-67 *)

(** Two descriptions of a world agree up to how its output was appended. *)
Ltac same_world :=
  unfold answered, started, cancelled, asked, connected, content_warning,
    confirm_prompt;
  unfold set_stdin, set_stdout, set_files, set_dirs, set_requested,
    set_invoked, set_clock_reads;
  cbn [stdin stdout files dirs requested invoked clock clock_reads];
  rewrite <- ?app_assoc; reflexivity.

Lemma confirm_image (L : Lib) (content_type : str) (w : World) :
  startswith content_type (lit "image/") = true ->
  confirm_content_type L content_type w = (Ok true, w).
Proof. intros H. unfold confirm_content_type. rewrite H. reflexivity. Qed.

Lemma confirm_answer (L : Lib) (content_type answer : str)
    (rest : list input_event) (w : World) :
  startswith content_type (lit "image/") = false ->
  stdin w = Line answer :: rest ->
  confirm_content_type L content_type w =
    if str_eqb (lower L answer) (lit "y")
    then (Ok true, asked rest w)
    else (Ok false,
          set_stdout (stdout (asked rest w) ++ [lit "Download cancelled."])
            (asked rest w)).
Proof.
  intros Hct Hin. unfold confirm_content_type. rewrite Hct. cbn [negb].
  unfold bind at 1. cbn [print].
  unfold bind at 1. unfold input. cbn [stdin set_stdout]. rewrite Hin.
  destruct (str_eqb (lower L answer) (lit "y")); cbn [negb].
  - unfold ret. f_equal. same_world.
  - unfold bind, print, ret. f_equal. same_world.
Qed.

(** Up to the check of the content-type, for a request that is answered
    with a status that is no error. *)
Lemma download_image_connected (L : Lib) (E : Env) (url save_directory : str)
    (parsed : ParseResult) (response : Response) (w : World) :
  urlparse L url = inr parsed ->
  http_get E url = inr response ->
  in_range 400 599 (status_code response) = false ->
  let content_type :=
    headers_get (headers response) (lit "content-type") [] in
  download_image L E url save_directory w =
    try_except
      (go_on <- confirm_content_type L content_type ;;
       if negb go_on then ret false
       else save_response L E url save_directory content_type response)
      download_image_handlers (connected url parsed w).
Proof.
  intros Hparse Hget Hstatus content_type.
  unfold download_image, try_except, download_image_try.
  rewrite (bind_ok _ (urlparse_step_ok L url _ Hparse)).
  unfold bind at 1. cbn [print].
  unfold bind at 1. unfold requests_get. rewrite Hget.
  assert (Hok : forall w0, raise_for_status response w0 = (Ok tt, w0)).
  { intros w0. unfold raise_for_status.
    unfold in_range in *. apply andb_false_iff in Hstatus.
    replace ((400 <=? status_code response)%N
             && (status_code response <=? 499)%N) with false.
    - replace ((500 <=? status_code response)%N
               && (status_code response <=? 599)%N) with false;
        [reflexivity |].
      symmetry. apply andb_false_iff.
      destruct Hstatus as [H | H]; [left | right].
      + apply N.leb_gt in H. apply N.leb_gt. lia.
      + exact H.
    - symmetry. apply andb_false_iff.
      destruct Hstatus as [H | H]; [left | right].
      + exact H.
      + apply N.leb_gt in H. apply N.leb_gt. lia. }
  rewrite (bind_ok _ (Hok _)). reflexivity.
Qed.

Lemma try_except_ok (A : Type) (block : M A)
    (clauses : list (exn_class * (exn -> M A))) (w w' : World) (a : A) :
  block w = (Ok a, w') -> try_except block clauses w = (Ok a, w').
Proof. intros H. unfold try_except. rewrite H. reflexivity. Qed.

(** C10.  At the prompt of lines 64-67 the download goes on exactly when
    the answer, lowercased, is the one character y: then lines 69-110 run;
    with any other answer "Download cancelled." is printed and the function
    returns False.  With CPython's tables, y and Y go on, yes does not. *)
Theorem C10_only_y_confirms :
  forall (L : Lib) (E : Env) (url save_directory : str)
         (parsed : ParseResult) (response : Response) (answer : str)
         (rest : list input_event) (w : World),
    urlparse L url = inr parsed ->
    http_get E url = inr response ->
    in_range 400 599 (status_code response) = false ->
    let content_type :=
      headers_get (headers response) (lit "content-type") [] in
    startswith content_type (lit "image/") = false ->
    stdin w = Line answer :: rest ->
    let w1 := asked rest (connected url parsed w) in
    (lower L answer = lit "y" ->
     confirm_content_type L content_type (connected url parsed w)
       = (Ok true, w1) /\
     download_image L E url save_directory w =
       try_except
         (save_response L E url save_directory content_type response)
         download_image_handlers w1) /\
    (lower L answer <> lit "y" ->
     confirm_content_type L content_type (connected url parsed w)
       = (Ok false, set_stdout (stdout w1 ++ [lit "Download cancelled."]) w1) /\
     download_image L E url save_directory w =
       (Ok false, set_stdout (stdout w1 ++ [lit "Download cancelled."]) w1)) /\
    (cpython_tables L ->
     (answer = lit "y" \/ answer = lit "Y" -> lower L answer = lit "y") /\
     (answer = lit "yes" -> lower L answer <> lit "y")).
Proof.
  intros L E url dir parsed response answer rest w Hparse Hget Hstatus
    content_type Hct Hin w1.
  pose proof (@confirm_answer L content_type answer rest
                (connected url parsed w) Hct Hin) as Hc.
  pose proof (@download_image_connected L E url dir parsed response w
                Hparse Hget Hstatus) as Hd.
  cbv zeta in Hd. fold content_type in Hd.
  split; [| split].
  - intros Hy. apply str_eqb_eq in Hy. rewrite Hy in Hc.
    split; [exact Hc |].
    rewrite Hd. unfold try_except. rewrite (bind_ok _ Hc). reflexivity.
  - intros Hn. apply str_eqb_neq in Hn. rewrite Hn in Hc.
    split; [exact Hc |].
    rewrite Hd. apply try_except_ok. rewrite (bind_ok _ Hc). reflexivity.
  - intros HL. split.
    + intros [-> | ->]; rewrite (lower_ascii HL) by reflexivity; reflexivity.
    + intros ->. rewrite (lower_ascii HL) by reflexivity. discriminate.
Qed.

Lemma C10_witness :
  fst (download_image ref_lib (env_of (inr html_page)) page_url
         directory_name (with_input [Line (lit "yes")])) = Ok false /\
  fst (confirm_content_type ref_lib (lit "text/html")
         (connected page_url page_parsed (with_input [Line (lit "Y")])))
    = Ok true.
Proof.
  split.
  - destruct (@C10_only_y_confirms ref_lib (env_of (inr html_page)) page_url
                directory_name page_parsed html_page (lit "yes") []
                (with_input [Line (lit "yes")])
                eq_refl eq_refl eq_refl eq_refl eq_refl) as [_ [Hno _]].
    destruct Hno as [_ Hd]; [discriminate |].
    rewrite Hd. reflexivity.
  - destruct (@C10_only_y_confirms ref_lib (env_of (inr html_page)) page_url
                directory_name page_parsed html_page (lit "Y") []
                (with_input [Line (lit "Y")])
                eq_refl eq_refl eq_refl eq_refl eq_refl) as [Hyes _].
    destruct (Hyes eq_refl) as [Hc _]. exact (f_equal (@fst _ _) Hc).
Defined.

Lemma failure_message_not_cancel (e : exn) :
  failure_message e <> lit "Download cancelled.".
Proof.
  unfold failure_message.
  destruct (isinstance e RequestException); [discriminate |].
  destruct (isinstance e IOError); discriminate.
Qed.

(** C4, as the code has it.  A response whose content-type does not start
    with image/ does not end the download by itself: the warning is printed
    and the operator is asked.  An answer that is not y (lowercased) ends
    it: "Download cancelled." is printed, a line no failure report equals,
    no file or directory is touched, and the function returns False, the
    value it returns after every failure it handles.  With y, lines 69-110
    run. *)
Theorem C4_non_image_needs_confirmation :
  forall (L : Lib) (E : Env) (url save_directory : str)
         (parsed : ParseResult) (response : Response) (answer : str)
         (rest : list input_event) (w : World),
    urlparse L url = inr parsed ->
    http_get E url = inr response ->
    in_range 400 599 (status_code response) = false ->
    let content_type :=
      headers_get (headers response) (lit "content-type") [] in
    startswith content_type (lit "image/") = false ->
    stdin w = Line answer :: rest ->
    let w1 := asked rest (connected url parsed w) in
    (lower L answer <> lit "y" ->
     download_image L E url save_directory w = (Ok false, cancelled w1) /\
     files (cancelled w1) = files w /\ dirs (cancelled w1) = dirs w) /\
    (lower L answer = lit "y" ->
     download_image L E url save_directory w =
       try_except
         (save_response L E url save_directory content_type response)
         download_image_handlers w1) /\
    (forall e, failure_message e <> lit "Download cancelled.") /\
    (forall e w0, isinstance e Exception = true ->
       dispatch download_image_handlers e w0
       = (Ok false, set_stdout (stdout w0 ++ [failure_message e]) w0)).
Proof.
  intros L E url dir parsed response answer rest w Hparse Hget Hstatus
    content_type Hct Hin w1.
  pose proof (@confirm_answer L content_type answer rest
                (connected url parsed w) Hct Hin) as Hc.
  pose proof (@download_image_connected L E url dir parsed response w
                Hparse Hget Hstatus) as Hd.
  cbv zeta in Hd. fold content_type in Hd. fold w1 in Hc.
  split; [| split; [| split]].
  - intros Hn. apply str_eqb_neq in Hn. rewrite Hn in Hc.
    split; [| split; reflexivity].
    rewrite Hd. apply try_except_ok. rewrite (bind_ok _ Hc). reflexivity.
  - intros Hy. apply str_eqb_eq in Hy. rewrite Hy in Hc.
    rewrite Hd. unfold try_except. rewrite (bind_ok _ Hc). reflexivity.
  - apply failure_message_not_cancel.
  - intros [c m] w0 He. destruct c; try discriminate He; reflexivity.
Qed.

Lemma C4_witness :
  download_image ref_lib (env_of (inr html_page)) page_url directory_name
    (with_input [Line (lit "n")])
  = (Ok false,
     cancelled (asked [] (connected page_url page_parsed
                            (with_input [Line (lit "n")])))).
Proof.
  destruct (@C4_non_image_needs_confirmation ref_lib (env_of (inr html_page))
              page_url directory_name page_parsed html_page (lit "n") []
              (with_input [Line (lit "n")])
              eq_refl eq_refl eq_refl eq_refl eq_refl) as [Hno _].
  destruct Hno as [Hd _]; [discriminate |]. exact Hd.
Defined.

(** C4 as stated fails: declining returns the very value that a failure
    returns.  The operator answers n to a page served as text/html; in the
    other run the request times out. *)
Lemma C4_counterexample_same_outcome :
  fst (download_image ref_lib (env_of (inr html_page)) page_url
         directory_name (with_input [Line (lit "n")]))
  = fst (download_image ref_lib (env_of (inl timed_out)) page_url
           directory_name (with_input [Line (lit "n")])) /\
  fst (download_image ref_lib (env_of (inr html_page)) page_url
         directory_name (with_input [Line (lit "n")])) = Ok false.
Proof. split; vm_compute; reflexivity. Qed.

(** ** The interactive loop, lines 143-163 *)

Lemma main_iteration_line (L : Lib) (E : Env) (line : str)
    (rest : list input_event) (w : World) :
  stdin w = Line line :: rest ->
  let url := strip_by (isspace L) line in
  main_iteration L E w =
    if is_quit L url then (Ok Break, answered rest goodbye w)
    else if is_empty url then (Ok Continue, answered rest warn_empty w)
    else if negb (has_http_scheme url)
    then (Ok Continue, answered rest warn_scheme w)
    else
      try_except (download_image L E url directory_name ;; ret Continue)
        [ (KeyboardInterrupt, fun _ => print interrupted ;; ret Break);
          (Exception, fun e =>
             print (cross_mark ++ lit " Unexpected error in main loop: "
                    ++ msg e) ;;
             ret Continue) ]
        (set_stdin rest (set_stdout (stdout w ++ [separator; url_prompt]) w)).
Proof.
  intros Hin url. unfold main_iteration.
  unfold bind at 1. cbn [print]. unfold try_except.
  unfold bind at 1. unfold input. cbn [stdin set_stdout]. rewrite Hin.
  fold url.
  destruct (is_quit L url).
  { unfold bind, print, ret. f_equal. same_world. }
  destruct (is_empty url).
  { unfold bind, print, ret. f_equal. same_world. }
  destruct (negb (has_http_scheme url)).
  { unfold bind, print, ret. f_equal. same_world. }
  match goal with
  | |- match ?m ?w1 with _ => _ end = match ?m ?w2 with _ => _ end =>
      replace w1 with w2 by same_world
  end.
  reflexivity.
Qed.

Lemma main_loop_step (L : Lib) (E : Env) (fuel : nat) (w w' : World)
    (c : control) :
  main_iteration L E w = (Ok c, w') ->
  main_loop L E (S fuel) w =
    match c with
    | Break => (Ok tt, w')
    | Continue => main_loop L E fuel w'
    end.
Proof.
  intros H. cbn [main_loop]. rewrite (bind_ok _ H).
  destruct c; reflexivity.
Qed.

Lemma print_all_app (lines : list str) (w : World) :
  print_all lines w = (Ok tt, set_stdout (stdout w ++ lines) w).
Proof.
  revert w; induction lines as [|l lines IH]; intros w.
  - cbn [print_all]. unfold ret. f_equal. destruct w.
    unfold set_stdout. cbn. rewrite app_nil_r. reflexivity.
  - cbn [print_all]. unfold bind at 1. cbn [print]. rewrite IH.
    f_equal. unfold set_stdout. cbn. rewrite <- app_assoc. reflexivity.
Qed.

(** Up to the first pass of the loop, when the directory can be made. *)
Lemma main_started (L : Lib) (E : Env) (fuel : nat) (w : World) :
  makedirs_error E directory_name = None ->
  main L E fuel w = main_loop L E fuel (started w).
Proof.
  intros Hmk. unfold main.
  rewrite (bind_ok _ (print_all_app banner w)).
  unfold bind at 1. unfold create_directory, try_except.
  unfold bind at 1. unfold makedirs. rewrite Hmk.
  cbn [dirs set_stdout].
  destruct (existsb (str_eqb directory_name) (dirs w)) eqn:Hex.
  - unfold bind, print, ret. cbn [negb].
    match goal with
    | |- main_loop _ _ _ ?w1 = main_loop _ _ _ ?w2 =>
        replace w1 with w2; [reflexivity |]
    end.
    unfold started. rewrite Hex. same_world.
  - unfold bind, print, ret. cbn [negb].
    match goal with
    | |- main_loop _ _ _ ?w1 = main_loop _ _ _ ?w2 =>
        replace w1 with w2; [reflexivity |]
    end.
    unfold started. rewrite Hex. same_world.
Qed.

(** ** What the steps of a download leave untouched *)

Section Frames.

Variable R : World -> World -> Prop.
Hypothesis R_refl : forall w, R w w.
Hypothesis R_trans : forall a b c, R a b -> R b c -> R a c.
Hypothesis R_stdout : forall v w, R w (set_stdout v w).
Hypothesis R_stdin : forall v w, R w (set_stdin v w).
Hypothesis R_clock : forall v w, R w (set_clock_reads v w).
Hypothesis R_requested : forall v w, R w (set_requested v w).

Lemma preserves_ret (A : Type) (a : A) : preserves R (ret a).
Proof. intros w r w' H. injection H as _ <-. apply R_refl. Qed.

Lemma preserves_raise (A : Type) (e : exn) : preserves R (@raise A e).
Proof. intros w r w' H. injection H as _ <-. apply R_refl. Qed.

Lemma preserves_bind (A B : Type) (m : M A) (k : A -> M B) :
  preserves R m -> (forall a, preserves R (k a)) -> preserves R (bind m k).
Proof.
  intros Hm Hk w r w' H. unfold bind in H.
  destruct (m w) as [[a | e |] w1] eqn:Hmw.
  - eapply R_trans; [eapply Hm, Hmw | eapply Hk, H].
  - injection H as _ <-. eapply Hm, Hmw.
  - injection H as _ <-. eapply Hm, Hmw.
Qed.

Lemma preserves_dispatch (A : Type)
    (clauses : list (exn_class * (exn -> M A))) :
  Forall (fun clause => forall e, preserves R (snd clause e)) clauses ->
  forall e, preserves R (dispatch clauses e).
Proof.
  induction 1 as [|[c h] rest Hh _ IH]; intros e; cbn [dispatch].
  - apply preserves_raise.
  - destruct (isinstance e c); [apply Hh | apply IH].
Qed.

Lemma preserves_try_except (A : Type) (block : M A)
    (clauses : list (exn_class * (exn -> M A))) :
  preserves R block ->
  Forall (fun clause => forall e, preserves R (snd clause e)) clauses ->
  preserves R (try_except block clauses).
Proof.
  intros Hb Hc w r w' H. unfold try_except in H.
  destruct (block w) as [[a | e |] w1] eqn:Hbw.
  - injection H as _ <-. eapply Hb, Hbw.
  - eapply R_trans; [eapply Hb, Hbw |].
    eapply preserves_dispatch; [exact Hc | exact H].
  - injection H as _ <-. eapply Hb, Hbw.
Qed.

Lemma preserves_index (A : Type) (xs : list A) (i : Z) :
  preserves R (index xs i).
Proof.
  unfold index. destruct (py_index xs i);
    [apply preserves_ret | apply preserves_raise].
Qed.

Lemma preserves_print (s : str) : preserves R (print s).
Proof. intros w r w' H. injection H as _ <-. apply R_stdout. Qed.

Lemma preserves_input (prompt : str) : preserves R (input prompt).
Proof.
  intros w r w' H. unfold input in H.
  destruct (stdin w) as [|[line |] rest]; injection H as _ <-.
  - apply R_stdout.
  - eapply R_trans; [apply R_stdout | apply R_stdin].
  - eapply R_trans; [apply R_stdout | apply R_stdin].
Qed.

Lemma preserves_now : preserves R datetime_now.
Proof. intros w r w' H. injection H as _ <-. apply R_clock. Qed.

Lemma preserves_urlparse_step (L : Lib) (url : str) :
  preserves R (urlparse_step L url).
Proof.
  unfold urlparse_step. destruct (urlparse L url);
    [apply preserves_raise | apply preserves_ret].
Qed.

Lemma preserves_requests_get (E : Env) (url : str) :
  preserves R (requests_get E url).
Proof.
  intros w r w' H. unfold requests_get in H.
  destruct (http_get E url); injection H as _ <-; apply R_requested.
Qed.

Lemma preserves_raise_for_status (response : Response) :
  preserves R (raise_for_status response).
Proof.
  unfold raise_for_status.
  destruct (in_range 400 499 _); [apply preserves_raise |].
  destruct (in_range 500 599 _); [apply preserves_raise | apply preserves_ret].
Qed.

Lemma preserves_unique_save_path (save_path : str) :
  preserves R (unique_save_path save_path).
Proof.
  intros w r w' H. unfold unique_save_path in H.
  destruct (unique_path _ _ _); injection H as _ <-; apply R_refl.
Qed.

(** The steps above, tried in turn on a goal [preserves R _]. *)
Ltac frame_step :=
  first
    [ apply preserves_ret | apply preserves_raise | apply preserves_print
    | apply preserves_input | apply preserves_now | apply preserves_index
    | apply preserves_urlparse_step | apply preserves_requests_get
    | apply preserves_raise_for_status | apply preserves_unique_save_path
    | apply preserves_bind; [| intros ?]
    | match goal with
      | |- preserves _ (if ?b then _ else _) => destruct b
      | |- preserves _ (match ?x with _ => _ end) => destruct x
      end ].

Lemma preserves_extract_filename (L : Lib) (url : str) :
  preserves R (extract_filename L url).
Proof. unfold extract_filename. repeat frame_step. Qed.

Lemma preserves_candidate_filename (L : Lib) (url ct cd : str) :
  preserves R (candidate_filename L url ct cd).
Proof.
  unfold candidate_filename.
  repeat first [apply preserves_extract_filename | frame_step].
Qed.

Lemma preserves_resolve_filename (L : Lib) (url ct cd : str) :
  preserves R (resolve_filename L url ct cd).
Proof.
  unfold resolve_filename.
  repeat first [apply preserves_candidate_filename | frame_step].
Qed.

Lemma preserves_confirm_content_type (L : Lib) (ct : str) :
  preserves R (confirm_content_type L ct).
Proof. unfold confirm_content_type. repeat frame_step. Qed.

Lemma preserves_handlers :
  Forall (fun clause : exn_class * (exn -> M bool) =>
            forall e, preserves R (snd clause e))
    download_image_handlers.
Proof.
  unfold download_image_handlers.
  repeat constructor; intros e; cbn [snd]; repeat frame_step.
Qed.

End Frames.

(** ** A download overwrites no file *)

Lemma disk_kept_refl (w : World) : disk_kept w w.
Proof. split; reflexivity. Qed.

Lemma disk_kept_trans (a b c : World) :
  disk_kept a b -> disk_kept b c -> disk_kept a c.
Proof. intros [H1 H2] [H3 H4]. split; congruence. Qed.

Lemma disk_kept_stdout (v : list str) (w : World) :
  disk_kept w (set_stdout v w).
Proof. split; reflexivity. Qed.

Lemma disk_kept_stdin (v : list input_event) (w : World) :
  disk_kept w (set_stdin v w).
Proof. split; reflexivity. Qed.

Lemma disk_kept_clock (v : nat) (w : World) :
  disk_kept w (set_clock_reads v w).
Proof. split; reflexivity. Qed.

Lemma disk_kept_requested (v : list str) (w : World) :
  disk_kept w (set_requested v w).
Proof. split; reflexivity. Qed.

Lemma only_touches_refl (p : str) (w : World) : only_touches p w w.
Proof. split; reflexivity. Qed.

Lemma only_touches_trans (p : str) (a b c : World) :
  only_touches p a b -> only_touches p b c -> only_touches p a c.
Proof.
  intros [H1 H2] [H3 H4]. split; [| congruence].
  intros q Hq. rewrite (H3 q Hq). apply H1, Hq.
Qed.

Lemma only_touches_kept (p : str) (w w' : World) :
  disk_kept w w' -> only_touches p w w'.
Proof.
  intros [Hf Hd]. split; [intros q _; rewrite Hf; reflexivity | exact Hd].
Qed.

Lemma only_touches_stdout (p : str) (v : list str) (w : World) :
  only_touches p w (set_stdout v w).
Proof. apply only_touches_kept, disk_kept_stdout. Qed.

Lemma only_touches_stdin (p : str) (v : list input_event) (w : World) :
  only_touches p w (set_stdin v w).
Proof. apply only_touches_kept, disk_kept_stdin. Qed.

Lemma only_touches_clock (p : str) (v : nat) (w : World) :
  only_touches p w (set_clock_reads v w).
Proof. apply only_touches_kept, disk_kept_clock. Qed.

Lemma only_touches_requested (p : str) (v : list str) (w : World) :
  only_touches p w (set_requested v w).
Proof. apply only_touches_kept, disk_kept_requested. Qed.

Create HintDb frames.

#[local] Hint Resolve disk_kept_refl disk_kept_trans disk_kept_stdout
  disk_kept_stdin disk_kept_clock disk_kept_requested only_touches_refl
  only_touches_trans only_touches_stdout only_touches_stdin
  only_touches_clock only_touches_requested : frames.

(** A goal [preserves R m] for one of the two relations, by the structure
    of [m]. *)
Ltac frame :=
  repeat first
    [ solve [eauto with frames]
    | apply preserves_ret | apply preserves_raise | apply preserves_print
    | apply preserves_input | apply preserves_now | apply preserves_index
    | apply preserves_urlparse_step | apply preserves_requests_get
    | apply preserves_raise_for_status | apply preserves_unique_save_path
    | apply preserves_resolve_filename
    | apply preserves_confirm_content_type
    | apply preserves_bind; [| | intros ?]
    | match goal with
      | |- preserves _ (if ?b then _ else _) => destruct b
      | |- preserves _ (match ?x with _ => _ end) => destruct x
      end ].

Lemma file_get_put_other (p q : str) (data : list N)
    (fs : list (str * list N)) :
  q <> p -> file_get q (file_put p data fs) = file_get q fs.
Proof.
  intros Hne. induction fs as [|[k old] fs IH]; cbn [file_put file_get].
  - destruct (str_eqb q p) eqn:He; [| reflexivity].
    apply str_eqb_eq in He. contradiction.
  - destruct (str_eqb p k) eqn:Hpk; cbn [file_get].
    + apply str_eqb_eq in Hpk. subst k.
      destruct (str_eqb q p) eqn:He; [| reflexivity].
      apply str_eqb_eq in He. contradiction.
    + rewrite IH. reflexivity.
Qed.

Lemma preserves_open_wb (E : Env) (p : str) :
  preserves (only_touches p) (open_wb E p).
Proof.
  intros w r w' H. unfold open_wb in H.
  destruct (open_error E p); injection H as _ <-.
  - apply only_touches_refl.
  - split; [| reflexivity]. intros q Hq. apply file_get_put_other, Hq.
Qed.

Lemma preserves_file_write (p : str) (chunk : list N) :
  preserves (only_touches p) (file_write p chunk).
Proof.
  intros w r w' H. unfold file_write in H.
  destruct (file_get p (files w)); injection H as _ <-;
    (split; [| reflexivity]); intros q Hq; apply file_get_put_other, Hq.
Qed.

Lemma preserves_write_chunks (p : str) (chunks : list chunk_event) :
  preserves (only_touches p) (write_chunks p chunks).
Proof.
  induction chunks as [|[data | e] rest IH]; cbn [write_chunks].
  - frame.
  - apply preserves_bind; [apply only_touches_trans | | intros _; exact IH].
    destruct (negb _); [apply preserves_file_write | frame].
  - frame.
Qed.

Lemma preserves_getsize (R : World -> World -> Prop) (p : str) :
  (forall w, R w w) -> preserves R (getsize p).
Proof.
  intros Hrefl w r w' H. unfold getsize in H.
  destruct (file_get p (files w)); injection H as _ <-; apply Hrefl.
Qed.

Lemma writes_fresh_after (w w1 w' : World) :
  disk_kept w w1 -> writes_fresh w1 w' -> writes_fresh w w'.
Proof.
  intros Hk [Hk' | [p [Hp Ht]]].
  - left. eapply disk_kept_trans; eassumption.
  - right. exists p. split.
    + unfold path_exists, existing in *. destruct Hk as [Hf Hd].
      rewrite Hf, Hd in Hp. exact Hp.
    + eapply only_touches_trans; [apply only_touches_kept, Hk | exact Ht].
Qed.

Lemma writes_fresh_before (w w1 w' : World) :
  writes_fresh w w1 -> disk_kept w1 w' -> writes_fresh w w'.
Proof.
  intros [Hk' | [p [Hp Ht]]] Hk.
  - left. eapply disk_kept_trans; eassumption.
  - right. exists p. split; [exact Hp |].
    eapply only_touches_trans; [exact Ht | apply only_touches_kept, Hk].
Qed.

Lemma preserves_bind_prefix (A B : Type) (m : M A) (k : A -> M B) :
  preserves disk_kept m -> (forall a, preserves writes_fresh (k a)) ->
  preserves writes_fresh (bind m k).
Proof.
  intros Hm Hk w r w' H. unfold bind in H.
  destruct (m w) as [[a | e |] w1] eqn:Hmw.
  - eapply writes_fresh_after; [eapply Hm, Hmw | eapply Hk, H].
  - injection H as _ <-. left. eapply Hm, Hmw.
  - injection H as _ <-. left. eapply Hm, Hmw.
Qed.

Lemma save_response_writes_fresh (L : Lib) (E : Env)
    (url save_directory content_type : str) (response : Response) :
  preserves writes_fresh
    (save_response L E url save_directory content_type response).
Proof.
  unfold save_response. apply preserves_bind_prefix; [frame |].
  intros filename w r w' H.
  destruct (unique_save_path_free (path_join save_directory filename) w)
    as [n [Hrun Hfree]].
  rewrite (bind_ok _ Hrun) in H. cbv beta in H. right.
  exists (attempt (path_join save_directory filename) n).
  split; [exact Hfree |].
  match type of H with
  | ?m w = _ =>
      assert (Hrest : preserves
                (only_touches (attempt (path_join save_directory filename) n))
                m)
  end.
  { repeat first
      [ apply preserves_open_wb | apply preserves_write_chunks
      | apply preserves_getsize; apply only_touches_refl
      | apply preserves_bind; [apply only_touches_trans | | intros ?]
      | apply preserves_print; apply only_touches_stdout
      | apply preserves_ret; apply only_touches_refl ]. }
  exact (Hrest w r w' H).
Qed.

Lemma download_image_try_writes_fresh (L : Lib) (E : Env)
    (url save_directory : str) :
  preserves writes_fresh (download_image_try L E url save_directory).
Proof.
  unfold download_image_try.
  repeat (apply preserves_bind_prefix; [frame | intros ?]).
  destruct (negb _).
  - intros w r w' H. injection H as _ <-. left. apply disk_kept_refl.
  - apply save_response_writes_fresh.
Qed.

(** Whatever the URL, the answers of the web and of the operator, and
    however the download ends: every file that was there keeps its
    contents, and no directory is made or removed. *)
Lemma download_image_keeps_files (L : Lib) (E : Env)
    (url save_directory : str) (w w' : World) (r : result bool) :
  download_image L E url save_directory w = (r, w') ->
  dirs w' = dirs w /\
  forall q data,
    file_get q (files w) = Some data -> file_get q (files w') = Some data.
Proof.
  intros H. unfold download_image in H.
  assert (Hfresh : writes_fresh w w').
  { unfold try_except in H.
    destruct (download_image_try L E url save_directory
                (set_invoked (invoked w ++ [url]) w))
      as [[b | e |] w1] eqn:Htry;
      apply download_image_try_writes_fresh in Htry.
    - injection H as _ <-.
      eapply writes_fresh_after; [| exact Htry]. split; reflexivity.
    - eapply writes_fresh_after; [split; reflexivity |].
      eapply writes_fresh_before; [exact Htry |].
      eapply (preserves_dispatch disk_kept_refl);
        [apply preserves_handlers; eauto with frames | exact H].
    - injection H as _ <-.
      eapply writes_fresh_after; [| exact Htry]. split; reflexivity. }
  destruct Hfresh as [[Hf Hd] | [p [Hp [Ht Hd]]]].
  - split; [exact Hd |]. intros q data Hq. rewrite Hf. exact Hq.
  - split; [exact Hd |]. intros q data Hq. rewrite Ht; [exact Hq |].
    intros ->. unfold path_exists, existing in Hp.
    assert (Hin : In p (map fst (files w) ++ dirs w)).
    { apply in_or_app. left. clear Hp Ht.
      induction (files w) as [|[k old] fs IH]; cbn [file_get] in Hq;
        [discriminate |].
      destruct (str_eqb p k) eqn:He.
      - apply str_eqb_eq in He. left. symmetry. exact He.
      - right. apply IH, Hq. }
    apply mem_In in Hin. rewrite Hin in Hp. discriminate Hp.
Qed.

(** ** Every fetch of a run is for a valid URL *)

Section DiskSteps.

Variable R : World -> World -> Prop.
Hypothesis R_refl : forall w, R w w.
Hypothesis R_trans : forall a b c, R a b -> R b c -> R a c.
Hypothesis R_files : forall v w, R w (set_files v w).
Hypothesis R_dirs : forall v w, R w (set_dirs v w).

Lemma any_open_wb (E : Env) (p : str) : preserves R (open_wb E p).
Proof.
  intros w r w' H. unfold open_wb in H.
  destruct (open_error E p); injection H as _ <-;
    [apply R_refl | apply R_files].
Qed.

Lemma any_file_write (p : str) (chunk : list N) :
  preserves R (file_write p chunk).
Proof.
  intros w r w' H. unfold file_write in H.
  destruct (file_get p (files w)); injection H as _ <-; apply R_files.
Qed.

Lemma any_write_chunks (p : str) (chunks : list chunk_event) :
  preserves R (write_chunks p chunks).
Proof.
  induction chunks as [|[data | e] rest IH]; cbn [write_chunks].
  - apply preserves_ret, R_refl.
  - apply preserves_bind; [exact R_trans | | intros _; exact IH].
    destruct (negb _); [apply any_file_write | apply preserves_ret, R_refl].
  - apply preserves_raise, R_refl.
Qed.

Lemma any_makedirs (E : Env) (d : str) : preserves R (makedirs E d).
Proof.
  intros w r w' H. unfold makedirs in H.
  destruct (makedirs_error E d); [injection H as _ <-; apply R_refl |].
  destruct (existsb _ _); injection H as _ <-; [apply R_refl | apply R_dirs].
Qed.

End DiskSteps.

Lemma extends_by_refl (proj : World -> list str) (w : World) :
  extends_by proj w w.
Proof. exists []. split; [symmetry; apply app_nil_r | reflexivity]. Qed.

Lemma extends_by_trans (proj : World -> list str) (a b c : World) :
  extends_by proj a b -> extends_by proj b c -> extends_by proj a c.
Proof.
  intros [n1 [H1 V1]] [n2 [H2 V2]]. exists (n1 ++ n2). split.
  - rewrite H2, H1, app_assoc. reflexivity.
  - rewrite forallb_app, V1, V2. reflexivity.
Qed.

Lemma extends_by_same (proj : World -> list str) (w w' : World) :
  proj w' = proj w -> extends_by proj w w'.
Proof.
  intros H. exists []. split; [rewrite app_nil_r; exact H | reflexivity].
Qed.

Lemma fetches_valid_refl (w : World) : fetches_valid w w.
Proof. split; apply extends_by_refl. Qed.

Lemma fetches_valid_trans (a b c : World) :
  fetches_valid a b -> fetches_valid b c -> fetches_valid a c.
Proof.
  intros [H1 H2] [H3 H4]. split; eapply extends_by_trans; eassumption.
Qed.

Lemma fetches_valid_same (w w' : World) :
  invoked w' = invoked w -> requested w' = requested w -> fetches_valid w w'.
Proof. intros H1 H2. split; apply extends_by_same; assumption. Qed.

Lemma fetches_valid_stdout (v : list str) (w : World) :
  fetches_valid w (set_stdout v w).
Proof. apply fetches_valid_same; reflexivity. Qed.

Lemma fetches_valid_stdin (v : list input_event) (w : World) :
  fetches_valid w (set_stdin v w).
Proof. apply fetches_valid_same; reflexivity. Qed.

Lemma fetches_valid_clock (v : nat) (w : World) :
  fetches_valid w (set_clock_reads v w).
Proof. apply fetches_valid_same; reflexivity. Qed.

Lemma fetches_valid_files (v : list (str * list N)) (w : World) :
  fetches_valid w (set_files v w).
Proof. apply fetches_valid_same; reflexivity. Qed.

Lemma fetches_valid_dirs (v : list str) (w : World) :
  fetches_valid w (set_dirs v w).
Proof. apply fetches_valid_same; reflexivity. Qed.

#[local] Hint Resolve fetches_valid_refl fetches_valid_trans
  fetches_valid_stdout fetches_valid_stdin fetches_valid_clock
  fetches_valid_files fetches_valid_dirs : frames.

Lemma fetches_valid_request (E : Env) (url : str) :
  valid_url url = true -> preserves fetches_valid (requests_get E url).
Proof.
  intros Hv w r w' H. unfold requests_get in H.
  assert (Hw : fetches_valid w (set_requested (requested w ++ [url]) w)).
  { split; [apply extends_by_same; reflexivity |].
    exists [url]. split; [reflexivity |]. cbn [forallb]. rewrite Hv.
    reflexivity. }
  destruct (http_get E url); injection H as _ <-; exact Hw.
Qed.

Lemma fetches_valid_download (L : Lib) (E : Env) (url save_directory : str) :
  valid_url url = true ->
  preserves fetches_valid (download_image L E url save_directory).
Proof.
  intros Hv w r w' H. unfold download_image in H.
  eapply fetches_valid_trans with (b := set_invoked (invoked w ++ [url]) w).
  { split; [| apply extends_by_same; reflexivity].
    exists [url]. split; [reflexivity |]. cbn [forallb]. rewrite Hv.
    reflexivity. }
  revert H. generalize (set_invoked (invoked w ++ [url]) w). intros w0 H.
  assert (Hp : preserves fetches_valid
                 (try_except (download_image_try L E url save_directory)
                    download_image_handlers)).
  { apply preserves_try_except; eauto with frames.
    - unfold download_image_try, save_response.
      repeat first
        [ apply fetches_valid_request; exact Hv
        | apply any_open_wb | apply any_write_chunks
        | apply preserves_getsize
        | solve [eauto with frames]
        | apply preserves_ret | apply preserves_raise | apply preserves_print
        | apply preserves_urlparse_step | apply preserves_raise_for_status
        | apply preserves_unique_save_path
        | apply preserves_resolve_filename
        | apply preserves_confirm_content_type
        | apply preserves_bind; [| | intros ?]
        | match goal with
          | |- preserves _ (if ?b then _ else _) => destruct b
          end ].
    - apply preserves_handlers; eauto with frames. }
  exact (Hp w0 r w' H).
Qed.

Lemma fetches_valid_iteration (L : Lib) (E : Env) :
  preserves fetches_valid (main_iteration L E).
Proof.
  unfold main_iteration.
  apply preserves_bind; [eauto with frames | | intros _].
  { apply preserves_print; eauto with frames. }
  apply preserves_try_except; eauto with frames.
  - apply preserves_bind; [eauto with frames | | intros line].
    { apply preserves_input; eauto with frames. }
    destruct (is_quit L _).
    { repeat first [ solve [eauto with frames] | apply preserves_ret
                   | apply preserves_print
                   | apply preserves_bind; [| | intros ?] ]. }
    destruct (is_empty (strip_by (isspace L) line)) eqn:Hempty.
    { repeat first [ solve [eauto with frames] | apply preserves_ret
                   | apply preserves_print
                   | apply preserves_bind; [| | intros ?] ]. }
    destruct (has_http_scheme (strip_by (isspace L) line)) eqn:Hscheme;
      cbn [negb].
    + apply preserves_bind; [eauto with frames | | intros _].
      * apply fetches_valid_download. unfold valid_url.
        rewrite Hempty, Hscheme. reflexivity.
      * apply preserves_ret; eauto with frames.
    + repeat first [ solve [eauto with frames] | apply preserves_ret
                   | apply preserves_print
                   | apply preserves_bind; [| | intros ?] ].
  - repeat first
      [ apply Forall_nil
      | apply Forall_cons;
        [ intros e; cbn [snd];
          repeat first [ solve [eauto with frames] | apply preserves_ret
                       | apply preserves_print
                       | apply preserves_bind; [| | intros ?] ] | ] ].
Qed.

Lemma fetches_valid_loop (L : Lib) (E : Env) (fuel : nat) :
  preserves fetches_valid (main_loop L E fuel).
Proof.
  induction fuel as [|fuel IH]; cbn [main_loop].
  - intros w r w' H. injection H as _ <-. apply fetches_valid_refl.
  - apply preserves_bind; [eauto with frames | | intros c].
    + apply fetches_valid_iteration.
    + destruct c; [apply preserves_ret; eauto with frames | exact IH].
Qed.

Lemma fetches_valid_main (L : Lib) (E : Env) (fuel : nat) :
  preserves fetches_valid (main L E fuel).
Proof.
  unfold main.
  apply preserves_bind; [eauto with frames | | intros _].
  { induction banner as [|l ls IH]; cbn [print_all].
    - apply preserves_ret; eauto with frames.
    - apply preserves_bind; [eauto with frames | | intros _; exact IH].
      apply preserves_print; eauto with frames. }
  apply preserves_bind; [eauto with frames | | intros ready].
  - unfold create_directory. apply preserves_try_except; eauto with frames.
    + repeat first [ apply any_makedirs | solve [eauto with frames]
                   | apply preserves_ret | apply preserves_print
                   | apply preserves_bind; [| | intros ?] ].
    + repeat first
        [ apply Forall_nil
        | apply Forall_cons;
          [ intros e; cbn [snd];
            repeat first [ solve [eauto with frames] | apply preserves_ret
                         | apply preserves_print
                         | apply preserves_bind; [| | intros ?] ] | ] ].
  - destruct (negb ready);
      [apply preserves_ret; eauto with frames | apply fetches_valid_loop].
Qed.

Lemma lstrip_by_fixed (p : char -> bool) (s : str) :
  match s with [] => True | c :: _ => p c = false end -> lstrip_by p s = s.
Proof.
  destruct s as [|c s]; cbn [lstrip_by]; [reflexivity |].
  intros ->. reflexivity.
Qed.

Lemma forallb_of_map (f : char -> bool) (g : char -> char) (s : str) :
  forallb f (map g s) = forallb (fun c => f (g c)) s.
Proof.
  induction s as [|c s IH]; cbn [map forallb]; [| rewrite IH]; reflexivity.
Qed.

(** A line of ASCII letters is its own [strip()]. *)
Lemma strip_letters (L : Lib) (line : str) :
  cpython_tables L ->
  forallb is_ascii line = true ->
  forallb (fun c => in_range 97 122 (ascii_lower c)) line = true ->
  strip_by (isspace L) line = line.
Proof.
  intros HL Hascii Hletters.
  assert (Hns : forall c, In c line -> isspace L c = false).
  { intros c Hc. rewrite forallb_forall in Hascii, Hletters.
    specialize (Hascii c Hc). specialize (Hletters c Hc).
    unfold is_ascii in Hascii. apply N.ltb_lt in Hascii.
    rewrite (isspace_latin1 HL) by lia.
    pose proof (@forall_below
      (fun c => negb (in_range 97 122 (ascii_lower c))
                || negb (latin1_isspace c)) 128%N) as H.
    specialize (H ltac:(vm_compute; reflexivity) c Hascii). cbv beta in H.
    rewrite Hletters in H. cbn [negb orb] in H.
    apply negb_true_iff in H. exact H. }
  unfold strip_by. rewrite lstrip_by_fixed.
  - apply rstrip_by_fixed. destruct (rev line) as [|c r] eqn:Hr; [exact I |].
    apply Hns. apply in_rev. rewrite Hr. left. reflexivity.
  - destruct line as [|c r]; [exact I |]. apply Hns. left. reflexivity.
Qed.

(** C9.  A line that, stripped and lowercased, is quit, exit or q (with
    CPython's tables: any line equal to one of them up to the case of its
    letters) ends the loop: the goodbye is printed and nothing else
    happens; given at the first prompt of [main], the run ends with no
    request made, no call of [download_image], no file touched, and the
    directory of the start-up as the only change on disk.  A line that is
    empty once stripped, or does not start with http:// or https://, is
    answered with a warning and the loop goes to the next prompt:
    [download_image] is not called and no request is made.  And in every
    run of [main], whatever is typed, each call of [download_image] and
    each request is for a URL that is not empty and starts with http:// or
    https://. *)
Theorem C9_quit_and_rejected_input :
  forall (L : Lib) (E : Env) (line : str) (rest : list input_event)
         (w : World),
    stdin w = Line line :: rest ->
    let url := strip_by (isspace L) line in
    (is_quit L url = true ->
     main_iteration L E w = (Ok Break, answered rest goodbye w) /\
     (forall fuel,
        main_loop L E (S fuel) w = (Ok tt, answered rest goodbye w)) /\
     (makedirs_error E directory_name = None ->
      forall fuel,
        let final := answered rest goodbye (started w) in
        main L E (S fuel) w = (Ok tt, final) /\
        requested final = requested w /\ invoked final = invoked w /\
        files final = files w /\
        (forall d, In d (dirs final) <-> In d (dirs w) \/ d = directory_name)))
    /\
    (is_quit L url = false ->
     url = [] \/ has_http_scheme url = false ->
     exists warning,
       (warning = warn_empty \/ warning = warn_scheme) /\
       main_iteration L E w = (Ok Continue, answered rest warning w) /\
       (forall fuel,
          main_loop L E (S fuel) w
          = main_loop L E fuel (answered rest warning w)) /\
       invoked (answered rest warning w) = invoked w /\
       requested (answered rest warning w) = requested w /\
       files (answered rest warning w) = files w)
    /\
    (cpython_tables L ->
     forall typed, forallb is_ascii typed = true ->
       In (map ascii_lower typed) [lit "quit"; lit "exit"; lit "q"] ->
       is_quit L (strip_by (isspace L) typed) = true)
    /\
    (forall fuel w0,
       exists calls requests,
         invoked (snd (main L E fuel w0)) = invoked w0 ++ calls /\
         requested (snd (main L E fuel w0)) = requested w0 ++ requests /\
         forallb valid_url calls = true /\
         forallb valid_url requests = true).
Proof.
  intros L E line rest w Hin url.
  pose proof (@main_iteration_line L E line rest w Hin) as Hit.
  cbv zeta in Hit. fold url in Hit.
  split; [| split; [| split]].
  - intros Hq. rewrite Hq in Hit.
    split; [exact Hit |]. split.
    + intros fuel. rewrite (@main_loop_step L E fuel _ _ _ Hit). reflexivity.
    + intros Hmk fuel final. split; [| split; [| split; [| split]]];
        try reflexivity.
      * rewrite (@main_started L E (S fuel) w Hmk).
        assert (Hin' : stdin (started w) = Line line :: rest) by exact Hin.
        pose proof (@main_iteration_line L E line rest (started w) Hin')
          as Hit'.
        cbv zeta in Hit'. fold url in Hit'. rewrite Hq in Hit'.
        rewrite (@main_loop_step L E fuel _ _ _ Hit'). reflexivity.
      * intros d. unfold final, answered, started.
        cbn [dirs set_stdin set_stdout set_dirs].
        destruct (existsb (str_eqb directory_name) (dirs w)) eqn:Hex.
        -- split; [intros H; left; exact H |].
           intros [H | ->]; [exact H | apply mem_In, Hex].
        -- rewrite in_app_iff. cbn [In]. intuition.
  - intros Hq Hbad. rewrite Hq in Hit.
    assert (Hw : exists warning,
               (warning = warn_empty \/ warning = warn_scheme) /\
               main_iteration L E w = (Ok Continue, answered rest warning w)).
    { destruct (is_empty url) eqn:He.
      - exists warn_empty. split; [left; reflexivity | exact Hit].
      - destruct Hbad as [Hnil | Hs].
        + rewrite Hnil in He. discriminate He.
        + rewrite Hs in Hit. exists warn_scheme.
          split; [right; reflexivity | exact Hit]. }
    destruct Hw as [warning [Hwhich Hrun]].
    exists warning. split; [exact Hwhich |]. split; [exact Hrun |].
    split; [| repeat split].
    intros fuel. rewrite (@main_loop_step L E fuel _ _ _ Hrun). reflexivity.
  - intros HL typed Hascii Hs.
    rewrite (strip_letters typed HL Hascii).
    + unfold is_quit. rewrite (lower_ascii HL _ Hascii).
      apply existsb_exists. exists (map ascii_lower typed).
      split; [exact Hs | apply str_eqb_refl].
    + rewrite <- (forallb_of_map (in_range 97 122) ascii_lower).
      cbn [In] in Hs.
      destruct Hs as [<- | [<- | [<- | []]]]; reflexivity.
  - intros fuel w0.
    destruct (main L E fuel w0) as [r w'] eqn:Hrun.
    apply fetches_valid_main in Hrun.
    destruct Hrun as [[calls [Hc Vc]] [requests [Hr Vr]]].
    exists calls, requests. cbn [snd]. repeat split; assumption.
Qed.

Lemma C9_witness :
  main ref_lib (env_of (inl timed_out)) 1 (with_input [Line (lit "QUIT")])
  = (Ok tt, answered [] goodbye (started (with_input [Line (lit "QUIT")])))
  /\
  main_iteration ref_lib (env_of (inr html_page))
    (with_input [Line (lit "not-a-url")])
  = (Ok Continue,
     answered [] warn_scheme (with_input [Line (lit "not-a-url")])).
Proof.
  split.
  - destruct (@C9_quit_and_rejected_input ref_lib (env_of (inl timed_out))
                (lit "QUIT") [] (with_input [Line (lit "QUIT")]) eq_refl)
      as [Hquit _].
    destruct (Hquit eq_refl) as [_ [_ Hmain]].
    destruct (Hmain eq_refl 0) as [Hrun _]. exact Hrun.
  - destruct (@C9_quit_and_rejected_input ref_lib (env_of (inr html_page))
                (lit "not-a-url") [] (with_input [Line (lit "not-a-url")])
                eq_refl) as [_ [Hrej _]].
    destruct (Hrej eq_refl (or_intror eq_refl))
      as [warning [[Hw | Hw] [Hrun _]]].
    + exfalso. rewrite Hw in Hrun.
      apply (f_equal (fun r => stdout (snd r))) in Hrun.
      vm_compute in Hrun. discriminate Hrun.
    + rewrite Hw in Hrun. exact Hrun.
Defined.


(** ** Further properties of the program *)

(** A download, however it ends, leaves every file that existed with its
    contents and makes or removes no directory: what it writes, it writes
    to a path that did not exist (lines 93-105). *)
Theorem download_never_overwrites :
  forall (L : Lib) (E : Env) (url save_directory : str) (w : World),
    let w' := snd (download_image L E url save_directory w) in
    dirs w' = dirs w /\
    forall q data,
      file_get q (files w) = Some data -> file_get q (files w') = Some data.
Proof.
  intros L E url save_directory w w'.
  destruct (download_image L E url save_directory w) as [r w1] eqn:Hrun.
  exact (download_image_keeps_files L E url save_directory w Hrun).
Qed.

(** The example of the specification: content-type image/png, no
    content-disposition and a URL that ends in photo.txt resolve to a name
    that ends in .png and not in .txt; so does every URL, with a type that
    [mimetypes] knows as .png. *)
Theorem png_type_gives_png_name :
  forall (L : Lib) (url content_type content_disposition : str)
         (parsed : ParseResult) (w : World),
    cpython_tables L ->
    urlparse L url = inr parsed ->
    contains (lit "filename=") content_disposition = false ->
    guess_extension L (hd [] (split content_type (lit ";")))
      = Some (lit ".png") ->
    exists filename w',
      resolve_filename L url content_type content_disposition w
        = (Ok filename, w') /\
      endswith filename (lit ".png") = true /\
      endswith filename (lit ".txt") = false.
Proof.
  intros L url content_type cd parsed w HL Hparse Hcd Hguess.
  destruct (@extract_filename_ok L url parsed w Hparse)
    as [name [w' [Hx [Hdot Hw]]]].
  pose proof (@candidate_from_url L url content_type cd w w' name Hcd Hx)
    as Hc.
  assert (Hends : exists stem,
             adjust_extension L content_type name = stem ++ lit ".png").
  { unfold adjust_extension. rewrite Hguess, Hdot. cbn [is_empty negb andb].
    destruct (endswith name (lit ".png")) eqn:He; cbn [negb].
    - apply endswith_iff in He. exact He.
    - eexists; reflexivity. }
  destruct Hends as [stem Hstem]. rewrite Hstem in Hc.
  assert (Hsan : exists kept_stem,
             sanitize L (stem ++ lit ".png") = kept_stem ++ lit ".png").
  { unfold sanitize. rewrite filter_app.
    set (f := fun c => isalnum L c || char_in c [32; 45; 95; 46]%N).
    assert (Hpng : filter f (lit ".png") = lit ".png").
    { apply filter_fixed. unfold f. cbn [lit list_ascii_of_string map forallb].
      rewrite !(isalnum_latin1 HL) by (vm_compute; reflexivity).
      reflexivity. }
    rewrite Hpng. exists (filter f stem).
    apply rstrip_by_fixed. rewrite rev_app_distr.
    cbn [lit list_ascii_of_string map rev app].
    rewrite (isspace_latin1 HL) by (vm_compute; reflexivity). reflexivity. }
  destruct Hsan as [kept_stem Hk].
  rewrite (resolve_filename_of_candidate _ _ _ _ _ Hc), Hk.
  replace (is_empty (kept_stem ++ lit ".png")) with false
    by (destruct kept_stem; reflexivity).
  eexists; eexists. split; [reflexivity |]. split.
  - apply endswith_app.
  - unfold endswith. rewrite rev_app_distr. reflexivity.
Qed.

Lemma png_type_gives_png_name_witness :
  resolve_filename ref_lib (lit "http://example.com/a/photo.txt")
    (lit "image/png") [] quiet_world
  = (Ok (lit "photo.png"), quiet_world).
Proof.
  destruct (@png_type_gives_png_name ref_lib
              (lit "http://example.com/a/photo.txt") (lit "image/png") []
              {| scheme := lit "http"; netloc := lit "example.com";
                 path := lit "/a/photo.txt"; params := []; query := [];
                 fragment := [] |}
              quiet_world ref_lib_tables eq_refl eq_refl eq_refl)
    as [filename [w' [Hrun _]]].
  reflexivity.
Defined.

(** At the end of standard input the loop does not stop: [input] raises
    EOFError, the clause for [Exception] of line 168 prints it, and the
    next pass does the same; no amount of fuel ends the run. *)
Theorem loop_spins_at_end_of_input :
  forall (L : Lib) (E : Env) (fuel : nat) (w : World),
    stdin w = [] -> fst (main_loop L E fuel w) = Diverge.
Proof.
  intros L E fuel. induction fuel as [|fuel IH]; intros w Hin.
  - reflexivity.
  - cbn [main_loop].
    assert (Hit : exists w', main_iteration L E w = (Ok Continue, w')
                             /\ stdin w' = []).
    { unfold main_iteration. unfold bind at 1. cbn [print].
      unfold try_except. unfold bind at 1. unfold input.
      cbn [stdin set_stdout]. rewrite Hin. cbn [dispatch isinstance cls mro
        existsb exn_class_beq orb]. cbv iota.
      eexists. split; [reflexivity | exact Hin]. }
    destruct Hit as [w' [Hrun Hin']].
    rewrite (bind_ok _ Hrun). apply IH, Hin'.
Qed.

Lemma loop_spins_witness :
  fst (main_loop ref_lib (env_of (inr html_page)) 5 quiet_world) = Diverge.
Proof.
  exact (@loop_spins_at_end_of_input ref_lib (env_of (inr html_page)) 5
           quiet_world eq_refl).
Defined.

(** ** create_directory, lines 14-22 *)

Lemma create_directory_made (E : Env) (d : str) (w : World) :
  makedirs_error E d = None ->
  create_directory E d w =
    (Ok true,
     set_dirs (if existsb (str_eqb d) (dirs w) then dirs w else dirs w ++ [d])
       (set_stdout
          (stdout w ++ [check_mark ++ lit " Directory '" ++ d
                        ++ lit "' is ready"]) w)).
Proof.
  intros Hmk. unfold create_directory, try_except.
  unfold bind at 1. unfold makedirs. rewrite Hmk.
  destruct (existsb (str_eqb d) (dirs w)) eqn:Hex;
    unfold bind, print, ret; reflexivity.
Qed.

Lemma create_directory_refused (E : Env) (d : str) (e : exn) (w : World) :
  makedirs_error E d = Some e ->
  create_directory E d w =
    if isinstance e OSError
    then (Ok false,
          set_stdout
            (stdout w ++ [ballot_x ++ lit " Error creating directory: "
                          ++ msg e]) w)
    else (Raise e, w).
Proof.
  intros Hmk. unfold create_directory, try_except.
  unfold bind at 1. unfold makedirs. rewrite Hmk.
  cbn [dispatch]. destruct (isinstance e OSError); reflexivity.
Qed.

(** [create_directory] (lines 14-22) answers True exactly when the
    operating system makes the directory or finds it there: the directory
    then exists, the line "Directory '...' is ready" is printed, and a
    second call succeeds again and leaves the directories as they are.
    When the system refuses with an OSError it answers False and prints the
    error; an exception of another kind goes on to the caller.  No file, no
    pending input and no request is touched, every directory that existed
    stays, and for a name of one component no directory but that one is
    ever added. *)
Theorem create_directory_ready :
  forall (E : Env) (d : str) (w : World),
    let r := fst (create_directory E d w) in
    let w' := snd (create_directory E d w) in
    ((r = Ok true /\ makedirs_error E d = None /\ In d (dirs w') /\
      path_exists w' d = true /\
      stdout w' = stdout w ++ [check_mark ++ lit " Directory '" ++ d
                               ++ lit "' is ready"])
     \/
     (exists e, makedirs_error E d = Some e /\
        ((isinstance e OSError = true /\ r = Ok false /\
          stdout w' = stdout w ++ [ballot_x
                                   ++ lit " Error creating directory: "
                                   ++ msg e])
         \/
         (isinstance e OSError = false /\ r = Raise e /\ w' = w)))) /\
    files w' = files w /\ stdin w' = stdin w /\
    requested w' = requested w /\
    (forall q, In q (dirs w) -> In q (dirs w')) /\
    (In d (dirs w) -> dirs w' = dirs w) /\
    (~ In 47%N d ->
     (r <> Ok true -> dirs w' = dirs w) /\
     (forall q, In q (dirs w') -> In q (dirs w) \/ q = d)) /\
    (r = Ok true ->
     fst (create_directory E d w') = Ok true /\
     dirs (snd (create_directory E d w')) = dirs w').
Proof.
  intros E d w. cbv zeta.
  destruct (makedirs_error E d) as [e |] eqn:Hmk.
  - rewrite (create_directory_refused E d w Hmk).
    destruct (isinstance e OSError) eqn:Hos; cbn [fst snd].
    + split.
      { right. exists e. split; [reflexivity |]. left.
        repeat split; exact Hos. }
      repeat split; try reflexivity; try tauto; discriminate.
    + split.
      { right. exists e. split; [reflexivity |]. right.
        repeat split; exact Hos. }
      repeat split; try reflexivity; try tauto; discriminate.
  - rewrite (create_directory_made E d w Hmk). cbn [fst snd].
    set (ds := if existsb (str_eqb d) (dirs w) then dirs w
               else dirs w ++ [d]).
    assert (Hin : In d ds).
    { unfold ds. destruct (existsb (str_eqb d) (dirs w)) eqn:Hex.
      - apply mem_In, Hex.
      - apply in_or_app. right. left. reflexivity. }
    assert (Hincl : forall q, In q (dirs w) -> In q ds).
    { intros q Hq. unfold ds. destruct (existsb _ _); [exact Hq |].
      apply in_or_app. left. exact Hq. }
    assert (Honly : forall q, In q ds -> In q (dirs w) \/ q = d).
    { intros q. unfold ds. destruct (existsb _ _); [tauto |].
      rewrite in_app_iff. cbn [In]. intuition. }
    assert (Hsame : In d (dirs w) -> ds = dirs w).
    { intros H. unfold ds. apply mem_In in H. rewrite H. reflexivity. }
    split.
    { left. split; [reflexivity |]. split; [reflexivity |].
      split; [exact Hin |]. split; [| reflexivity].
      unfold path_exists, existing. cbn [files dirs set_dirs set_stdout].
      apply mem_In. apply in_or_app. right. exact Hin. }
    split; [reflexivity |]. split; [reflexivity |]. split; [reflexivity |].
    split; [exact Hincl |]. split; [exact Hsame |].
    split.
    { intros _. split; [intros H; contradiction H; reflexivity | exact Honly]. }
    intros _. rewrite (create_directory_made E d _ Hmk). cbn [fst snd].
    split; [reflexivity |].
    cbn [dirs set_dirs set_stdout].
    apply mem_In in Hin. rewrite Hin. reflexivity.
Qed.

(** ** main without its directory, lines 138-141 *)

(** When the directory cannot be made (lines 138-141), [main] prints the
    banner and the line of the error and returns: the loop is not entered,
    whatever the fuel; nothing is read, requested or written. *)
Theorem main_stops_without_directory :
  forall (L : Lib) (E : Env) (fuel : nat) (w : World) (e : exn),
    makedirs_error E directory_name = Some e ->
    isinstance e OSError = true ->
    main L E fuel w =
      (Ok tt,
       set_stdout
         (stdout w ++ banner
          ++ [ballot_x ++ lit " Error creating directory: " ++ msg e]) w).
Proof.
  intros L E fuel w e Hmk Hos. unfold main.
  rewrite (bind_ok _ (print_all_app banner w)).
  unfold bind at 1. rewrite (create_directory_refused E _ _ Hmk), Hos.
  cbn [negb]. unfold ret. f_equal.
  unfold set_stdout; cbn [stdin stdout files dirs requested invoked clock
    clock_reads]. rewrite <- app_assoc. reflexivity.
Qed.

Lemma main_stops_without_directory_witness :
  main ref_lib read_only_disk 3
    (with_input [Line (lit "http://example.com/pics/cat.png")])
  = (Ok tt,
     set_stdout
       (banner
        ++ [ballot_x ++ lit " Error creating directory: "
            ++ lit "[Errno 13] Permission denied: 'Fetched_Images'"])
       (with_input [Line (lit "http://example.com/pics/cat.png")])).
Proof.
  exact (@main_stops_without_directory ref_lib read_only_disk 3
           (with_input [Line (lit "http://example.com/pics/cat.png")])
           permission_denied eq_refl eq_refl).
Defined.

(** ** is_valid_image_url, lines 40-43 *)

(** [is_valid_image_url] (lines 40-43), with CPython's tables and a URL of
    ASCII characters: it holds exactly when the URL ends in one of the
    seven extensions, in any mix of upper and lower case; and it gives the
    same for a URL and for its lower-case form. *)
Theorem is_valid_image_url_suffix :
  forall (L : Lib) (url : str),
    cpython_tables L -> forallb is_ascii url = true ->
    (is_valid_image_url L url = true <->
     exists stem ext,
       url = stem ++ ext /\ In (map ascii_lower ext) image_extensions) /\
    is_valid_image_url L (map ascii_lower url) = is_valid_image_url L url.
Proof.
  intros L url HL Hascii.
  assert (Hiff : forall u, forallb is_ascii u = true ->
            (is_valid_image_url L u = true <->
             exists stem ext,
               u = stem ++ ext /\ In (map ascii_lower ext) image_extensions)).
  { intros u Hu. unfold is_valid_image_url.
    rewrite (lower_ascii HL _ Hu). fold image_extensions.
    rewrite existsb_exists. split.
    - intros [ext' [Hin Hend]]. apply endswith_iff in Hend.
      destruct Hend as [t Ht].
      exists (firstn (length t) u), (skipn (length t) u).
      split; [symmetry; apply firstn_skipn |].
      rewrite <- skipn_map, Ht, skipn_app, skipn_all, Nat.sub_diag.
      exact Hin.
    - intros [stem [ext [-> Hin]]]. exists (map ascii_lower ext).
      split; [exact Hin |]. rewrite map_app. apply endswith_app. }
  split; [apply Hiff, Hascii |].
  assert (Hidem : forall c, ascii_lower (ascii_lower c) = ascii_lower c).
  { intros c. unfold ascii_lower.
    destruct (in_range 65 90 c) eqn:Hc; [| rewrite Hc; reflexivity].
    unfold in_range in *. apply andb_true_iff in Hc.
    destruct Hc as [H1 H2]. apply N.leb_le in H1, H2.
    replace ((65 <=? c + 32)%N && (c + 32 <=? 90)%N) with false;
      [reflexivity |].
    symmetry. apply andb_false_iff. right. apply N.leb_gt. lia. }
  assert (Hlow : forallb is_ascii (map ascii_lower url) = true).
  { rewrite forallb_of_map. rewrite forallb_forall in Hascii.
    apply forallb_forall. intros c Hc. specialize (Hascii c Hc).
    unfold is_ascii, ascii_lower in *. apply N.ltb_lt in Hascii.
    apply N.ltb_lt. destruct (in_range 65 90 c) eqn:Hr; [| exact Hascii].
    unfold in_range in Hr. apply andb_true_iff in Hr.
    destruct Hr as [_ H2]. apply N.leb_le in H2. lia. }
  unfold is_valid_image_url.
  rewrite (lower_ascii HL _ Hlow), (lower_ascii HL _ Hascii), map_map.
  rewrite (map_ext _ _ Hidem). reflexivity.
Qed.

Lemma is_valid_image_url_suffix_witness :
  is_valid_image_url ref_lib (lit "HTTP://EXAMPLE.COM/CAT.JPEG") = true /\
  is_valid_image_url ref_lib (lit "http://example.com/cat.png?size=2")
  = false.
Proof.
  split.
  - apply (proj1 (@is_valid_image_url_suffix ref_lib
                    (lit "HTTP://EXAMPLE.COM/CAT.JPEG")
                    ref_lib_tables eq_refl)).
    exists (lit "HTTP://EXAMPLE.COM/CAT"), (lit ".JPEG").
    split; [reflexivity |]. right. left. reflexivity.
  - reflexivity.
Defined.

(** ** extract_filename, lines 24-38 *)

Lemma contains_char (c : char) (s : str) :
  contains [c] s = true <-> In c s.
Proof.
  rewrite contains_iff. split.
  - intros [a [b ->]]. apply in_or_app. right. left. reflexivity.
  - intros H. apply in_split in H. destruct H as [a [b ->]].
    exists a, b. reflexivity.
Qed.

Lemma uint_chars_digits (d : Decimal.uint) (c : char) :
  In c (uint_chars d) -> is_digit c = true.
Proof.
  induction d; cbn [uint_chars In]; intros H;
    try contradiction; destruct H as [<- | H]; try reflexivity;
    apply IHd, H.
Qed.

Lemma zero_padded_digits (width : nat) (n : N) (c : char) :
  In c (zero_padded width n) -> is_digit c = true.
Proof.
  unfold zero_padded. rewrite in_app_iff. intros [H | H].
  - apply repeat_spec in H. subst c. reflexivity.
  - apply (uint_chars_digits _ _ H).
Qed.

(** A timestamp holds digits and one underscore. *)
Lemma strftime_chars (t : datetime) (c : char) :
  In c (strftime t) -> is_digit c = true \/ c = 95%N.
Proof.
  unfold strftime. rewrite !in_app_iff. cbn [lit list_ascii_of_string map In].
  intros H.
  repeat match goal with
         | H : _ \/ _ |- _ => destruct H as [H | H]
         end;
    try (left; apply (zero_padded_digits _ _ _ H));
    try contradiction.
  right. symmetry. exact H.
Qed.

Lemma generated_name_no_slash (t : datetime) : ~ In 47%N (generated_name t).
Proof.
  unfold generated_name. rewrite !in_app_iff. intros [H | [H | H]].
  - cbn in H. intuition discriminate.
  - apply strftime_chars in H. destruct H as [H | H]; discriminate H.
  - cbn in H. intuition discriminate.
Qed.

(** What [extract_filename] gives once [urlparse] has accepted the URL: the
    text after the last slash of the path, or the generated name. *)
Lemma extract_filename_cases (L : Lib) (url : str) (parsed : ParseResult)
    (w : World) :
  urlparse L url = inr parsed ->
  (exists dir segment,
     unquote L (path parsed) = dir ++ lit "/" ++ segment /\
     ~ In 47%N segment /\ In 46%N segment /\
     extract_filename L url w = (Ok segment, w)) \/
  extract_filename L url w =
    (Ok (generated_name (clock w (clock_reads w))),
     set_clock_reads (S (clock_reads w)) w).
Proof.
  intros Hparse.
  destruct (contains (lit "/") (unquote L (path parsed))) eqn:Hc.
  - destruct (@last_occurrence 47%N _ Hc) as [dir [segment [Hpath Hseg]]].
    rewrite (@extract_filename_segment L url parsed w dir segment
               Hparse Hpath Hseg).
    destruct (contains (lit ".") segment) eqn:Hdot; [left | right; reflexivity].
    exists dir, segment. split; [exact Hpath |]. split; [| split].
    + intros H. apply contains_char in H. rewrite H in Hseg. discriminate.
    + apply contains_char. exact Hdot.
    + reflexivity.
  - right. apply (@extract_filename_no_slash L url parsed w Hparse Hc).
Qed.

(** Whatever [extract_filename] returns (lines 24-38) is one path
    component: not empty, with a period, without a slash.  Either the world
    is as it was, or the name is the one generated from the clock, which
    was read once. *)
Theorem extract_filename_single_component :
  forall (L : Lib) (url name : str) (w w' : World),
    extract_filename L url w = (Ok name, w') ->
    name <> [] /\ In 46%N name /\ ~ In 47%N name /\
    (w' = w \/
     name = generated_name (clock w (clock_reads w)) /\
     w' = set_clock_reads (S (clock_reads w)) w).
Proof.
  intros L url name w w' H.
  destruct (urlparse L url) as [m | parsed] eqn:Hparse.
  { unfold extract_filename, urlparse_step in H. rewrite Hparse in H.
    unfold bind, raise in H. discriminate H. }
  destruct (@extract_filename_cases L url parsed w Hparse)
    as [[dir [segment [_ [Hslash [Hdot Hrun]]]]] | Hrun];
    rewrite Hrun in H; injection H as <- <-.
  - split; [intros ->; contradiction Hdot |].
    split; [exact Hdot |]. split; [exact Hslash |]. left. reflexivity.
  - split; [discriminate |].
    split; [apply contains_char, generated_name_has_period |].
    split; [apply generated_name_no_slash |]. right. split; reflexivity.
Qed.

Lemma extract_filename_single_component_witness :
  ~ In 47%N (lit "b.tar.gz") /\
  extract_filename ref_lib (lit "https://example.com/a/b.tar.gz") quiet_world
  = (Ok (lit "b.tar.gz"), quiet_world).
Proof.
  assert (H : extract_filename ref_lib (lit "https://example.com/a/b.tar.gz")
                quiet_world = (Ok (lit "b.tar.gz"), quiet_world))
    by reflexivity.
  split; [| exact H].
  exact (proj1 (proj2 (proj2
    (@extract_filename_single_component ref_lib _ _ _ _ H)))).
Defined.

(** ** Sanitizing, line 86: what passes unchanged *)

Lemma rstrip_by_end (p : char -> bool) (s : str) :
  match rev (rstrip_by p s) with [] => True | c :: _ => p c = false end.
Proof.
  unfold rstrip_by. rewrite rev_involutive.
  destruct (lstrip_by p (rev s)) as [|c t] eqn:H; [exact I |].
  apply (lstrip_by_head _ _ H).
Qed.

(** Line 86 applied twice gives what it gives once; the names it leaves as
    they are, are exactly those made of kept characters that do not end in
    white space; and it never makes a name longer. *)
Theorem sanitize_fixed_points :
  forall (L : Lib) (s : str),
    sanitize L (sanitize L s) = sanitize L s /\
    (sanitize L s = s <->
     forallb (kept L) s = true /\
     match rev s with [] => True | c :: _ => isspace L c = false end) /\
    (length (sanitize L s) <= length s)%nat.
Proof.
  intros L s.
  assert (Hfix : forall t,
            forallb (kept L) t = true ->
            match rev t with [] => True | c :: _ => isspace L c = false end ->
            sanitize L t = t).
  { intros t Hk He. unfold sanitize. fold (kept L).
    rewrite (filter_fixed _ _ Hk). apply rstrip_by_fixed, He. }
  assert (Hkept : forallb (kept L) (sanitize L s) = true).
  { apply forallb_forall. pose proof (sanitize_kept L s) as H.
    rewrite Forall_forall in H. exact H. }
  assert (Hend : match rev (sanitize L s) with
                 | [] => True
                 | c :: _ => isspace L c = false
                 end).
  { unfold sanitize. apply rstrip_by_end. }
  split; [apply Hfix; assumption |]. split.
  - split.
    + intros H. rewrite <- H. split; assumption.
    + intros [Hk He]. apply Hfix; assumption.
  - unfold sanitize. fold (kept L).
    destruct (rstrip_by_prefix (isspace L) (filter (kept L) s)) as [t Ht].
    pose proof (filter_length_le (kept L) s) as Hle.
    rewrite Ht, length_app in Hle. lia.
Qed.

(** ** Writing the body, lines 100-110 *)

Lemma file_get_put_same (p : str) (data : list N) (fs : list (str * list N)) :
  file_get p (file_put p data fs) = Some data.
Proof.
  induction fs as [|[k old] fs IH]; cbn [file_put file_get].
  - rewrite str_eqb_refl. reflexivity.
  - destruct (str_eqb p k) eqn:Hpk; cbn [file_get]; rewrite Hpk;
      [reflexivity | exact IH].
Qed.

Lemma set_files_same (w : World) : set_files (files w) w = w.
Proof. destruct w; reflexivity. Qed.

(** The loop of lines 103-105 on a file that is open: what came before the
    stream broke is appended, and no other file is touched. *)
Lemma write_chunks_run (p : str) (chunks : list chunk_event) :
  forall (w : World) (old : list N),
    file_get p (files w) = Some old ->
    exists fs,
      write_chunks p chunks w =
        (match first_broken chunks with
         | None => Ok tt
         | Some e => Raise e
         end, set_files fs w) /\
      file_get p fs = Some (old ++ received chunks) /\
      (forall q, q <> p -> file_get q fs = file_get q (files w)).
Proof.
  induction chunks as [|[data | e] rest IH]; intros w old Hold;
    cbn [write_chunks first_broken received].
  - exists (files w). rewrite set_files_same, app_nil_r.
    repeat split. exact Hold.
  - destruct data as [|b data]; cbn [negb].
    + rewrite bind_ret. destruct (IH w old Hold) as [fs [Hrun [Hp Hq]]].
      exists fs. repeat split; assumption.
    + set (w1 := set_files (file_put p (old ++ b :: data) (files w)) w).
      assert (H1 : file_write p (b :: data) w = (Ok tt, w1)).
      { unfold file_write. rewrite Hold. reflexivity. }
      rewrite (bind_ok _ H1).
      destruct (IH w1 (old ++ b :: data)) as [fs [Hrun [Hp Hq]]].
      { apply file_get_put_same. }
      exists fs. split; [exact Hrun |]. split.
      * rewrite Hp, <- app_assoc. reflexivity.
      * intros q Hne. rewrite (Hq q Hne). apply file_get_put_other, Hne.
  - exists (files w). rewrite set_files_same, app_nil_r.
    repeat split. exact Hold.
Qed.

(** The search of lines 93-98 in the world: it returns the first of the
    attempts that does not exist. *)
Lemma unique_save_path_least (save_path : str) (w : World) :
  exists n : N,
    unique_save_path save_path w = (Ok (attempt save_path n), w) /\
    path_exists w (attempt save_path n) = false /\
    forall k, (k < n)%N -> path_exists w (attempt save_path k) = true.
Proof.
  destruct (unique_path_first_free save_path (existing w))
    as [n [Hn [Hrun [Hout Hbelow]]]].
  exists n. unfold unique_save_path. rewrite Hrun by lia.
  split; [reflexivity |]. split.
  - unfold path_exists. destruct (existsb _ _) eqn:Hex; [| reflexivity].
    apply mem_In in Hex. contradiction.
  - intros k Hk. apply mem_In, Hbelow, Hk.
Qed.

(** Lines 91-110 once the name is resolved. *)
Lemma save_response_run (L : Lib) (E : Env)
    (url save_directory content_type : str) (response : Response)
    (w w1 : World) (filename : str) :
  resolve_filename L url content_type
    (headers_get (headers response) (lit "content-disposition") []) w
    = (Ok filename, w1) ->
  exists n : N,
    let save_path := attempt (path_join save_directory filename) n in
    path_exists w1 save_path = false /\
    (forall k, (k < n)%N ->
       path_exists w1 (attempt (path_join save_directory filename) k)
       = true) /\
    match open_error E save_path with
    | Some e =>
        save_response L E url save_directory content_type response w
        = (Raise e, announced filename w1)
    | None =>
        exists fs,
          file_get save_path fs = Some (received (body response)) /\
          (forall q, q <> save_path -> file_get q fs = file_get q (files w1)) /\
          save_response L E url save_directory content_type response w =
            match first_broken (body response) with
            | Some e => (Raise e, set_files fs (announced filename w1))
            | None =>
                (Ok true,
                 set_stdout
                   (stdout (announced filename w1)
                    ++ success_report filename save_path
                         (length (received (body response))))
                   (set_files fs (announced filename w1)))
            end
    end.
Proof.
  intros Hres.
  destruct (unique_save_path_least (path_join save_directory filename) w1)
    as [n [Hrun [Hfree Hleast]]].
  exists n. cbv zeta. split; [exact Hfree |]. split; [exact Hleast |].
  set (save_path := attempt (path_join save_directory filename) n) in *.
  assert (Hstart : save_response L E url save_directory content_type response w
                   = (open_wb E save_path ;;
                      write_chunks save_path (body response) ;;
                      file_size <- getsize save_path ;;
                      print (white_check_mark ++ lit " Successfully saved: "
                             ++ filename ++ lit " (" ++ str_of_int file_size
                             ++ lit " bytes)") ;;
                      print (file_folder ++ lit " Location: " ++ save_path) ;;
                      ret true) (announced filename w1)).
  { unfold save_response. rewrite (bind_ok _ Hres). cbv beta.
    rewrite (bind_ok _ Hrun). reflexivity. }
  rewrite Hstart. clear Hstart.
  destruct (open_error E save_path) as [e |] eqn:Hopen.
  { unfold bind at 1. unfold open_wb. rewrite Hopen. reflexivity. }
  set (w3 := set_files (file_put save_path [] (files (announced filename w1)))
               (announced filename w1)).
  assert (Ho : open_wb E save_path (announced filename w1) = (Ok tt, w3)).
  { unfold open_wb. rewrite Hopen. reflexivity. }
  rewrite (bind_ok _ Ho).
  destruct (@write_chunks_run save_path (body response) w3 [])
    as [fs [Hw [Hp Hq]]].
  { apply file_get_put_same. }
  exists fs. split; [exact Hp |]. split.
  { intros q Hne. rewrite (Hq q Hne).
    unfold w3. cbn [files set_files]. apply file_get_put_other, Hne. }
  unfold bind at 1. rewrite Hw.
  destruct (first_broken (body response)) as [e |]; [reflexivity |].
  unfold bind at 1. unfold getsize. cbn [files set_files]. rewrite Hp.
  unfold bind, print, ret. cbn [app]. f_equal.
  unfold w3, success_report, set_stdout, set_files, announced.
  cbn [stdin stdout files dirs requested invoked clock clock_reads].
  rewrite <- !app_assoc. reflexivity.
Qed.

Lemma dispatch_handled (e : exn) (w : World) :
  isinstance e Exception = true ->
  dispatch download_image_handlers e w
  = (Ok false, set_stdout (stdout w ++ [failure_message e]) w).
Proof.
  destruct e as [c m]. intros He. destruct c; try discriminate He; reflexivity.
Qed.


(** Once [urlparse] has accepted the URL the resolver returns a name that
    is not empty, and only the clock has been read. *)
Lemma resolve_filename_ok (L : Lib) (url content_type cd : str)
    (parsed : ParseResult) (w : World) :
  urlparse L url = inr parsed ->
  exists filename reads,
    resolve_filename L url content_type cd w
    = (Ok filename, set_clock_reads reads w) /\ filename <> [].
Proof.
  intros Hparse.
  destruct (@candidate_filename_ok L url content_type cd parsed w Hparse)
    as [candidate [w1 [Hc [reads ->]]]].
  rewrite (resolve_filename_of_candidate _ _ _ _ _ Hc).
  destruct (sanitize L candidate) as [|c s]; cbn [is_empty].
  - eexists; exists (S reads). split; [reflexivity | discriminate].
  - exists (c :: s), reads. split; [reflexivity | discriminate].
Qed.

(** A download whose response is an image, from the request to its end. *)
Lemma download_image_of_image (L : Lib) (E : Env) (url save_directory : str)
    (parsed : ParseResult) (response : Response) (w : World) :
  urlparse L url = inr parsed ->
  http_get E url = inr response ->
  in_range 400 599 (status_code response) = false ->
  startswith (headers_get (headers response) (lit "content-type") [])
    (lit "image/") = true ->
  exists (filename : str) (reads : nat) (n : N),
    let w1 := announced filename
                (set_clock_reads reads (connected url parsed w)) in
    let save_path := attempt (path_join save_directory filename) n in
    filename <> [] /\
    resolve_filename L url
      (headers_get (headers response) (lit "content-type") [])
      (headers_get (headers response) (lit "content-disposition") [])
      (connected url parsed w)
    = (Ok filename, set_clock_reads reads (connected url parsed w)) /\
    path_exists w save_path = false /\
    (forall k, (k < n)%N ->
       path_exists w (attempt (path_join save_directory filename) k)
       = true) /\
    match open_error E save_path with
    | Some e =>
        download_image L E url save_directory w
        = dispatch download_image_handlers e w1
    | None =>
        exists fs,
          file_get save_path fs = Some (received (body response)) /\
          (forall q, q <> save_path -> file_get q fs = file_get q (files w)) /\
          download_image L E url save_directory w =
            match first_broken (body response) with
            | Some e => dispatch download_image_handlers e (set_files fs w1)
            | None =>
                (Ok true,
                 set_stdout
                   (stdout w1
                    ++ success_report filename save_path
                         (length (received (body response))))
                   (set_files fs w1))
            end
    end.
Proof.
  intros Hparse Hget Hstatus Himage.
  pose proof (@download_image_connected L E url save_directory parsed
                response w Hparse Hget Hstatus) as Hd.
  cbv zeta in Hd. rewrite Hd. clear Hd.
  set (content_type := headers_get (headers response) (lit "content-type") [])
    in *.
  set (w0 := connected url parsed w).
  destruct (@resolve_filename_ok L url content_type
              (headers_get (headers response) (lit "content-disposition") [])
              parsed w0 Hparse) as [filename [reads [Hres Hne]]].
  destruct (@save_response_run L E url save_directory content_type response
              w0 _ filename Hres) as [n [Hfree [Hleast Hrun]]].
  exists filename, reads, n. cbv zeta.
  split; [exact Hne |]. split; [exact Hres |]. split; [exact Hfree |].
  split; [exact Hleast |].
  assert (Hblock : forall w',
            (go_on <- confirm_content_type L content_type ;;
             if negb go_on then ret false
             else save_response L E url save_directory content_type response)
              w'
            = save_response L E url save_directory content_type response w').
  { intros w'. rewrite (bind_ok _ (confirm_image L content_type w' Himage)).
    reflexivity. }
  unfold try_except. rewrite Hblock.
  destruct (open_error E (attempt (path_join save_directory filename) n))
    as [e |].
  - rewrite Hrun. reflexivity.
  - destruct Hrun as [fs [Hp [Hq Hrun]]]. exists fs.
    split; [exact Hp |]. split; [exact Hq |]. rewrite Hrun.
    destruct (first_broken (body response)); reflexivity.
Qed.

Lemma received_chunks (datas : list (list N)) (tail : list chunk_event) :
  received (map Chunk datas ++ tail) = concat datas ++ received tail.
Proof.
  induction datas as [|d ds IH]; cbn [map app received concat];
    [| rewrite IH, app_assoc]; reflexivity.
Qed.

Lemma first_broken_chunks (datas : list (list N)) (tail : list chunk_event) :
  first_broken (map Chunk datas ++ tail) = first_broken tail.
Proof.
  induction datas as [|d ds IH]; cbn [map app first_broken];
    [| rewrite IH]; reflexivity.
Qed.

(** A download that succeeds (lines 100-110).  For a response with a status
    that is no error, a content-type that starts with image/ and a body
    that arrives whole, on a disk that lets the file be opened,
    [download_image] returns True; the path it chose is the first of the
    attempts for the resolved name that did not exist, the file at that
    path holds the chunks of the body in their order, no other file has
    changed, nothing was read from the operator, and the four lines printed
    name the host, the filename, the number of bytes written and the
    path. *)
Theorem download_saves_body :
  forall (L : Lib) (E : Env) (url save_directory : str)
         (parsed : ParseResult) (response : Response)
         (datas : list (list N)) (w : World),
    urlparse L url = inr parsed ->
    http_get E url = inr response ->
    in_range 400 599 (status_code response) = false ->
    startswith (headers_get (headers response) (lit "content-type") [])
      (lit "image/") = true ->
    body response = map Chunk datas ->
    (forall p, open_error E p = None) ->
    exists (filename save_path : str) (reads : nat) (n : N),
      let w' := snd (download_image L E url save_directory w) in
      resolve_filename L url
        (headers_get (headers response) (lit "content-type") [])
        (headers_get (headers response) (lit "content-disposition") [])
        (connected url parsed w)
      = (Ok filename, set_clock_reads reads (connected url parsed w)) /\
      save_path = attempt (path_join save_directory filename) n /\
      (forall k, (k < n)%N ->
         path_exists w (attempt (path_join save_directory filename) k)
         = true) /\
      fst (download_image L E url save_directory w) = Ok true /\
      path_exists w save_path = false /\
      file_get save_path (files w') = Some (concat datas) /\
      (forall q, q <> save_path ->
         file_get q (files w') = file_get q (files w)) /\
      dirs w' = dirs w /\ stdin w' = stdin w /\
      stdout w' =
        stdout w
        ++ [globe ++ lit " Connecting to " ++ netloc parsed ++ lit "...";
            inbox_tray ++ lit " Downloading: " ++ filename;
            white_check_mark ++ lit " Successfully saved: " ++ filename
            ++ lit " (" ++ str_of_int (N.of_nat (length (concat datas)))
            ++ lit " bytes)";
            file_folder ++ lit " Location: " ++ save_path].
Proof.
  intros L E url save_directory parsed response datas w
    Hparse Hget Hstatus Himage Hbody Hopen.
  destruct (@download_image_of_image L E url save_directory parsed response w
              Hparse Hget Hstatus Himage)
    as [filename [reads [n [_ [Hres [Hfree [Hleast Hrun]]]]]]].
  cbv zeta in Hfree, Hrun. rewrite Hopen in Hrun.
  destruct Hrun as [fs [Hp [Hq Hrun]]].
  pose proof (received_chunks datas []) as Hrec.
  pose proof (first_broken_chunks datas []) as Hfb.
  rewrite app_nil_r in Hrec, Hfb. cbn [received first_broken] in Hrec, Hfb.
  rewrite app_nil_r in Hrec.
  rewrite Hbody, Hfb, Hrec in Hrun. rewrite Hbody, Hrec in Hp.
  exists filename, (attempt (path_join save_directory filename) n), reads, n.
  cbv zeta. rewrite Hrun. cbn [fst snd].
  split; [exact Hres |]. split; [reflexivity |]. split; [exact Hleast |].
  split; [reflexivity |]. split; [exact Hfree |].
  split; [exact Hp |]. split; [exact Hq |].
  split; [reflexivity |]. split; [reflexivity |].
  unfold success_report, announced, connected.
  cbn [stdout set_stdout set_files set_clock_reads set_requested set_invoked].
  rewrite <- !app_assoc. reflexivity.
Qed.

Lemma download_saves_body_witness :
  exists save_path,
    file_get save_path
      (files (snd (download_image ref_lib (env_of (inr cat_png))
                     (lit "http://example.com/pics/cat.png") directory_name
                     quiet_world)))
    = Some [137; 80; 78; 71; 13; 10]%N.
Proof.
  destruct (@download_saves_body ref_lib (env_of (inr cat_png))
              (lit "http://example.com/pics/cat.png") directory_name
              {| scheme := lit "http"; netloc := lit "example.com";
                 path := lit "/pics/cat.png"; params := []; query := [];
                 fragment := [] |}
              cat_png [[137; 80; 78; 71]; []; [13; 10]]%N quiet_world
              eq_refl eq_refl eq_refl eq_refl eq_refl (fun _ => eq_refl))
    as [filename [save_path [reads [n [_ [_ [_ [_ [_ [Hfile _]]]]]]]]]].
  exists save_path. exact Hfile.
Defined.

Lemma goes_on_confirm (L : Lib) (content_type : str) (w w0 : World) :
  goes_on L content_type w w0 ->
  confirm_content_type L content_type w = (Ok true, w0) /\
  files w0 = files w /\ dirs w0 = dirs w.
Proof.
  intros [[Hi ->] | [Hi [answer [rest [Hin [Hy ->]]]]]].
  - split; [apply confirm_image, Hi | split; reflexivity].
  - split; [| split; reflexivity].
    rewrite (@confirm_answer L content_type answer rest w Hi Hin).
    apply str_eqb_eq in Hy. rewrite Hy. reflexivity.
Qed.

(** A download that the check of the content-type lets go on, from the
    check to its end. *)
Lemma download_image_saving (L : Lib) (E : Env) (url save_directory : str)
    (parsed : ParseResult) (response : Response) (w w0 : World) :
  urlparse L url = inr parsed ->
  http_get E url = inr response ->
  in_range 400 599 (status_code response) = false ->
  goes_on L (headers_get (headers response) (lit "content-type") [])
    (connected url parsed w) w0 ->
  exists (filename : str) (reads : nat) (n : N),
    let w1 := announced filename (set_clock_reads reads w0) in
    let save_path := attempt (path_join save_directory filename) n in
    resolve_filename L url
      (headers_get (headers response) (lit "content-type") [])
      (headers_get (headers response) (lit "content-disposition") []) w0
    = (Ok filename, set_clock_reads reads w0) /\
    path_exists w save_path = false /\
    (forall k, (k < n)%N ->
       path_exists w (attempt (path_join save_directory filename) k)
       = true) /\
    match open_error E save_path with
    | Some e =>
        download_image L E url save_directory w
        = dispatch download_image_handlers e w1
    | None =>
        exists fs,
          file_get save_path fs = Some (received (body response)) /\
          (forall q, q <> save_path -> file_get q fs = file_get q (files w)) /\
          download_image L E url save_directory w =
            match first_broken (body response) with
            | Some e => dispatch download_image_handlers e (set_files fs w1)
            | None =>
                (Ok true,
                 set_stdout
                   (stdout w1
                    ++ success_report filename save_path
                         (length (received (body response))))
                   (set_files fs w1))
            end
    end.
Proof.
  intros Hparse Hget Hstatus Hgo.
  pose proof (@download_image_connected L E url save_directory parsed
                response w Hparse Hget Hstatus) as Hd.
  cbv zeta in Hd. rewrite Hd. clear Hd.
  set (content_type := headers_get (headers response) (lit "content-type") [])
    in *.
  destruct (goes_on_confirm Hgo) as [Hconf [Hfiles Hdirs]].
  assert (Hex : forall p, path_exists w0 p = path_exists w p).
  { intros p. unfold path_exists, existing. rewrite Hfiles, Hdirs.
    reflexivity. }
  destruct (@resolve_filename_ok L url content_type
              (headers_get (headers response) (lit "content-disposition") [])
              parsed w0 Hparse) as [filename [reads [Hres _]]].
  destruct (@save_response_run L E url save_directory content_type response
              w0 _ filename Hres) as [n [Hfree [Hleast Hrun]]].
  exists filename, reads, n. cbv zeta.
  split; [exact Hres |].
  split; [rewrite <- Hex; exact Hfree |].
  split; [intros k Hk; rewrite <- Hex; apply Hleast, Hk |].
  unfold try_except. rewrite (bind_ok _ Hconf). cbn [negb].
  destruct (open_error E (attempt (path_join save_directory filename) n))
    as [e |].
  - rewrite Hrun. reflexivity.
  - destruct Hrun as [fs [Hp [Hq Hrun]]]. exists fs.
    split; [exact Hp |]. split.
    + intros q Hne. rewrite (Hq q Hne). cbn [files set_clock_reads].
      rewrite Hfiles. reflexivity.
    + rewrite Hrun. destruct (first_broken (body response)); reflexivity.
Qed.

(** A stream that breaks midway (lines 102-105 and 112-125), in a download
    that the check of the content-type let go on (an image, or another type
    confirmed with y), when the file at the chosen path could be opened:
    the failure is reported and [download_image] returns False, but the
    file that was opened stays, holding the chunks that arrived before the
    failure; the partial file is not removed.  No other file has changed,
    nothing is read after the check, and no line of success is printed. *)
Theorem broken_stream_leaves_partial_file :
  forall (L : Lib) (E : Env) (url save_directory : str)
         (parsed : ParseResult) (response : Response)
         (datas : list (list N)) (e : exn) (rest : list chunk_event)
         (w w0 : World),
    urlparse L url = inr parsed ->
    http_get E url = inr response ->
    in_range 400 599 (status_code response) = false ->
    goes_on L (headers_get (headers response) (lit "content-type") [])
      (connected url parsed w) w0 ->
    body response = map Chunk datas ++ Broken e :: rest ->
    isinstance e Exception = true ->
    exists (filename : str) (reads : nat) (n : N),
      let save_path := attempt (path_join save_directory filename) n in
      let w' := snd (download_image L E url save_directory w) in
      resolve_filename L url
        (headers_get (headers response) (lit "content-type") [])
        (headers_get (headers response) (lit "content-disposition") []) w0
      = (Ok filename, set_clock_reads reads w0) /\
      path_exists w save_path = false /\
      (forall k, (k < n)%N ->
         path_exists w (attempt (path_join save_directory filename) k)
         = true) /\
      (open_error E save_path = None ->
       fst (download_image L E url save_directory w) = Ok false /\
       file_get save_path (files w') = Some (concat datas) /\
       path_exists w' save_path = true /\
       (forall q, q <> save_path ->
          file_get q (files w') = file_get q (files w)) /\
       dirs w' = dirs w /\ stdin w' = stdin w0 /\
       stdout w' =
         stdout w0
         ++ [inbox_tray ++ lit " Downloading: " ++ filename;
             failure_message e]).
Proof.
  intros L E url save_directory parsed response datas e rest w w0
    Hparse Hget Hstatus Hgo Hbody He.
  destruct (goes_on_confirm Hgo) as [_ [_ Hdirs]].
  destruct (@download_image_saving L E url save_directory parsed response
              w w0 Hparse Hget Hstatus Hgo)
    as [filename [reads [n [Hres [Hfree [Hleast Hrun]]]]]].
  cbv zeta in Hfree, Hrun.
  exists filename, reads, n. cbv zeta.
  split; [exact Hres |]. split; [exact Hfree |]. split; [exact Hleast |].
  intros Hopen. rewrite Hopen in Hrun.
  destruct Hrun as [fs [Hp [Hq Hrun]]].
  pose proof (received_chunks datas (Broken e :: rest)) as Hrec.
  pose proof (first_broken_chunks datas (Broken e :: rest)) as Hfb.
  cbn [received first_broken] in Hrec, Hfb. rewrite app_nil_r in Hrec.
  rewrite Hbody, Hfb, (dispatch_handled _ _ He) in Hrun.
  rewrite Hbody, Hrec in Hp.
  rewrite Hrun. cbn [fst snd].
  split; [reflexivity |]. split; [exact Hp |].
  split; [| split; [exact Hq |]].
  - unfold path_exists, existing. cbn [files dirs set_stdout set_files].
    apply mem_In. apply in_or_app. left.
    clear - Hp. induction fs as [|[k old] fs IH]; cbn [file_get] in Hp;
      [discriminate |].
    cbn [map fst]. destruct (str_eqb _ k) eqn:Hk.
    + apply str_eqb_eq in Hk. left. symmetry. exact Hk.
    + right. apply IH, Hp.
  - split; [exact Hdirs |]. split; [reflexivity |].
    unfold announced.
    cbn [stdout set_stdout set_files set_clock_reads].
    rewrite <- !app_assoc. reflexivity.
Qed.

Lemma broken_stream_leaves_partial_file_witness :
  let run :=
    download_image ref_lib (env_of (inr torn_page)) page_url directory_name
      (with_input [Line (lit "Y")]) in
  fst run = Ok false /\
  (exists save_path,
     file_get save_path (files (snd run)) = Some [60; 112; 62]%N) /\
  stdin (snd run) = [].
Proof.
  destruct (@broken_stream_leaves_partial_file ref_lib
              (env_of (inr torn_page)) page_url directory_name
              page_parsed torn_page [[60; 112; 62]]%N read_timed_out
              [Chunk [60; 47; 112; 62]%N] (with_input [Line (lit "Y")])
              (asked [] (connected page_url page_parsed
                           (with_input [Line (lit "Y")])))
              eq_refl eq_refl eq_refl)
    as [filename [reads [n [Hres [_ [_ Hrun]]]]]];
    try reflexivity.
  { right. split; [reflexivity |]. exists (lit "Y"), [].
    repeat split. }
  destruct (Hrun eq_refl) as [Hret [Hfile [_ [_ [_ [Hin _]]]]]].
  cbv zeta. split; [exact Hret |]. split; [| exact Hin].
  eexists. exact Hfile.
Defined.

(** When the file at the chosen path cannot be opened for writing
    (line 102), in a download that the check of the content-type let go on
    (an image, or another type confirmed with y): the name has been
    announced, the failure is reported (as "File system error" for an
    OSError) and [download_image] returns False; no file and no directory
    has changed, and nothing is read after the check. *)
Theorem unwritable_file_reported :
  forall (L : Lib) (E : Env) (url save_directory : str)
         (parsed : ParseResult) (response : Response) (w w0 : World),
    urlparse L url = inr parsed ->
    http_get E url = inr response ->
    in_range 400 599 (status_code response) = false ->
    goes_on L (headers_get (headers response) (lit "content-type") [])
      (connected url parsed w) w0 ->
    exists (filename : str) (reads : nat) (n : N),
      let save_path := attempt (path_join save_directory filename) n in
      let w' := snd (download_image L E url save_directory w) in
      resolve_filename L url
        (headers_get (headers response) (lit "content-type") [])
        (headers_get (headers response) (lit "content-disposition") []) w0
      = (Ok filename, set_clock_reads reads w0) /\
      path_exists w save_path = false /\
      (forall k, (k < n)%N ->
         path_exists w (attempt (path_join save_directory filename) k)
         = true) /\
      (forall e,
          open_error E save_path = Some e ->
          isinstance e Exception = true ->
          fst (download_image L E url save_directory w) = Ok false /\
          files w' = files w /\ dirs w' = dirs w /\ stdin w' = stdin w0 /\
          stdout w' =
            stdout w0
            ++ [inbox_tray ++ lit " Downloading: " ++ filename;
                failure_message e] /\
          (cls e = OSError ->
           failure_message e
           = cross_mark ++ lit " File system error: " ++ msg e)).
Proof.
  intros L E url save_directory parsed response w w0
    Hparse Hget Hstatus Hgo.
  destruct (goes_on_confirm Hgo) as [_ [Hfiles Hdirs]].
  destruct (@download_image_saving L E url save_directory parsed response
              w w0 Hparse Hget Hstatus Hgo)
    as [filename [reads [n [Hres [Hfree [Hleast Hrun]]]]]].
  cbv zeta in Hfree, Hrun.
  exists filename, reads, n. cbv zeta.
  split; [exact Hres |]. split; [exact Hfree |]. split; [exact Hleast |].
  intros e Hopen He.
  rewrite Hopen, (dispatch_handled _ _ He) in Hrun.
  rewrite Hrun. cbn [fst snd].
  split; [reflexivity |]. split; [exact Hfiles |]. split; [exact Hdirs |].
  split; [reflexivity |]. split.
  - unfold announced. cbn [stdout set_stdout set_clock_reads].
    rewrite <- !app_assoc. reflexivity.
  - intros Hc. unfold failure_message, isinstance. rewrite Hc. reflexivity.
Qed.

Lemma unwritable_file_reported_witness :
  let run :=
    download_image ref_lib full_disk
      (lit "http://example.com/pics/cat.png") directory_name quiet_world in
  fst run = Ok false /\ files (snd run) = [] /\
  stdout (snd run) =
    [globe ++ lit " Connecting to example.com...";
     inbox_tray ++ lit " Downloading: cat.png";
     cross_mark ++ lit " File system error: "
     ++ lit "[Errno 28] No space left on device"].
Proof.
  destruct (@unwritable_file_reported ref_lib full_disk
              (lit "http://example.com/pics/cat.png") directory_name
              {| scheme := lit "http"; netloc := lit "example.com";
                 path := lit "/pics/cat.png"; params := []; query := [];
                 fragment := [] |}
              cat_png quiet_world
              (connected (lit "http://example.com/pics/cat.png")
                 {| scheme := lit "http"; netloc := lit "example.com";
                    path := lit "/pics/cat.png"; params := []; query := [];
                    fragment := [] |} quiet_world)
              eq_refl eq_refl eq_refl (or_introl (conj eq_refl eq_refl)))
    as [filename [reads [n [_ [_ [_ Hrun]]]]]].
  destruct (Hrun no_space_left eq_refl eq_refl) as [Hret [Hfiles _]].
  cbv zeta. split; [exact Hret |]. split; [exact Hfiles |]. reflexivity.
Defined.

(** ** A request that fails, lines 54-57 and 112-113 *)

(** A request that fails (lines 54-57).  When [requests.get] raises an
    exception, or the response has a status from 400 to 599,
    [download_image] prints the line that announces the connection and one
    line of failure (for a status: "Network error:" and the message of
    [raise_for_status]) and returns False; the content-type is not looked
    at, the operator is not asked, and no file or directory changes. *)
Theorem request_failure_reported :
  forall (L : Lib) (E : Env) (url save_directory : str)
         (parsed : ParseResult) (w : World),
    urlparse L url = inr parsed ->
    let w1 := connected url parsed w in
    (forall e,
        http_get E url = inl e -> isinstance e Exception = true ->
        download_image L E url save_directory w
        = (Ok false, set_stdout (stdout w1 ++ [failure_message e]) w1)) /\
    (forall response,
        http_get E url = inr response ->
        in_range 400 599 (status_code response) = true ->
        download_image L E url save_directory w
        = (Ok false,
           set_stdout
             (stdout w1 ++ [cross_mark ++ lit " Network error: "
                            ++ status_message response]) w1)) /\
    files w1 = files w /\ dirs w1 = dirs w /\ stdin w1 = stdin w.
Proof.
  intros L E url save_directory parsed w Hparse w1.
  assert (Hstart : download_image L E url save_directory w =
            try_except
              (response <- requests_get E url ;;
               raise_for_status response ;;
               let content_type :=
                 headers_get (headers response) (lit "content-type") [] in
               go_on <- confirm_content_type L content_type ;;
               if negb go_on then ret false
               else save_response L E url save_directory content_type
                      response)
              download_image_handlers
              (set_stdout
                 (stdout w ++ [globe ++ lit " Connecting to " ++ netloc parsed
                               ++ lit "..."])
                 (set_invoked (invoked w ++ [url]) w))).
  { unfold download_image, try_except, download_image_try.
    rewrite (bind_ok _ (urlparse_step_ok L url _ Hparse)). reflexivity. }
  split; [| split; [| repeat split]].
  - intros e Hget He. rewrite Hstart. unfold try_except.
    unfold bind at 1. unfold requests_get. rewrite Hget.
    rewrite (dispatch_handled _ _ He). reflexivity.
  - intros response Hget Hstatus. rewrite Hstart. unfold try_except.
    unfold bind at 1. unfold requests_get. rewrite Hget.
    unfold bind at 1. unfold raise_for_status, status_message.
    destruct (in_range 400 499 (status_code response)) eqn:H4.
    + reflexivity.
    + assert (H5 : in_range 500 599 (status_code response) = true).
      { unfold in_range in *. apply andb_true_iff in Hstatus.
        destruct Hstatus as [Hlo Hhi]. rewrite Hlo in H4. cbn [andb] in H4.
        apply N.leb_le in Hhi. apply N.leb_gt in H4.
        apply andb_true_iff. split; apply N.leb_le; lia. }
      rewrite H5. reflexivity.
Qed.

Lemma request_failure_reported_witness :
  download_image ref_lib (env_of (inr not_found))
    (lit "http://example.com/cat.png") directory_name quiet_world
  = (Ok false,
     set_requested [lit "http://example.com/cat.png"]
       (set_invoked [lit "http://example.com/cat.png"]
          (set_stdout
             [globe ++ lit " Connecting to example.com...";
              cross_mark
              ++ lit " Network error: 404 Client Error: Not Found for url: "
              ++ lit "http://example.com/cat.png"]
             quiet_world))).
Proof.
  exact (proj1 (proj2
    (@request_failure_reported ref_lib (env_of (inr not_found))
       (lit "http://example.com/cat.png") directory_name
       {| scheme := lit "http"; netloc := lit "example.com";
          path := lit "/cat.png"; params := []; query := [];
          fragment := [] |}
       quiet_world eq_refl)) not_found eq_refl eq_refl).
Defined.

(** ** The content type and the filename, line 78 *)

(** Line 78 looks the extension up for the text before the first semicolon
    of the content-type: what follows it (a charset, a boundary) has no
    part in the filename. *)
Theorem content_type_parameters_ignored :
  forall (L : Lib) (url content_type content_disposition : str) (w : World),
    candidate_filename L url content_type content_disposition w
    = candidate_filename L url (take_until 59%N content_type)
        content_disposition w /\
    forall parameters,
      candidate_filename L url
        (take_until 59%N content_type ++ lit ";" ++ parameters)
        content_disposition w
      = candidate_filename L url content_type content_disposition w.
Proof.
  assert (Hhd : forall ct, index (split ct (lit ";")) 0
                           = ret (take_until 59%N ct)).
  { intros ct. rewrite index_split_first. unfold split.
    change (lit ";") with [59%N]. rewrite split_from_first. reflexivity. }
  assert (Htake : forall ct, take_until 59%N (take_until 59%N ct)
                             = take_until 59%N ct).
  { induction ct as [|c ct IH]; cbn [take_until]; [reflexivity |].
    destruct (N.eqb_spec c 59) as [-> | Hne]; [reflexivity |].
    cbn [take_until]. destruct (N.eqb_spec c 59); [contradiction |].
    rewrite IH. reflexivity. }
  assert (Hsame : forall ct ct',
            take_until 59%N ct = take_until 59%N ct' ->
            forall L url cd w,
              candidate_filename L url ct cd w
              = candidate_filename L url ct' cd w).
  { intros ct ct' Heq L url cd w. unfold candidate_filename.
    destruct (contains (lit "filename=") cd); [reflexivity |].
    unfold bind at 1. unfold bind at 3.
    destruct (extract_filename L url w) as [[filename | e |] w1];
      try reflexivity.
    rewrite !Hhd, !bind_ret, Heq. reflexivity. }
  intros L url content_type cd w. split.
  - apply Hsame. symmetry. apply Htake.
  - intros parameters. apply Hsame.
    induction content_type as [|c ct IH]; cbn [take_until app].
    + reflexivity.
    + destruct (N.eqb_spec c 59) as [-> | Hne]; [reflexivity |].
      cbn [take_until app]. destruct (N.eqb_spec c 59); [contradiction |].
      rewrite IH. reflexivity.
Qed.

(** ** What a download lets out *)

Lemma returns_ret (A : Type) (a : A) : returns (ret a).
Proof. intros w. discriminate. Qed.

Lemma returns_raise (A : Type) (e : exn) : returns (@raise A e).
Proof. intros w. discriminate. Qed.

Lemma returns_bind (A B : Type) (m : M A) (k : A -> M B) :
  returns m -> (forall a, returns (k a)) -> returns (bind m k).
Proof.
  intros Hm Hk w. unfold bind. specialize (Hm w).
  destruct (m w) as [[a | e |] w1]; cbn [fst] in *.
  - apply Hk.
  - discriminate.
  - contradiction.
Qed.

Lemma returns_dispatch (A : Type)
    (clauses : list (exn_class * (exn -> M A))) :
  Forall (fun clause => forall e, returns (snd clause e)) clauses ->
  forall e, returns (dispatch clauses e).
Proof.
  induction 1 as [|[c h] rest Hh _ IH]; intros e; cbn [dispatch].
  - apply returns_raise.
  - destruct (isinstance e c); [apply Hh | apply IH].
Qed.

Lemma returns_try_except (A : Type) (block : M A)
    (clauses : list (exn_class * (exn -> M A))) :
  returns block ->
  Forall (fun clause => forall e, returns (snd clause e)) clauses ->
  returns (try_except block clauses).
Proof.
  intros Hb Hc w. unfold try_except. specialize (Hb w).
  destruct (block w) as [[a | e |] w1]; cbn [fst] in *.
  - discriminate.
  - apply returns_dispatch, Hc.
  - contradiction.
Qed.

Lemma returns_print (s : str) : returns (print s).
Proof. intros w. discriminate. Qed.

Lemma returns_input (prompt : str) : returns (input prompt).
Proof.
  intros w. unfold input. destruct (stdin w) as [|[line |] rest]; discriminate.
Qed.

Lemma returns_now : returns datetime_now.
Proof. intros w. discriminate. Qed.

Lemma returns_index (A : Type) (xs : list A) (i : Z) : returns (index xs i).
Proof.
  unfold index. destruct (py_index xs i);
    [apply returns_ret | apply returns_raise].
Qed.

Lemma returns_urlparse_step (L : Lib) (url : str) :
  returns (urlparse_step L url).
Proof.
  unfold urlparse_step. destruct (urlparse L url);
    [apply returns_raise | apply returns_ret].
Qed.

Lemma returns_requests_get (E : Env) (url : str) :
  returns (requests_get E url).
Proof.
  intros w. unfold requests_get. destruct (http_get E url); discriminate.
Qed.

Lemma returns_raise_for_status (response : Response) :
  returns (raise_for_status response).
Proof.
  unfold raise_for_status.
  destruct (in_range 400 499 _); [apply returns_raise |].
  destruct (in_range 500 599 _); [apply returns_raise | apply returns_ret].
Qed.

(** The search for a free path ends: lines 96-98 are no endless loop. *)
Lemma returns_unique_save_path (save_path : str) :
  returns (unique_save_path save_path).
Proof.
  intros w. destruct (unique_save_path_free save_path w) as [n [Hrun _]].
  rewrite Hrun. discriminate.
Qed.

Lemma returns_open_wb (E : Env) (p : str) : returns (open_wb E p).
Proof. intros w. unfold open_wb. destruct (open_error E p); discriminate. Qed.

Lemma returns_file_write (p : str) (chunk : list N) :
  returns (file_write p chunk).
Proof.
  intros w. unfold file_write. destruct (file_get p (files w)); discriminate.
Qed.

Lemma returns_write_chunks (p : str) (chunks : list chunk_event) :
  returns (write_chunks p chunks).
Proof.
  induction chunks as [|[data | e] rest IH]; cbn [write_chunks].
  - apply returns_ret.
  - apply returns_bind; [| intros _; exact IH].
    destruct (negb _); [apply returns_file_write | apply returns_ret].
  - apply returns_raise.
Qed.

Lemma returns_getsize (p : str) : returns (getsize p).
Proof.
  intros w. unfold getsize. destruct (file_get p (files w)); discriminate.
Qed.

Ltac returns_step :=
  first
    [ apply returns_ret | apply returns_raise | apply returns_print
    | apply returns_input | apply returns_now | apply returns_index
    | apply returns_urlparse_step | apply returns_requests_get
    | apply returns_raise_for_status | apply returns_unique_save_path
    | apply returns_open_wb | apply returns_write_chunks
    | apply returns_getsize
    | apply returns_bind; [| intros ?]
    | match goal with
      | |- returns (if ?b then _ else _) => destruct b
      | |- returns (match ?x with _ => _ end) => destruct x
      end ].

Lemma returns_download_image_try (L : Lib) (E : Env)
    (url save_directory : str) :
  returns (download_image_try L E url save_directory).
Proof.
  unfold download_image_try, save_response, confirm_content_type,
    resolve_filename, candidate_filename, extract_filename.
  repeat returns_step.
Qed.

Lemma returns_download_image (L : Lib) (E : Env) (url save_directory : str) :
  returns (download_image L E url save_directory).
Proof.
  intros w. unfold download_image.
  apply returns_try_except; [apply returns_download_image_try |].
  unfold download_image_handlers.
  repeat (apply Forall_cons; [intros e; cbn [snd]; repeat returns_step |]).
  apply Forall_nil.
Qed.

Lemma main_iteration_handlers (L : Lib) (E : Env) :
  main_iteration L E =
    (print separator ;;
     try_except
       (line <- input url_prompt ;;
        let url := strip_by (isspace L) line in
        if is_quit L url then print goodbye ;; ret Break
        else if is_empty url then print warn_empty ;; ret Continue
        else if negb (has_http_scheme url)
        then print warn_scheme ;; ret Continue
        else download_image L E url directory_name ;; ret Continue)
       main_handlers).
Proof. reflexivity. Qed.

Lemma returns_main_handlers :
  Forall (fun clause : exn_class * (exn -> M control) =>
            forall e, returns (snd clause e)) main_handlers.
Proof.
  unfold main_handlers.
  repeat (apply Forall_cons; [intros e; cbn [snd]; repeat returns_step |]).
  apply Forall_nil.
Qed.

Lemma returns_main_iteration (L : Lib) (E : Env) :
  returns (main_iteration L E).
Proof.
  rewrite main_iteration_handlers.
  apply returns_bind; [apply returns_print | intros _].
  apply returns_try_except; [| apply returns_main_handlers].
  apply returns_bind; [apply returns_input | intros line].
  cbv zeta.
  repeat first [apply returns_download_image | returns_step].
Qed.



(** ** An interrupt, lines 64 and 147, 165-167 *)

(** Worlds with the same parts are the same. *)
Lemma world_eq (a b : World) :
  stdin a = stdin b -> stdout a = stdout b -> files a = files b ->
  dirs a = dirs b -> requested a = requested b -> invoked a = invoked b ->
  clock a = clock b -> clock_reads a = clock_reads b -> a = b.
Proof. destruct a, b; cbn. intros; subst; reflexivity. Qed.

Ltac same_parts :=
  apply world_eq; try reflexivity;
  unfold answered, asked, connected;
  cbn [stdout set_stdout set_stdin set_requested set_invoked];
  rewrite <- ?app_assoc; reflexivity.

(** An interrupt ends the run in order (lines 165-167): at the prompt for
    the URL, and at the prompt of the confirmation inside [download_image]
    as well, where no clause of lines 112-123 takes it and it reaches the
    loop.  The farewell is printed, the loop is left without an error, and
    nothing has been written. *)
Theorem interrupt_ends_the_run :
  forall (L : Lib) (E : Env) (rest : list input_event) (w : World),
    (stdin w = Interrupt :: rest ->
     main_iteration L E w = (Ok Break, answered rest interrupted w) /\
     forall fuel,
       main_loop L E (S fuel) w = (Ok tt, answered rest interrupted w)) /\
    (forall line parsed response,
        stdin w = Line line :: Interrupt :: rest ->
        let url := strip_by (isspace L) line in
        is_quit L url = false -> valid_url url = true ->
        urlparse L url = inr parsed ->
        http_get E url = inr response ->
        in_range 400 599 (status_code response) = false ->
        startswith (headers_get (headers response) (lit "content-type") [])
          (lit "image/") = false ->
        let final :=
          set_stdin rest
            (set_stdout
               (stdout w
                ++ [separator; url_prompt;
                    globe ++ lit " Connecting to " ++ netloc parsed
                    ++ lit "...";
                    content_warning; confirm_prompt; interrupted])
               (set_requested (requested w ++ [url])
                  (set_invoked (invoked w ++ [url]) w))) in
        main_iteration L E w = (Ok Break, final) /\
        (forall fuel, main_loop L E (S fuel) w = (Ok tt, final)) /\
        files final = files w /\ dirs final = dirs w).
Proof.
  intros L E rest w. split.
  - intros Hin.
    assert (Hit : main_iteration L E w
                  = (Ok Break, answered rest interrupted w)).
    { unfold main_iteration. unfold bind at 1. cbn [print].
      unfold try_except. unfold bind at 1. unfold input.
      cbn [stdin set_stdout]. rewrite Hin.
      cbn [dispatch isinstance cls mro existsb exn_class_beq orb].
      unfold bind, print, ret. f_equal. same_parts. }
    split; [exact Hit |]. intros fuel.
    rewrite (@main_loop_step L E fuel _ _ _ Hit). reflexivity.
  - intros line parsed response Hin url Hquit Hvalid Hparse Hget Hstatus Hct
      final.
    assert (Hit : main_iteration L E w = (Ok Break, final)).
    { rewrite (@main_iteration_line L E line (Interrupt :: rest) w Hin).
      cbv zeta. fold url. rewrite Hquit.
      unfold valid_url in Hvalid. apply andb_true_iff in Hvalid.
      destruct Hvalid as [Hne Hsch]. apply negb_true_iff in Hne.
      rewrite Hne, Hsch. cbn [negb].
      set (w0 := set_stdin (Interrupt :: rest)
                   (set_stdout (stdout w ++ [separator; url_prompt]) w)).
      pose proof (@download_image_connected L E url directory_name parsed
                    response w0 Hparse Hget Hstatus) as Hd.
      cbv zeta in Hd.
      assert (Hc : confirm_content_type L
                     (headers_get (headers response) (lit "content-type") [])
                     (connected url parsed w0)
                   = (Raise {| cls := KeyboardInterrupt; msg := [] |},
                      set_stdin rest
                        (set_stdout
                           (stdout (connected url parsed w0)
                            ++ [content_warning; confirm_prompt])
                           (connected url parsed w0)))).
      { unfold confirm_content_type. rewrite Hct. cbn [negb].
        unfold bind at 1. cbn [print].
        unfold bind at 1. unfold input. unfold connected, w0.
        cbn [stdin set_stdout set_stdin set_requested set_invoked].
        f_equal. same_parts. }
      assert (Hdl : download_image L E url directory_name w0
                    = (Raise {| cls := KeyboardInterrupt; msg := [] |},
                       set_stdin rest
                         (set_stdout
                            (stdout (connected url parsed w0)
                             ++ [content_warning; confirm_prompt])
                            (connected url parsed w0)))).
      { rewrite Hd. unfold try_except. rewrite (bind_raise _ Hc).
        reflexivity. }
      unfold try_except. rewrite (bind_raise _ Hdl).
      cbn [dispatch isinstance cls mro existsb exn_class_beq orb].
      unfold bind, print, ret. f_equal. unfold final, w0. same_parts. }
    split; [exact Hit |]. split; [| split; reflexivity].
    intros fuel. rewrite (@main_loop_step L E fuel _ _ _ Hit). reflexivity.
Qed.

Lemma interrupt_ends_the_run_witness :
  fst (main_loop ref_lib (env_of (inr html_page)) 1
         (with_input [Line page_url; Interrupt; Line (lit "y")])) = Ok tt /\
  fst (main_loop ref_lib (env_of (inr html_page)) 1
         (with_input [Interrupt])) = Ok tt.
Proof.
  destruct (@interrupt_ends_the_run ref_lib (env_of (inr html_page))
              [Line (lit "y")]
              (with_input [Line page_url; Interrupt; Line (lit "y")]))
    as [_ Hconfirm].
  destruct (Hconfirm page_url page_parsed html_page
              eq_refl eq_refl eq_refl eq_refl eq_refl eq_refl eq_refl)
    as [_ [Hloop _]].
  split.
  - rewrite (Hloop 0%nat). reflexivity.
  - reflexivity.
Defined.

(** ** Each pass of the loop reads input *)

Lemma consumes_refl (w : World) : consumes w w.
Proof. exists []. reflexivity. Qed.

Lemma consumes_trans (a b c : World) :
  consumes a b -> consumes b c -> consumes a c.
Proof.
  intros [u1 H1] [u2 H2]. exists (u1 ++ u2).
  rewrite H1, H2, app_assoc. reflexivity.
Qed.

Lemma consumes_same (w w' : World) : stdin w' = stdin w -> consumes w w'.
Proof. intros H. exists []. rewrite H. reflexivity. Qed.

Lemma consumes_stdout (v : list str) (w : World) :
  consumes w (set_stdout v w).
Proof. apply consumes_same. reflexivity. Qed.

Lemma consumes_clock (v : nat) (w : World) :
  consumes w (set_clock_reads v w).
Proof. apply consumes_same. reflexivity. Qed.

Lemma consumes_requested (v : list str) (w : World) :
  consumes w (set_requested v w).
Proof. apply consumes_same. reflexivity. Qed.

Lemma consumes_files (v : list (str * list N)) (w : World) :
  consumes w (set_files v w).
Proof. apply consumes_same. reflexivity. Qed.

Lemma consumes_input (prompt : str) : preserves consumes (input prompt).
Proof.
  intros w r w' H. unfold input in H.
  destruct (stdin w) as [|[line |] rest] eqn:Hin; injection H as _ <-.
  - apply consumes_same. reflexivity.
  - exists [Line line]. exact Hin.
  - exists [Interrupt]. exact Hin.
Qed.

#[local] Hint Resolve consumes_refl consumes_trans consumes_stdout
  consumes_clock consumes_requested consumes_files : frames.

Ltac consumes_step :=
  first
    [ solve [eauto with frames]
    | apply consumes_input
    | apply preserves_ret | apply preserves_raise | apply preserves_print
    | apply preserves_now | apply preserves_index
    | apply preserves_urlparse_step | apply preserves_requests_get
    | apply preserves_raise_for_status | apply preserves_unique_save_path
    | apply preserves_resolve_filename
    | apply any_open_wb | apply any_write_chunks | apply preserves_getsize
    | apply preserves_bind; [| | intros ?]
    | match goal with
      | |- preserves _ (if ?b then _ else _) => destruct b
      end ].

Lemma consumes_download_image (L : Lib) (E : Env)
    (url save_directory : str) :
  preserves consumes (download_image L E url save_directory).
Proof.
  intros w r w' H. unfold download_image in H.
  apply consumes_trans with (b := set_invoked (invoked w ++ [url]) w);
    [apply consumes_same; reflexivity |].
  revert H. generalize (set_invoked (invoked w ++ [url]) w). intros w0 H.
  assert (Hp : preserves consumes
                 (try_except (download_image_try L E url save_directory)
                    download_image_handlers)).
  { apply preserves_try_except; eauto with frames.
    - unfold download_image_try, save_response, confirm_content_type.
      repeat consumes_step.
    - apply preserves_handlers; eauto with frames. }
  exact (Hp w0 r w' H).
Qed.

Lemma consumes_main_handlers :
  Forall (fun clause : exn_class * (exn -> M control) =>
            forall e, preserves consumes (snd clause e)) main_handlers.
Proof.
  unfold main_handlers.
  repeat (apply Forall_cons; [intros e; cbn [snd]; repeat consumes_step |]).
  apply Forall_nil.
Qed.

(** A pass of the loop takes the event that is next, if there is one, and
    gives nothing back. *)
Lemma main_iteration_reads (L : Lib) (E : Env) (w w' : World)
    (r : result control) :
  main_iteration L E w = (r, w') ->
  match stdin w with
  | [] => stdin w' = []
  | _ :: rest => exists used, rest = used ++ stdin w'
  end.
Proof.
  rewrite main_iteration_handlers. intros H.
  unfold bind at 1 in H. cbn [print] in H.
  set (w0 := set_stdout (stdout w ++ [separator]) w) in H.
  unfold try_except in H. unfold bind at 1 in H.
  assert (Hk : forall line,
            preserves consumes
              (let url := strip_by (isspace L) line in
               if is_quit L url then print goodbye ;; ret Break
               else if is_empty url then print warn_empty ;; ret Continue
               else if negb (has_http_scheme url)
               then print warn_scheme ;; ret Continue
               else download_image L E url directory_name ;; ret Continue)).
  { intros line. cbv zeta.
    repeat first [apply consumes_download_image | consumes_step]. }
  assert (Hh : forall e, preserves consumes (dispatch main_handlers e)).
  { apply preserves_dispatch; [apply consumes_refl |].
    apply consumes_main_handlers. }
  assert (Hshrink : forall a b, consumes a b -> stdin a = [] -> stdin b = []).
  { intros a b [used Hu] Ha. rewrite Ha in Hu.
    symmetry in Hu. apply app_eq_nil in Hu. apply Hu. }
  unfold input in H. change (stdin w0) with (stdin w) in H.
  destruct (stdin w) as [|[line |] rest] eqn:Hin.
  - (* end of input: EOFError, handled *)
    apply Hh in H. apply (Hshrink _ _ H). exact Hin.
  - (* a line *)
    match type of H with
    | match ?k ?w1 with _ => _ end = _ =>
        destruct (k w1) as [[c | e |] w2] eqn:Hrun;
        pose proof (Hk line _ _ _ Hrun) as Hc
    end.
    + injection H as _ <-. exact Hc.
    + apply Hh in H. exact (consumes_trans Hc H).
    + injection H as _ <-. exact Hc.
  - (* an interrupt *)
    apply Hh in H. exact H.
Qed.

(** Each pass of the loop reads at least one event of the input while there
    is one: after as many passes as there were events pending, the loop has
    ended or the input is used up. *)
Theorem loop_runs_on_only_without_input :
  forall (L : Lib) (E : Env) (fuel : nat) (w : World),
    (length (stdin w) <= fuel)%nat ->
    fst (main_loop L E fuel w) = Diverge ->
    stdin (snd (main_loop L E fuel w)) = [].
Proof.
  intros L E fuel. induction fuel as [|fuel IH]; intros w Hlen Hdiv.
  - cbn [main_loop snd]. destruct (stdin w); [reflexivity | cbn in Hlen; lia].
  - cbn [main_loop] in *. unfold bind in *.
    pose proof (returns_main_iteration L E w) as Hret.
    destruct (main_iteration L E w) as [[c | e |] w1] eqn:Hit;
      cbn [fst] in Hret.
    + destruct c; [discriminate Hdiv |].
      apply IH; [| exact Hdiv].
      apply main_iteration_reads in Hit.
      destruct (stdin w) as [|ev rest].
      * rewrite Hit. cbn. lia.
      * destruct Hit as [used Hu]. cbn [length] in Hlen.
        rewrite Hu, length_app in Hlen. lia.
    + discriminate Hdiv.
    + contradiction.
Qed.

Lemma loop_runs_on_only_without_input_witness :
  stdin (snd (main_loop ref_lib (env_of (inr html_page)) 2
                (with_input [Line (lit "ftp://example.com/a.png");
                             Line []]))) = [].
Proof.
  apply (@loop_runs_on_only_without_input ref_lib (env_of (inr html_page)) 2
           (with_input [Line (lit "ftp://example.com/a.png"); Line []])).
  - cbn. lia.
  - reflexivity.
Defined.

(** ** One request for each download, lines 53-54 *)

Lemma logs_kept_refl (w : World) : logs_kept w w.
Proof. split; reflexivity. Qed.

Lemma logs_kept_trans (a b c : World) :
  logs_kept a b -> logs_kept b c -> logs_kept a c.
Proof. intros [H1 H2] [H3 H4]. split; congruence. Qed.

Lemma logs_kept_stdout (v : list str) (w : World) :
  logs_kept w (set_stdout v w).
Proof. split; reflexivity. Qed.

Lemma logs_kept_stdin (v : list input_event) (w : World) :
  logs_kept w (set_stdin v w).
Proof. split; reflexivity. Qed.

Lemma logs_kept_clock (v : nat) (w : World) :
  logs_kept w (set_clock_reads v w).
Proof. split; reflexivity. Qed.

Lemma logs_kept_files (v : list (str * list N)) (w : World) :
  logs_kept w (set_files v w).
Proof. split; reflexivity. Qed.

#[local] Hint Resolve logs_kept_refl logs_kept_trans logs_kept_stdout
  logs_kept_stdin logs_kept_clock logs_kept_files : frames.

(** A call of [download_image] sends one request, for the URL it was given,
    or none when [urlparse] refuses the URL at line 53: there is no retry
    and no request for another address. *)
Theorem one_request_per_download :
  forall (L : Lib) (E : Env) (url save_directory : str) (w : World),
    let w' := snd (download_image L E url save_directory w) in
    invoked w' = invoked w ++ [url] /\
    requested w' =
      requested w
      ++ match urlparse L url with inr _ => [url] | inl _ => [] end.
Proof.
  intros L E url save_directory w. cbv zeta.
  assert (Hh : forall e, preserves logs_kept
                           (dispatch download_image_handlers e)).
  { apply preserves_dispatch; [apply logs_kept_refl |].
    apply preserves_handlers; eauto with frames. }
  assert (Hrest : forall response,
            preserves logs_kept
              (raise_for_status response ;;
               let content_type :=
                 headers_get (headers response) (lit "content-type") [] in
               go_on <- confirm_content_type L content_type ;;
               if negb go_on then ret false
               else save_response L E url save_directory content_type
                      response)).
  { intros response. cbv zeta. unfold save_response.
    repeat first
      [ solve [eauto with frames]
      | apply preserves_ret | apply preserves_print
      | apply preserves_raise_for_status | apply preserves_unique_save_path
      | apply preserves_resolve_filename
      | apply preserves_confirm_content_type
      | apply any_open_wb | apply any_write_chunks | apply preserves_getsize
      | apply preserves_bind; [| | intros ?]
      | match goal with
        | |- preserves _ (if ?b then _ else _) => destruct b
        end ]. }
  destruct (download_image L E url save_directory w) as [r w'] eqn:Hrun.
  cbn [snd]. unfold download_image, try_except, download_image_try in Hrun.
  set (w0 := set_invoked (invoked w ++ [url]) w) in Hrun.
  unfold bind at 1 in Hrun. unfold urlparse_step in Hrun.
  destruct (urlparse L url) as [m | parsed].
  - cbn [raise] in Hrun. apply Hh in Hrun. destruct Hrun as [Hr Hi].
    rewrite Hr, Hi, app_nil_r. split; reflexivity.
  - cbn [ret] in Hrun. unfold bind at 1 in Hrun. cbn [print] in Hrun.
    unfold bind at 1 in Hrun. unfold requests_get in Hrun.
    match type of Hrun with
    | context [set_requested ?v ?w1] =>
        set (w2 := set_requested v w1) in Hrun
    end.
    assert (Hw2 : invoked w2 = invoked w ++ [url] /\
                  requested w2 = requested w ++ [url])
      by (split; reflexivity).
    destruct (http_get E url) as [e | response].
    + apply Hh in Hrun. destruct Hrun as [Hr Hi].
      rewrite Hr, Hi. split; apply Hw2.
    + match type of Hrun with
      | context [match ?k w2 with _ => _ end] =>
          destruct (k w2) as [[b | e |] w3] eqn:Hk;
          apply (Hrest response) in Hk; destruct Hk as [Hr3 Hi3]
      end.
      * injection Hrun as _ <-. rewrite Hr3, Hi3. split; apply Hw2.
      * apply Hh in Hrun. destruct Hrun as [Hr Hi].
        rewrite Hr, Hi, Hr3, Hi3. split; apply Hw2.
      * injection Hrun as _ <-. rewrite Hr3, Hi3. split; apply Hw2.
Qed.

(** ** What is written is written in the directory, lines 86-105 *)

Lemma path_join_component (d name : str) :
  ~ In 47%N name -> path_join d name = dir_prefix d ++ name.
Proof.
  intros Hname. unfold path_join, dir_prefix.
  assert (Hs : startswith name (lit "/") = false).
  { destruct name as [|c name]; [reflexivity |].
    cbn [lit list_ascii_of_string map startswith].
    destruct (N.eqb_spec (N_of_ascii "/") c) as [He | Hne]; [| reflexivity].
    exfalso. apply Hname. left. symmetry. exact He. }
  rewrite Hs. unfold is_empty.
  destruct (match d with [] => true | _ :: _ => false end
            || endswith d (lit "/")); [reflexivity |].
  rewrite <- app_assoc. reflexivity.
Qed.

Lemma dir_prefix_shape (d : str) :
  dir_prefix d = [] \/ exists pre, dir_prefix d = pre ++ [47%N].
Proof.
  unfold dir_prefix. destruct d as [|c d]; [left; reflexivity | right].
  cbn [is_empty orb].
  destruct (endswith (c :: d) (lit "/")) eqn:He.
  - apply endswith_iff in He. exact He.
  - exists (c :: d). reflexivity.
Qed.

(** [os.path.splitext] cuts within the last component: the directory part
    stays whole. *)
Lemma splitext_keeps_directory (prefix name : str) :
  prefix = [] \/ (exists pre, prefix = pre ++ [47%N]) ->
  ~ In 47%N name ->
  exists stem,
    fst (splitext (prefix ++ name)) = prefix ++ stem /\
    name = stem ++ snd (splitext (prefix ++ name)).
Proof.
  intros Hprefix Hname.
  pose proof (splitext_app (prefix ++ name)) as Happ.
  destruct Hprefix as [-> | [pre ->]].
  { exists (fst (splitext name)). cbn [app] in *. split; [reflexivity |].
    symmetry. exact Happ. }
  assert (Hext : ~ In 47%N (snd (splitext ((pre ++ [47%N]) ++ name)))).
  { destruct (splitext_extension_shape ((pre ++ [47%N]) ++ name))
      as [-> | [r [-> [_ Hr]]]]; [intros [] |].
    intros [H | H]; [discriminate H | exact (Hr H)]. }
  apply app_eq_app in Happ. destruct Happ as [l [[Hb Hn] | [Hb Hn]]].
  - exists l. split; assumption.
  - destruct l as [|x l _] using rev_ind.
    + exists []. rewrite app_nil_r in Hb. cbn [app] in *.
      split; [rewrite app_nil_r; symmetry; exact Hb | symmetry; exact Hn].
    + exfalso. rewrite app_assoc in Hb. apply app_inj_tail in Hb.
      destruct Hb as [_ <-]. apply Hext.
      refine (eq_ind_r (fun s => In 47%N s) _ Hn).
      apply in_or_app. left. apply in_or_app. right. left. reflexivity.
Qed.

(** Every path the collision loop tries is the directory and one name. *)
Lemma attempt_component (d name : str) (n : N) :
  name <> [] -> ~ In 47%N name ->
  exists name',
    name' <> [] /\ ~ In 47%N name' /\
    attempt (path_join d name) n = path_join d name'.
Proof.
  intros Hne Hname. unfold attempt.
  destruct (n =? 0)%N; [exists name; repeat split; assumption |].
  rewrite (@path_join_component d name Hname).
  destruct (@splitext_keeps_directory (dir_prefix d) name
              (dir_prefix_shape d) Hname) as [stem [Hb Hn]].
  rewrite Hb.
  set (ext := snd (splitext (dir_prefix d ++ name))) in *.
  assert (Hnew : ~ In 47%N (stem ++ lit "_" ++ str_of_int n ++ ext)).
  { rewrite !in_app_iff. intros [H | [H | [H | H]]].
    - apply Hname. rewrite Hn. apply in_or_app. left. exact H.
    - cbn in H. intuition discriminate.
    - apply uint_chars_digits in H. discriminate H.
    - apply Hname. rewrite Hn. apply in_or_app. right. exact H. }
  exists (stem ++ lit "_" ++ str_of_int n ++ ext).
  split; [destruct stem; discriminate |]. split; [exact Hnew |].
  rewrite (@path_join_component d _ Hnew), <- app_assoc. reflexivity.
Qed.

(** With CPython's tables a resolved name holds no slash. *)
Lemma resolve_filename_component (L : Lib) (url content_type cd : str)
    (w w' : World) (filename : str) :
  cpython_tables L ->
  resolve_filename L url content_type cd w = (Ok filename, w') ->
  filename <> [] /\ ~ In 47%N filename.
Proof.
  intros HL H. unfold resolve_filename in H. unfold bind at 1 in H.
  destruct (candidate_filename L url content_type cd w)
    as [[candidate | e |] w1]; try discriminate H.
  destruct (sanitize L candidate) as [|c s] eqn:Hs; cbn [is_empty] in H.
  - unfold bind, datetime_now, ret in H. injection H as H _.
    split; [destruct filename; [discriminate H | discriminate] |].
    intros Hin. rewrite <- H in Hin. cbn [In] in Hin.
    repeat (destruct Hin as [Hin | Hin]; [discriminate Hin |]).
    apply strftime_chars in Hin. destruct Hin as [Hin | Hin];
      discriminate Hin.
  - injection H as <- _. split; [discriminate |]. rewrite <- Hs.
    intros Hin. pose proof (sanitize_kept L candidate) as Hk.
    rewrite Forall_forall in Hk. specialize (Hk _ Hin).
    unfold kept in Hk. rewrite (isalnum_latin1 HL) in Hk by reflexivity.
    discriminate Hk.
Qed.

(** With CPython's tables, the name that lines 69-88 resolve is not empty
    and holds no slash; and whatever [os.path.exists] answers (any
    predicate [taken]), the path at which the loop of lines 93-98 arrives,
    the one handed to [open], is [os.path.join(save_directory, name)] for a
    name that is not empty and holds no slash: the directory, a slash where
    it has none at its end, and one component.  Neither a
    content-disposition header nor a URL can put a path separator into the
    path that is opened.  (The component may still be [..], and what the
    path denotes on a disk with symbolic links is not stated.) *)
Theorem save_path_is_directory_and_name :
  forall (L : Lib)
         (url content_type content_disposition save_directory : str)
         (w w1 : World) (filename : str),
    cpython_tables L ->
    resolve_filename L url content_type content_disposition w
    = (Ok filename, w1) ->
    filename <> [] /\ ~ In 47%N filename /\
    forall (taken : str -> bool) (fuel : nat) (p : str),
      let save_path := path_join save_directory filename in
      free_path fuel taken (fst (splitext save_path))
        (snd (splitext save_path)) save_path 1 = Some p ->
      exists name,
        name <> [] /\ ~ In 47%N name /\
        p = path_join save_directory name /\
        p = dir_prefix save_directory ++ name.
Proof.
  intros L url content_type cd save_directory w w1 filename HL Hres.
  destruct (resolve_filename_component _ _ _ _ HL Hres) as [Hne Hname].
  split; [exact Hne |]. split; [exact Hname |].
  intros taken fuel p save_path Hrun.
  apply (@free_path_sound taken (fst (splitext save_path))
           (snd (splitext save_path)) save_path fuel 0%N p) in Hrun.
  destruct Hrun as [n [_ [_ [Hp _]]]].
  destruct (@attempt_component save_directory filename n Hne Hname)
    as [name [Hne' [Hname' Hpath]]].
  exists name. split; [exact Hne' |]. split; [exact Hname' |].
  assert (Heq : p = path_join save_directory name).
  { rewrite Hp, <- Hpath. reflexivity. }
  split; [exact Heq |].
  rewrite Heq. apply path_join_component, Hname'.
Qed.

Lemma save_path_is_directory_and_name_witness :
  exists name,
    ~ In 47%N name /\
    unique_path 3 [lit "Fetched_Images/....etcpasswd"]
      (path_join directory_name (lit "....etcpasswd"))
    = Some (lit "Fetched_Images/" ++ name).
Proof.
  destruct (@save_path_is_directory_and_name ref_lib
              (lit "http://example.com/download") (lit "image/png")
              (lit "attachment; filename=../../etc/passwd") directory_name
              quiet_world quiet_world (lit "....etcpasswd")
              ref_lib_tables eq_refl) as [_ [_ Hpath]].
  destruct (Hpath (fun p => existsb (str_eqb p)
                              [lit "Fetched_Images/....etcpasswd"])
              3 (lit "Fetched_Images/....etcpasswd_1") eq_refl)
    as [name [_ [Hname [_ Hp]]]].
  exists name. split; [exact Hname |].
  change (dir_prefix directory_name) with (lit "Fetched_Images/") in Hp.
  rewrite <- Hp. reflexivity.
Defined.

(** ** The confirmation when nothing can be typed, lines 60-67 and 122 *)

Lemma headers_get_missing (hs : list (str * str)) (name default : str) :
  (forall k v, In (k, v) hs -> k <> name) ->
  headers_get hs name default = default.
Proof.
  induction hs as [|[k v] hs IH]; intros H; cbn [headers_get];
    [reflexivity |].
  destruct (str_eqb k name) eqn:He.
  - apply str_eqb_eq in He. exfalso. apply (H k v); [left; reflexivity | exact He].
  - apply IH. intros k' v' Hin. apply (H k' v'). right. exact Hin.
Qed.

(** A response without a content-type header has the type '' (the default
    of line 60), which does not start with image/, so the operator is
    asked.  When the response is no image and standard input is at its
    end, the prompt fails with EOFError, which the clause of line 122
    reports as an unexpected error: [download_image] returns False and
    nothing is written. *)
Theorem confirmation_at_end_of_input :
  forall (L : Lib) (E : Env) (url save_directory : str)
         (parsed : ParseResult) (response : Response) (w : World),
    urlparse L url = inr parsed ->
    http_get E url = inr response ->
    in_range 400 599 (status_code response) = false ->
    stdin w = [] ->
    let content_type :=
      headers_get (headers response) (lit "content-type") [] in
    let w1 := connected url parsed w in
    ((forall k v, In (k, v) (headers response) -> k <> lit "content-type") ->
     content_type = [] /\ startswith content_type (lit "image/") = false) /\
    (startswith content_type (lit "image/") = false ->
     download_image L E url save_directory w =
       (Ok false,
        set_stdout
          (stdout w1
           ++ [content_warning; confirm_prompt;
               cross_mark ++ lit " Unexpected error: EOF when reading a line"])
          w1) /\
     files w1 = files w /\ dirs w1 = dirs w).
Proof.
  intros L E url save_directory parsed response w Hparse Hget Hstatus Hin
    content_type w1.
  split.
  - intros Hmissing. unfold content_type.
    rewrite (headers_get_missing _ _ Hmissing). split; reflexivity.
  - intros Hct. split; [| split; reflexivity].
    pose proof (@download_image_connected L E url save_directory parsed
                  response w Hparse Hget Hstatus) as Hd.
    cbv zeta in Hd. fold content_type in Hd. fold w1 in Hd. rewrite Hd.
    assert (Hc : confirm_content_type L content_type w1
                 = (Raise {| cls := EOFError;
                             msg := lit "EOF when reading a line" |},
                    set_stdout (stdout w1 ++ [content_warning; confirm_prompt])
                      w1)).
    { unfold confirm_content_type. rewrite Hct. cbn [negb].
      unfold bind at 1. cbn [print].
      unfold bind at 1. unfold input. cbn [stdin set_stdout].
      change (stdin w1) with (stdin w). rewrite Hin.
      f_equal. same_world. }
    unfold try_except. rewrite (bind_raise _ Hc).
    rewrite dispatch_handled by reflexivity. f_equal. same_world.
Qed.

Lemma confirmation_at_end_of_input_witness :
  fst (download_image ref_lib (env_of (inr untyped_page)) page_url
         directory_name quiet_world) = Ok false /\
  files (snd (download_image ref_lib (env_of (inr untyped_page)) page_url
                directory_name quiet_world)) = [].
Proof.
  destruct (@confirmation_at_end_of_input ref_lib
              (env_of (inr untyped_page)) page_url directory_name
              page_parsed untyped_page quiet_world
              eq_refl eq_refl eq_refl eq_refl) as [Hmissing Hrun].
  destruct Hmissing as [_ Hct].
  { intros k v [H | []]. injection H as <- _. discriminate. }
  destruct (Hrun Hct) as [Hd _]. rewrite Hd. split; reflexivity.
Defined.

(** ** What ends the loop, lines 149-151 and 165-167 *)

(** The loop is left only at the operator's request: a pass ends it either
    on a line that, stripped and lowercased, is quit, exit or q, with the
    goodbye as the only effect, or on a KeyboardInterrupt, with the
    farewell of line 166 as the last line printed.  No outcome of a
    download ends it. *)
Theorem loop_ends_only_on_request :
  forall (L : Lib) (E : Env) (w w' : World),
    main_iteration L E w = (Ok Break, w') ->
    (exists line rest,
       stdin w = Line line :: rest /\
       is_quit L (strip_by (isspace L) line) = true /\
       w' = answered rest goodbye w) \/
    (exists w1, w' = set_stdout (stdout w1 ++ [interrupted]) w1 /\
                consumes w w1).
Proof.
  intros L E w w' H.
  assert (Hkey : forall (e : exn) (w1 w2 : World),
            dispatch main_handlers e w1 = (Ok Break, w2) ->
            w2 = set_stdout (stdout w1 ++ [interrupted]) w1).
  { intros e w1 w2 Hd. unfold main_handlers in Hd. cbn [dispatch] in Hd.
    destruct (isinstance e KeyboardInterrupt).
    - unfold bind, print, ret in Hd. injection Hd as <-. reflexivity.
    - destruct (isinstance e Exception).
      + unfold bind, print, ret in Hd. discriminate Hd.
      + discriminate Hd. }
  destruct (stdin w) as [|[line |] rest] eqn:Hin.
  - exfalso. unfold main_iteration in H. unfold bind at 1 in H.
    cbn [print] in H. unfold try_except in H. unfold bind at 1 in H.
    unfold input in H. cbn [stdin set_stdout] in H. rewrite Hin in H.
    cbn [dispatch isinstance cls mro existsb exn_class_beq orb] in H.
    unfold bind, print, ret in H. discriminate H.
  - rewrite (@main_iteration_line L E line rest w Hin) in H. cbv zeta in H.
    destruct (is_quit L (strip_by (isspace L) line)) eqn:Hq.
    { left. exists line, rest. injection H as <-. repeat split. exact Hq. }
    destruct (is_empty (strip_by (isspace L) line)); [discriminate H |].
    destruct (negb (has_http_scheme (strip_by (isspace L) line)));
      [discriminate H |].
    right. unfold try_except in H. unfold bind at 1 in H.
    fold main_handlers in H.
    match type of H with
    | context [download_image L E ?u ?d ?w0] =>
        destruct (download_image L E u d w0) as [[b | e |] w1] eqn:Hd;
        apply consumes_download_image in Hd
    end.
    + discriminate H.
    + exists w1. split; [apply (Hkey _ _ _ H) |].
      refine (consumes_trans _ Hd). exists [Line line]. exact Hin.
    + discriminate H.
  - right. unfold main_iteration in H. unfold bind at 1 in H.
    cbn [print] in H. unfold try_except in H. unfold bind at 1 in H.
    unfold input in H. cbn [stdin set_stdout] in H. rewrite Hin in H.
    fold main_handlers in H. apply Hkey in H.
    eexists. split; [exact H |]. exists [Interrupt]. exact Hin.
Qed.

Lemma loop_ends_only_on_request_witness :
  exists line rest,
    with_input [Line (lit " exit ")] = set_stdin (Line line :: rest) quiet_world
    /\ is_quit ref_lib (strip_by (isspace ref_lib) line) = true.
Proof.
  destruct (@loop_ends_only_on_request ref_lib (env_of (inr html_page))
              (with_input [Line (lit " exit ")])
              (answered [] goodbye (with_input [Line (lit " exit ")]))
              eq_refl) as [[line [rest [Hin [Hq _]]]] | [w1 [Hout _]]].
  - exists line, rest. split; [| exact Hq].
    cbn [stdin with_input set_stdin] in Hin. unfold with_input.
    rewrite Hin. reflexivity.
  - exfalso. apply (f_equal (fun w => last (stdout w) [])) in Hout.
    cbn [stdout set_stdout] in Hout. rewrite last_last in Hout.
    vm_compute in Hout. discriminate Hout.
Defined.

(** ** The usual case: the name of the URL is the name of the file *)

(** The usual case.  With CPython's tables, no filename in the
    content-disposition header, and a URL whose last path segment is a
    clean name with a period (Latin-1 letters, digits, space, hyphen,
    underscore and period, not ending in white space): when [mimetypes]
    does not know the content-type, or the segment already ends in the
    extension of the type, the file is named after the segment, unchanged,
    and the clock is not read (lines 70-88). *)
Theorem clean_url_name_is_kept :
  forall (L : Lib) (url content_type content_disposition : str)
         (parsed : ParseResult) (w : World) (dir segment : str),
    cpython_tables L ->
    urlparse L url = inr parsed ->
    unquote L (path parsed) = dir ++ lit "/" ++ segment ->
    contains (lit "/") segment = false ->
    contains (lit ".") segment = true ->
    contains (lit "filename=") content_disposition = false ->
    latin1_clean segment = true ->
    match guess_extension L (hd [] (split content_type (lit ";"))) with
    | Some ext => ext = [] \/ endswith segment ext = true
    | None => True
    end ->
    resolve_filename L url content_type content_disposition w
    = (Ok segment, w).
Proof.
  intros L url content_type cd parsed w dir segment
    HL Hparse Hpath Hslash Hdot Hcd Hclean Hext.
  pose proof (@extract_filename_segment L url parsed w dir segment
                Hparse Hpath Hslash) as Hx.
  rewrite Hdot in Hx.
  pose proof (@candidate_from_url L url content_type cd w w segment Hcd Hx)
    as Hc.
  assert (Hadj : adjust_extension L content_type segment = segment).
  { unfold adjust_extension.
    destruct (guess_extension L (hd [] (split content_type (lit ";"))))
      as [ext |]; [| reflexivity].
    destruct Hext as [-> | ->]; [reflexivity |].
    rewrite andb_false_r. reflexivity. }
  rewrite Hadj in Hc.
  rewrite (resolve_filename_of_candidate _ _ _ _ _ Hc).
  rewrite (sanitize_clean segment HL Hclean).
  rewrite (contains_nonempty (sub := lit ".") segment)
    by (discriminate || exact Hdot).
  reflexivity.
Qed.

Lemma clean_url_name_is_kept_witness :
  resolve_filename ref_lib (lit "http://example.com/pics/cat.png")
    (lit "image/png; qs=0.8") [] quiet_world
  = (Ok (lit "cat.png"), quiet_world).
Proof.
  apply (@clean_url_name_is_kept ref_lib
           (lit "http://example.com/pics/cat.png")
           (lit "image/png; qs=0.8") []
           {| scheme := lit "http"; netloc := lit "example.com";
              path := lit "/pics/cat.png"; params := []; query := [];
              fragment := [] |}
           quiet_world (lit "/pics") (lit "cat.png") ref_lib_tables);
    try reflexivity.
  right. reflexivity.
Defined.

(** ** What a run of the program does to the disk *)

Lemma disk_safe_refl (w : World) : disk_safe w w.
Proof. repeat split; auto. Qed.

Lemma disk_safe_trans (a b c : World) :
  disk_safe a b -> disk_safe b c -> disk_safe a c.
Proof.
  intros [K1 [D1 N1]] [K2 [D2 N2]]. repeat split.
  - intros q data H. apply K2, K1, H.
  - intros q H. apply D2, D1, H.
  - intros q H. destruct (N2 q H) as [H' | H']; [apply N1, H' | right; exact H'].
Qed.

Lemma disk_safe_kept (w w' : World) : disk_kept w w' -> disk_safe w w'.
Proof.
  intros [Hf Hd]. repeat split; intros q; rewrite ?Hf, ?Hd; auto.
Qed.

Lemma disk_safe_stdout (v : list str) (w : World) :
  disk_safe w (set_stdout v w).
Proof. apply disk_safe_kept. split; reflexivity. Qed.

Lemma disk_safe_stdin (v : list input_event) (w : World) :
  disk_safe w (set_stdin v w).
Proof. apply disk_safe_kept. split; reflexivity. Qed.

#[local] Hint Resolve disk_safe_refl disk_safe_trans disk_safe_stdout
  disk_safe_stdin : frames.

Lemma disk_safe_download (L : Lib) (E : Env) (url : str) :
  preserves disk_safe (download_image L E url directory_name).
Proof.
  intros w r w' H.
  destruct (download_image_keeps_files L E url directory_name w H)
    as [Hd Hk].
  repeat split.
  - exact Hk.
  - intros q Hq. rewrite Hd. exact Hq.
  - intros q Hq. left. rewrite <- Hd. exact Hq.
Qed.

Lemma disk_safe_makedirs (E : Env) :
  preserves disk_safe (makedirs E directory_name).
Proof.
  intros w r w' H. unfold makedirs in H.
  destruct (makedirs_error E directory_name);
    [injection H as _ <-; apply disk_safe_refl |].
  destruct (existsb _ _); injection H as _ <-; [apply disk_safe_refl |].
  repeat split; cbn [files dirs set_dirs]; auto.
  - intros q Hq. apply in_or_app. left. exact Hq.
  - intros q Hq. apply in_app_or in Hq.
    destruct Hq as [Hq | [<- | []]]; [left; exact Hq | right; reflexivity].
Qed.

Ltac disk_safe_step :=
  first
    [ solve [eauto with frames]
    | apply preserves_ret | apply preserves_print | apply preserves_input
    | apply preserves_bind; [| | intros ?] ].

Lemma disk_safe_iteration (L : Lib) (E : Env) :
  preserves disk_safe (main_iteration L E).
Proof.
  rewrite main_iteration_handlers.
  apply preserves_bind; [eauto with frames | | intros _].
  { apply preserves_print; eauto with frames. }
  apply preserves_try_except; eauto with frames.
  - apply preserves_bind; [eauto with frames | | intros line].
    { apply preserves_input; eauto with frames. }
    cbv zeta.
    destruct (is_quit L _); [repeat disk_safe_step |].
    destruct (is_empty _); [repeat disk_safe_step |].
    destruct (negb _); [repeat disk_safe_step |].
    apply preserves_bind; [eauto with frames | | intros _].
    + apply disk_safe_download.
    + apply preserves_ret; eauto with frames.
  - unfold main_handlers.
    repeat (apply Forall_cons;
            [intros e; cbn [snd]; repeat disk_safe_step |]).
    apply Forall_nil.
Qed.

Lemma disk_safe_loop (L : Lib) (E : Env) (fuel : nat) :
  preserves disk_safe (main_loop L E fuel).
Proof.
  induction fuel as [|fuel IH]; cbn [main_loop].
  - intros w r w' H. injection H as _ <-. apply disk_safe_refl.
  - apply preserves_bind; [eauto with frames | | intros c].
    + apply disk_safe_iteration.
    + destruct c; [apply preserves_ret; eauto with frames | exact IH].
Qed.

(** A run of the whole program, whatever is typed and whatever the web
    answers: every file that existed keeps its contents, every directory
    stays, and no directory but [Fetched_Images] is made. *)
Theorem main_keeps_the_disk :
  forall (L : Lib) (E : Env) (fuel : nat) (w : World),
    let w' := snd (main L E fuel w) in
    (forall q data,
        file_get q (files w) = Some data ->
        file_get q (files w') = Some data) /\
    (forall q, In q (dirs w) -> In q (dirs w')) /\
    (forall q, In q (dirs w') -> In q (dirs w) \/ q = directory_name).
Proof.
  intros L E fuel w. cbv zeta.
  destruct (main L E fuel w) as [r w'] eqn:Hrun. cbn [snd].
  assert (Hp : preserves disk_safe (main L E fuel)).
  { unfold main.
    apply preserves_bind; [eauto with frames | | intros _].
    { induction banner as [|l ls IH]; cbn [print_all].
      - apply preserves_ret; eauto with frames.
      - apply preserves_bind; [eauto with frames | | intros _; exact IH].
        apply preserves_print; eauto with frames. }
    apply preserves_bind; [eauto with frames | | intros ready].
    - unfold create_directory. apply preserves_try_except; eauto with frames.
      + apply preserves_bind; [eauto with frames | | intros _].
        * apply disk_safe_makedirs.
        * repeat disk_safe_step.
      + repeat (apply Forall_cons;
                [intros e; cbn [snd]; repeat disk_safe_step |]).
        apply Forall_nil.
    - destruct (negb ready);
        [apply preserves_ret; eauto with frames | apply disk_safe_loop]. }
  exact (Hp w r w' Hrun).
Qed.

Lemma main_keeps_the_disk_witness :
  let w0 :=
    set_files [(lit "notes.txt", [104; 105]%N)]
      (with_input [Line (lit "http://example.com/pics/cat.png");
                   Line (lit "q")]) in
  file_get (lit "notes.txt")
    (files (snd (main ref_lib (env_of (inr cat_png)) 3 w0)))
  = Some [104; 105]%N.
Proof.
  cbv zeta.
  apply (proj1 (@main_keeps_the_disk ref_lib (env_of (inr cat_png)) 3
                  (set_files [(lit "notes.txt", [104; 105]%N)]
                     (with_input
                        [Line (lit "http://example.com/pics/cat.png");
                         Line (lit "q")])))).
  reflexivity.
Defined.

(** ** A run of the program

    The operator enters the same address twice, then quits: the second copy
    is saved beside the first. *)
Example run_two_downloads :
  let run :=
    main ref_lib (env_of (inr cat_png)) 5
      (with_input [Line (lit "  http://example.com/pics/cat.png ");
                   Line (lit "http://example.com/pics/cat.png");
                   Line (lit "Quit")]) in
  fst run = Ok tt /\
  files (snd run) =
    [(lit "Fetched_Images/cat.png", [137; 80; 78; 71; 13; 10]%N);
     (lit "Fetched_Images/cat_1.png", [137; 80; 78; 71; 13; 10]%N)] /\
  dirs (snd run) = [lit "Fetched_Images"] /\
  requested (snd run) =
    [lit "http://example.com/pics/cat.png";
     lit "http://example.com/pics/cat.png"] /\
  skipn 17 (stdout (snd run)) =
    [globe ++ lit " Connecting to example.com...";
     inbox_tray ++ lit " Downloading: cat.png";
     white_check_mark ++ lit " Successfully saved: cat.png (6 bytes)";
     file_folder ++ lit " Location: Fetched_Images/cat_1.png";
     separator; url_prompt; goodbye].
Proof. repeat split; vm_compute; reflexivity. Qed.
